(** * Family Contest App: contest lifecycle, ballot validation and tally

    A shallow embedding of [backend/server.js].  The SQLite database is a
    record of three tables kept as lists in rowid order; every route handler
    is a function from the request, the wall clock and the database to an
    HTTP response and the database it leaves behind.

    Numbers that the server only ever compares or adds as integers (row ids,
    scores, timestamps) are integers of [Z]; a deadline is the millisecond
    instant its text parses to.  The rank and the entry id of a vote come
    from the request body as JSON numbers and are kept as such. *)

From Stdlib Require Import ZArith Lia.
From stdpp Require Import base decidable option list strings gmap sorting pretty.

Local Open Scope Z_scope.

(** ** Numbers of a request body

    A JSON number reaches the handler as a double: a whole number, or an odd
    numerator over a power of two.  [Frac n k] is (2n+1)/2^k, so 1.5 is
    [Frac 1 1].  A column of INTEGER affinity keeps a whole number as an
    INTEGER and any other number as the REAL it is.  (A number too large
    for a double arrives as Infinity, which every test of the vote handler
    treats as it treats a whole number larger than all others.) *)

Inductive Num := Whole (z : Z) | Frac (n : Z) (k : positive).

Coercion Whole : Z >-> Num.

Bind Scope Z_scope with Num.

#[global] Instance Num_eq_dec : EqDecision Num.
Proof. solve_decision. Defined.

#[global] Instance Num_countable : Countable Num :=
  inj_countable'
    (fun x => match x with Whole z => inl z | Frac n k => inr (n, k) end)
    (fun y => match y with inl z => Whole z | inr (n, k) => Frac n k end)
    (fun x => match x with Whole _ => eq_refl | Frac _ _ => eq_refl end).

Definition numerator (x : Num) : Z :=
  match x with Whole z => z | Frac n _ => 2 * n + 1 end.

Definition denominator (x : Num) : Z :=
  match x with Whole _ => 1 | Frac _ k => 2 ^ Z.pos k end.

(** The sign of [x - y]: the difference over the product of the two
    denominators. *)
Definition num_cmp (x y : Num) : Z :=
  numerator x * denominator y - numerator y * denominator x.

(** [x < y] and [x <= y]. *)
Definition num_lt (x y : Num) : bool := num_cmp x y <? 0.
Definition num_le (x y : Num) : bool := num_cmp x y <=? 0.

(** ** Data model (the [CREATE TABLE] statements) *)

Inductive Phase := submission | voting | results.

#[global] Instance Phase_eq_dec : EqDecision Phase.
Proof. solve_decision. Defined.

(** Position of a phase in the lifecycle submission < voting < results. *)
Definition phase_index (p : Phase) : nat :=
  match p with submission => 0 | voting => 1 | results => 2 end.

Definition phase_le (p q : Phase) : Prop := (phase_index p <= phase_index q)%nat.

Record Contest := mkContest {
  c_id : Z;
  c_slug : string;
  c_name : string;
  c_description : string;
  c_admin_pin_hash : string;
  c_submission_deadline : Z;
  c_voting_deadline : Z;
  c_current_phase : Phase;
  c_created_at : Z
}.

Record Entry := mkEntry {
  e_id : Z;
  e_contest_id : Z;
  e_name : string;
  e_image_filename : string;
  e_created_at : Z
}.

Record Vote := mkVote {
  v_id : Z;
  v_contest_id : Z;
  v_voter_id : string;
  v_entry_id : Z;
  v_rank : Num;
  v_created_at : Z
}.

#[global] Instance Entry_eq_dec : EqDecision Entry.
Proof. solve_decision. Defined.

(** The database: the three tables in rowid order and the AUTOINCREMENT
    counters of the two tables the handlers insert into. *)
Record DB := mkDB {
  contests : list Contest;
  entries : list Entry;
  votes : list Vote;
  entries_seq : Z;
  votes_seq : Z
}.

Definition set_current_phase (p : Phase) (c : Contest) : Contest :=
  mkContest (c_id c) (c_slug c) (c_name c) (c_description c) (c_admin_pin_hash c)
            (c_submission_deadline c) (c_voting_deadline c) p (c_created_at c).

Definition set_deadlines (s v : Z) (c : Contest) : Contest :=
  mkContest (c_id c) (c_slug c) (c_name c) (c_description c) (c_admin_pin_hash c)
            s v (c_current_phase c) (c_created_at c).

Definition with_contests (cs : list Contest) (db : DB) : DB :=
  mkDB cs (entries db) (votes db) (entries_seq db) (votes_seq db).

Definition with_votes (vs : list Vote) (seq : Z) (db : DB) : DB :=
  mkDB (contests db) (entries db) vs (entries_seq db) seq.

Definition with_entries (es : list Entry) (seq : Z) (db : DB) : DB :=
  mkDB (contests db) es (votes db) seq (votes_seq db).

(** ** SQL statements used by the handlers *)

(** [SELECT * FROM contests WHERE slug = ?] with [.get]: the first row. *)
Definition select_contest_by_slug (slug : string) (db : DB) : option Contest :=
  List.find (fun c => bool_decide (c_slug c = slug)) (contests db).

(** [SELECT * FROM contests WHERE id = ?] with [.get]. *)
Definition select_contest_by_id (id : Z) (db : DB) : option Contest :=
  List.find (fun c => bool_decide (c_id c = id)) (contests db).

(** [UPDATE contests SET current_phase = ? WHERE id = ?]. *)
Definition update_current_phase (p : Phase) (id : Z) (db : DB) : DB :=
  with_contests
    (map (fun c => if bool_decide (c_id c = id) then set_current_phase p c else c)
         (contests db))
    db.

(** [UPDATE contests SET submission_deadline = ?, voting_deadline = ? WHERE id = ?]. *)
Definition update_deadlines (s v : Z) (id : Z) (db : DB) : DB :=
  with_contests
    (map (fun c => if bool_decide (c_id c = id) then set_deadlines s v c else c)
         (contests db))
    db.

(** ** Phase resolver *)

(** The phase [updateContestPhase] computes: both tests read the phase the
    contest was loaded with, not the phase the first test may have chosen. *)
Definition newPhase (now : Z) (contest : Contest) : Phase :=
  let p0 := c_current_phase contest in
  let p1 :=
    if bool_decide (p0 = submission) && (c_submission_deadline contest <=? now)
    then voting else p0 in
  if (bool_decide (p0 = submission) || bool_decide (p0 = voting))
       && (c_voting_deadline contest <=? now)
  then results else p1.

(** [updateContestPhase(contest)]: persists the phase when it changed and
    returns the contest object carrying the new phase. *)
Definition updateContestPhase (now : Z) (contest : Contest) (db : DB) : Contest * DB :=
  let np := newPhase now contest in
  if bool_decide (np <> c_current_phase contest)
  then (set_current_phase np contest, update_current_phase np (c_id contest) db)
  else (contest, db).

(** [getContestWithPhase(slug)]. *)
Definition getContestWithPhase (now : Z) (slug : string) (db : DB) : option Contest * DB :=
  match select_contest_by_slug slug db with
  | None => (None, db)
  | Some contest =>
      let '(c, db') := updateContestPhase now contest db in (Some c, db')
  end.

(** The stored phase of the contest a slug names. *)
Definition stored_phase (slug : string) (db : DB) : option Phase :=
  c_current_phase <$> select_contest_by_slug slug db.

(** Repeated resolutions of one contest, one per instant of [nows]; the
    result lists the stored phase after each of them. *)
Fixpoint phase_trace (slug : string) (nows : list Z) (db : DB) : list (option Phase) :=
  match nows with
  | [] => []
  | now :: rest =>
      let db' := (getContestWithPhase now slug db).2 in
      stored_phase slug db' :: phase_trace slug rest db'
  end.

(** Order on the stored phase of a contest that exists throughout. *)
Definition stored_phase_le (p q : option Phase) : Prop :=
  match p, q with
  | Some a, Some b => phase_le a b
  | _, _ => False
  end.

(** ** HTTP responses *)

(** The error bodies [{ error: ... }] the handlers send. *)
Inductive ApiError :=
| ContestNotFound
| SubmissionsClosed
| NameAndImageRequired
| DuplicateName
| VotingNotOpen
| InvalidVoteData
| TooManySelections
| InvalidRank
| DuplicateRank
| DuplicateEntry
| UnknownEntry
| PinRequired
| InvalidPin
| InvalidDeadlineOrder
| EntryNotFound
| FileTooLarge (megabytes : Z)
| ServerError (msg : string).

#[global] Instance ApiError_eq_dec : EqDecision ApiError.
Proof. solve_decision. Defined.

Definition error_status (e : ApiError) : Z :=
  match e with
  | ContestNotFound | EntryNotFound => 404
  | InvalidPin => 401
  | ServerError _ => 500
  | _ => 400
  end.

Definition error_message (e : ApiError) : string :=
  match e with
  | ContestNotFound => "Contest not found"
  | SubmissionsClosed => "Submissions are closed for this contest"
  | NameAndImageRequired => "Name and image are required"
  | DuplicateName => "An entry with this name already exists"
  | VotingNotOpen => "Voting is not open for this contest"
  | InvalidVoteData => "Invalid vote data"
  | TooManySelections => "You can only vote for up to 3 entries"
  | InvalidRank => "Invalid rank value"
  | DuplicateRank => "Duplicate rank"
  | DuplicateEntry => "Cannot vote for the same entry twice"
  | UnknownEntry => "Invalid entry"
  | PinRequired => "PIN required"
  | InvalidPin => "Invalid PIN"
  | InvalidDeadlineOrder => "Voting deadline must be after submission deadline"
  | EntryNotFound => "Entry not found"
  | FileTooLarge megabytes =>
      "File too large. Maximum size is " +:+ pretty megabytes +:+ "MB"
  | ServerError msg => msg
  end.

(** A contest as sent to a client: the row after
    [delete contest.admin_pin_hash], with [entry_count] where the handler
    adds it. *)
Record ContestView := mkContestView {
  cv_id : Z;
  cv_slug : string;
  cv_name : string;
  cv_description : string;
  cv_submission_deadline : Z;
  cv_voting_deadline : Z;
  cv_current_phase : Phase;
  cv_created_at : Z;
  cv_entry_count : option nat
}.

Definition contest_view (c : Contest) (entry_count : option nat) : ContestView :=
  mkContestView (c_id c) (c_slug c) (c_name c) (c_description c)
                (c_submission_deadline c) (c_voting_deadline c)
                (c_current_phase c) (c_created_at c) entry_count.

(** One element of the [votes] array of a ballot: [{ entryId, rank }]. *)
Record BallotItem := mkBallotItem { entryId : Num; rank : Num }.

#[global] Instance BallotItem_eq_dec : EqDecision BallotItem.
Proof. solve_decision. Defined.

Record VoteBreakdown := mkVoteBreakdown { first : nat; second : nat; third : nat }.

(** The object [{ ...entry, score, voteBreakdown }] of the results phase. *)
Record ScoredEntry := mkScoredEntry {
  se_entry : Entry;
  score : Z;
  voteBreakdown : VoteBreakdown
}.

(** An element of the [entries] array of an entry listing.  [Anonymous] is
    the object [{ ...rest }] left after [sortKey] and [name] are taken out:
    it has the keys id, contest_id, image_filename and created_at. *)
Inductive EntryView :=
| Anonymous (id contest_id : Z) (image_filename : string) (created_at : Z)
| Scored (e : ScoredEntry).

(** Does the JSON object have a [name] key? *)
Definition has_name (v : EntryView) : bool :=
  match v with Anonymous _ _ _ _ => false | _ => true end.

(** The object [{ entries, entryCount?, phase }]. *)
Record EntriesPayload := mkEntriesPayload {
  p_entries : list EntryView;
  p_entryCount : option nat;
  p_phase : Phase
}.

Inductive Response :=
| RError (e : ApiError)
| RContest (c : ContestView)
| REntries (p : EntriesPayload)
| RCreated (e : option Entry)
| RVotesRecorded
| RBallot (b : list BallotItem)
| RSuccess
| RAdminEntries (es : list Entry).

(** ** Statements that may throw

    A handler body runs database statements in sequence; a statement that
    violates a constraint throws, the rest of the body is skipped and the
    [catch] block of the handler answers 500.  Nothing is rolled back: no
    handler opens a transaction. *)

Inductive Result (A : Type) := Done (a : A) | Thrown.
Arguments Done {A} a.
Arguments Thrown {A}.

Definition Sql (A : Type) : Type := DB -> Result A * DB.

Definition sql_ret {A} (a : A) : Sql A := fun db => (Done a, db).

Definition sql_bind {A B} (m : Sql A) (f : A -> Sql B) : Sql B :=
  fun db =>
    match m db with
    | (Done a, db') => f a db'
    | (Thrown, db') => (Thrown, db')
    end.

Definition throw {A} : Sql A := fun db => (Thrown, db).

(** A [SELECT]. *)
Definition query {A} (f : DB -> A) : Sql A := fun db => (Done (f db), db).

(** An [UPDATE] or [DELETE], which no constraint can stop. *)
Definition exec (f : DB -> DB) : Sql unit := fun db => (Done tt, f db).

(** [try { body } catch { res.status(500).json({ error: msg }) }]. *)
Definition try_catch (body : Sql Response) (msg : string) : DB -> Response * DB :=
  fun db =>
    match body db with
    | (Done r, db') => (r, db')
    | (Thrown, db') => (RError (ServerError msg), db')
    end.

#[global] Instance Sql_ret : MRet Sql := @sql_ret.
#[global] Instance Sql_bind : MBind Sql := fun A B f m => sql_bind m f.

(** [getContestWithPhase] as a statement of a handler body. *)
Definition resolve (now : Z) (slug : string) : Sql (option Contest) :=
  fun db => let '(c, db') := getContestWithPhase now slug db in (Done c, db').

(** ** Sorting

    [Array.prototype.sort] with a comparator is stable: [a] stays before [b]
    unless the comparator asks for [b] first.  The same insertion sort
    stands for [ORDER BY] over rows scanned in rowid order. *)

Fixpoint sort_insert {A} (cmp : A -> A -> Z) (x : A) (l : list A) : list A :=
  match l with
  | [] => [x]
  | y :: l' => if cmp x y <=? 0 then x :: l else y :: sort_insert cmp x l'
  end.

Fixpoint js_sort {A} (cmp : A -> A -> Z) (l : list A) : list A :=
  match l with
  | [] => []
  | x :: l' => sort_insert cmp x (js_sort cmp l')
  end.

(** [SELECT * FROM entries WHERE contest_id = ? ORDER BY created_at ASC]. *)
Definition select_entries (contest_id : Z) (db : DB) : list Entry :=
  js_sort (fun a b => e_created_at a - e_created_at b)
          (List.filter (fun e => bool_decide (e_contest_id e = contest_id)) (entries db)).

(** [SELECT COUNT( * ) FROM entries WHERE contest_id = ?]. *)
Definition count_entries (contest_id : Z) (db : DB) : nat :=
  length (List.filter (fun e => bool_decide (e_contest_id e = contest_id)) (entries db)).

(** [SELECT * FROM entries WHERE id = ? AND contest_id = ?] with [.get]: the
    entry of that id, when it is an entry of the contest. *)
Definition select_entry_in_contest (id contest_id : Z) (db : DB) : option Entry :=
  List.find (fun e => bool_decide (e_id e = id) && bool_decide (e_contest_id e = contest_id))
            (entries db).

(** [SELECT id FROM entries WHERE id = ? AND contest_id = ?] with the
    [entryId] of a vote: an id is a whole number and equals no other
    number. *)
Definition select_entry_id (id : Num) (contest_id : Z) (db : DB) : option Entry :=
  match id with
  | Whole id => select_entry_in_contest id contest_id db
  | Frac _ _ => None
  end.

(** [SELECT * FROM entries WHERE id = ?]. *)
Definition select_entry_by_id (id : Z) (db : DB) : option Entry :=
  List.find (fun e => bool_decide (e_id e = id)) (entries db).

(** [SELECT rank, COUNT( * ) as count FROM votes WHERE entry_id = ? GROUP BY rank]:
    one row per rank that occurs among the votes of the entry, in rank
    order, with the number of votes of that rank. *)
Definition select_rank_counts (entry_id : Z) (db : DB) : list (Num * nat) :=
  let ranks :=
    map v_rank (List.filter (fun v => bool_decide (v_entry_id v = entry_id)) (votes db)) in
  map (fun r => (r, length (List.filter (fun r' => bool_decide (r' = r)) ranks)))
      (js_sort num_cmp (remove_dups ranks)).

(** The rows of one voter in one contest, as [{ entryId, rank }], in the
    order of the table. *)
Definition voter_rows (contest_id : Z) (voter_id : string) (db : DB) : list BallotItem :=
  map (fun v => mkBallotItem (v_entry_id v) (v_rank v))
      (List.filter (fun v => bool_decide (v_contest_id v = contest_id)
                             && bool_decide (v_voter_id v = voter_id))
                   (votes db)).

(** [SELECT entry_id as entryId, rank FROM votes WHERE contest_id = ? AND voter_id = ?].
    The statement has no ORDER BY: SQLite finds the rows through the index
    of [UNIQUE(contest_id, voter_id, entry_id)], so they come by entry
    id. *)
Definition select_voter_votes (contest_id : Z) (voter_id : string) (db : DB) : list BallotItem :=
  js_sort (fun a b => num_cmp (entryId a) (entryId b)) (voter_rows contest_id voter_id db).

(** [DELETE FROM votes WHERE contest_id = ? AND voter_id = ?]. *)
Definition delete_voter_votes (contest_id : Z) (voter_id : string) (db : DB) : DB :=
  with_votes
    (List.filter (fun v => negb (bool_decide (v_contest_id v = contest_id)
                                 && bool_decide (v_voter_id v = voter_id)))
                 (votes db))
    (votes_seq db) db.

(** [DELETE FROM votes WHERE entry_id = ?]. *)
Definition delete_entry_votes (entry_id : Z) (db : DB) : DB :=
  with_votes
    (List.filter (fun v => negb (bool_decide (v_entry_id v = entry_id))) (votes db))
    (votes_seq db) db.

(** [DELETE FROM entries WHERE id = ?]; [ON DELETE CASCADE] takes the votes
    of the entry with it. *)
Definition delete_entry (id : Z) (db : DB) : DB :=
  with_entries
    (List.filter (fun e => negb (bool_decide (e_id e = id))) (entries db))
    (entries_seq db) (delete_entry_votes id db).

(** The rowid an AUTOINCREMENT table gives its next row. *)
Definition next_rowid (seq : Z) (ids : list Z) : Z := 1 + fold_right Z.max seq ids.

(** [INSERT INTO entries (contest_id, name, image_filename) VALUES (?, ?, ?)]
    under [UNIQUE(contest_id, name)] and the foreign key on [contest_id];
    returns [lastInsertRowid].  [created_at] is [CURRENT_TIMESTAMP], in
    seconds. *)
Definition insert_entry (contest_id : Z) (name image_filename : string) (now : Z) : Sql Z :=
  fun db =>
    if existsb (fun e => bool_decide (e_contest_id e = contest_id)
                         && bool_decide (e_name e = name)) (entries db)
    then (Thrown, db)
    else if negb (existsb (fun c => bool_decide (c_id c = contest_id)) (contests db))
    then (Thrown, db)
    else
      let id := next_rowid (entries_seq db) (map e_id (entries db)) in
      (Done id,
       with_entries (entries db ++ [mkEntry id contest_id name image_filename (now `div` 1000)])
                    id db).

(** [INSERT INTO votes (contest_id, voter_id, entry_id, rank) VALUES (?, ?, ?, ?)]
    under [CHECK(rank >= 1 AND rank <= 3)], [UNIQUE(contest_id, voter_id, rank)],
    [UNIQUE(contest_id, voter_id, entry_id)] and the two foreign keys.  The
    check compares numbers, so a rank such as 1.5 meets it; an entry id that
    is not a whole number is the id of no entry and fails the foreign key. *)
Definition insert_vote (contest_id : Z) (voter_id : string) (entry_id rank : Num) (now : Z)
  : Sql unit :=
  fun db =>
    match entry_id with
    | Frac _ _ => (Thrown, db)
    | Whole entry_id =>
        if negb (num_le 1 rank && num_le rank 3) then (Thrown, db)
        else if existsb (fun v => bool_decide (v_contest_id v = contest_id)
                                  && bool_decide (v_voter_id v = voter_id)
                                  && bool_decide (v_rank v = rank)) (votes db)
        then (Thrown, db)
        else if existsb (fun v => bool_decide (v_contest_id v = contest_id)
                                  && bool_decide (v_voter_id v = voter_id)
                                  && bool_decide (v_entry_id v = entry_id)) (votes db)
        then (Thrown, db)
        else if negb (existsb (fun c => bool_decide (c_id c = contest_id)) (contests db))
        then (Thrown, db)
        else if negb (existsb (fun e => bool_decide (e_id e = entry_id)) (entries db))
        then (Thrown, db)
        else
          let id := next_rowid (votes_seq db) (map v_id (votes db)) in
          (Done tt,
           with_votes
             (votes db ++ [mkVote id contest_id voter_id entry_id rank (now `div` 1000)])
             id db)
    end.

(** ** Public handlers *)

(** [GET /api/contests/:slug]. *)
Definition getContest (now : Z) (slug : string) : DB -> Response * DB :=
  try_catch
    (contest ← resolve now slug;
     match contest with
     | None => mret (RError ContestNotFound)
     | Some contest =>
         entryCount ← query (count_entries (c_id contest));
         mret (RContest (contest_view contest (Some entryCount)))
     end)
    "Failed to fetch contest".

(** The forEach over the grouped vote rows of one entry. *)
Definition tally_row (acc : Z * VoteBreakdown) (v : Num * nat) : Z * VoteBreakdown :=
  let '(score, bd) := acc in
  let '(rank, count) := v in
  let '(score, bd) :=
    if bool_decide (rank = 1) then (score + 3, mkVoteBreakdown count (second bd) (third bd))
    else (score, bd) in
  let '(score, bd) :=
    if bool_decide (rank = 2) then (score + 2, mkVoteBreakdown (first bd) count (third bd))
    else (score, bd) in
  let '(score, bd) :=
    if bool_decide (rank = 3) then (score + 1, mkVoteBreakdown (first bd) (second bd) count)
    else (score, bd) in
  (score, bd).

(** The body of [entries.map(entry => ...)] in the results branch. *)
Definition entryWithVotes (db : DB) (entry : Entry) : ScoredEntry :=
  let votes := select_rank_counts (e_id entry) db in
  let '(score, voteBreakdown) := fold_left tally_row votes (0, mkVoteBreakdown 0%nat 0%nat 0%nat) in
  mkScoredEntry entry score voteBreakdown.

(** [({ sortKey, name, ...rest }) => rest]. *)
Definition strip (keyed : Entry * Z) : EntryView :=
  let e := keyed.1 in
  Anonymous (e_id e) (e_contest_id e) (e_image_filename e) (e_created_at e).

(** The voting branch: the i-th entry gets the i-th draw of [Math.random]
    as its sort key.  Only the order of the keys matters, so a key is an
    integer. *)
Definition shuffled (rand : nat -> Z) (entries : list Entry) : list EntryView :=
  map strip
      (js_sort (fun a b => a.2 - b.2)
               (imap (fun i e => (e, rand i)) entries)).

(** The results branch. *)
Definition tally (db : DB) (entries : list Entry) : list ScoredEntry :=
  js_sort (fun a b => score b - score a) (map (entryWithVotes db) entries).

(** [GET /api/contests/:slug/entries].  The fallback after the three phase
    tests cannot be reached: the column holds one of the three phases. *)
Definition listEntries (rand : nat -> Z) (now : Z) (slug : string) : DB -> Response * DB :=
  try_catch
    (contest ← resolve now slug;
     match contest with
     | None => mret (RError ContestNotFound)
     | Some contest =>
         entries ← query (select_entries (c_id contest));
         match c_current_phase contest with
         | submission =>
             mret (REntries (mkEntriesPayload [] (Some (length entries)) submission))
         | voting =>
             mret (REntries (mkEntriesPayload (shuffled rand entries) None voting))
         | results =>
             entriesWithVotes ← query (fun db => tally db entries);
             mret (REntries (mkEntriesPayload (map Scored entriesWithVotes) None results))
         end
     end)
    "Failed to fetch entries".

(** The validation loop of [POST /api/contests/:slug/votes]; [ranks] and
    [entryIds] are the two [Set]s the loop fills.  The result is the error
    of the first vote that fails a test, in the order the tests are made.
    The rank test is [vote.rank < 1 || vote.rank > 3], a test of the range
    and not of the three values. *)
Fixpoint validate_votes (contest_id : Z) (votes : list BallotItem)
    (ranks entryIds : gset Num) (db : DB) : option ApiError :=
  match votes with
  | [] => None
  | vote :: rest =>
      if num_lt (rank vote) 1 || num_lt 3 (rank vote) then Some InvalidRank
      else if bool_decide (rank vote ∈ ranks) then Some DuplicateRank
      else if bool_decide (entryId vote ∈ entryIds) then Some DuplicateEntry
      else
        match select_entry_id (entryId vote) contest_id db with
        | None => Some UnknownEntry
        | Some _ =>
            validate_votes contest_id rest
                           ({[rank vote]} ∪ ranks) ({[entryId vote]} ∪ entryIds) db
        end
  end.

(** [for (const vote of votes) insertVote.run(...)]. *)
Fixpoint insert_votes (contest_id : Z) (voter_id : string) (votes : list BallotItem)
    (now : Z) : Sql unit :=
  match votes with
  | [] => mret tt
  | vote :: rest =>
      insert_vote contest_id voter_id (entryId vote) (rank vote) now;;
      insert_votes contest_id voter_id rest now
  end.

(** [POST /api/contests/:slug/votes].  [voterId] is [None] when the body has
    no voter id; [votes] is [None] when the body has no [votes] or it is not
    an array.  The votes of the array carry numbers. *)
Definition castVote (voterId : option string) (votes : option (list BallotItem))
    (now : Z) (slug : string) : DB -> Response * DB :=
  try_catch
    (contest ← resolve now slug;
     match contest with
     | None => mret (RError ContestNotFound)
     | Some contest =>
         if bool_decide (c_current_phase contest <> voting)
         then mret (RError VotingNotOpen)
         else
           match voterId, votes with
           | Some voterId, Some votes =>
               if bool_decide (voterId = "") then mret (RError InvalidVoteData)
               else if (3 <? length votes)%nat then mret (RError TooManySelections)
               else
                 invalid ← query (validate_votes (c_id contest) votes ∅ ∅);
                 match invalid with
                 | Some e => mret (RError e)
                 | None =>
                     exec (delete_voter_votes (c_id contest) voterId);;
                     insert_votes (c_id contest) voterId votes now;;
                     mret RVotesRecorded
                 end
           | _, _ => mret (RError InvalidVoteData)
           end
     end)
    "Failed to record votes".

(** [GET /api/contests/:slug/votes/:voterId]. *)
Definition getVoterBallot (voterId : string) (now : Z) (slug : string)
  : DB -> Response * DB :=
  try_catch
    (contest ← resolve now slug;
     match contest with
     | None => mret (RError ContestNotFound)
     | Some contest =>
         votes ← query (select_voter_votes (c_id contest) voterId);
         mret (RBallot votes)
     end)
    "Failed to fetch votes".

(** The image part of a multipart request, as [upload.single('image')]
    meets it: its MIME type, whether multer stops it for passing
    [limits.fileSize], and the file name [diskStorage] gives it.  A request
    has at most one file part, in the field [image]. *)
Record ImagePart := mkImagePart {
  mimetype : string;
  over_limit : bool;
  stored_name : string
}.

Definition allowedTypes : list string :=
  ["image/jpeg"; "image/png"; "image/gif"; "image/webp"; "image/heic"; "image/heif"].

(** Does the upload middleware stop the request? *)
Definition upload_refused (image : option ImagePart) : bool :=
  match image with
  | None => false
  | Some part => negb (bool_decide (mimetype part ∈ allowedTypes)) || over_limit part
  end.

Section StringPrimitives.

(** SQLite's [LOWER] and JavaScript's [String.prototype.trim]. *)
Variable sql_lower : string -> string.
Variable js_trim : string -> string.

(** [SELECT id FROM entries WHERE contest_id = ? AND LOWER(name) = LOWER(?)]. *)
Definition select_entry_by_name (contest_id : Z) (name : string) (db : DB) : option Entry :=
  List.find (fun e => bool_decide (e_contest_id e = contest_id)
                      && bool_decide (sql_lower (e_name e) = sql_lower name))
            (entries db).

(** The handler of [POST /api/contests/:slug/entries], which runs once
    [upload.single('image')] has let the request through.  [name] is the
    form field and [file] the stored file name of the upload, when there is
    one.  The uploaded file itself lives outside the database. *)
Definition createEntry (name file : option string) (now : Z) (slug : string)
  : DB -> Response * DB :=
  try_catch
    (contest ← resolve now slug;
     match contest with
     | None => mret (RError ContestNotFound)
     | Some contest =>
         if bool_decide (c_current_phase contest <> submission)
         then mret (RError SubmissionsClosed)
         else
           match name, file with
           | Some name, Some filename =>
               if bool_decide (name = "") then mret (RError NameAndImageRequired)
               else
                 existing ← query (select_entry_by_name (c_id contest) name);
                 match existing with
                 | Some _ => mret (RError DuplicateName)
                 | None =>
                     id ← insert_entry (c_id contest) (js_trim name) filename now;
                     entry ← query (select_entry_by_id id);
                     mret (RCreated entry)
                 end
           | _, _ => mret (RError NameAndImageRequired)
           end
     end)
    "Failed to create entry".

(** The route [POST /api/contests/:slug/entries]: [upload.single('image')]
    comes before the handler.  An image part of another type is refused by
    [fileFilter] and one over [limits.fileSize] by multer; either error goes
    to the error-handling middleware, which answers it, and the handler does
    not run.  [maxFileSizeMB] is [MAX_FILE_SIZE / 1024 / 1024]. *)
Definition submitEntry (maxFileSizeMB : Z) (name : option string) (image : option ImagePart)
    (now : Z) (slug : string) : DB -> Response * DB :=
  fun db =>
    match image with
    | None => createEntry name None now slug db
    | Some part =>
        if negb (bool_decide (mimetype part ∈ allowedTypes))
        then (RError (ServerError "Only image files are allowed (JPEG, PNG, GIF, WebP, HEIC)"),
              db)
        else if over_limit part then (RError (FileTooLarge maxFileSizeMB), db)
        else createEntry name (Some (stored_name part)) now slug db
    end.

End StringPrimitives.

(** ** Admin handlers *)

Definition phase_of_string (s : string) : option Phase :=
  if bool_decide (s = "submission") then Some submission
  else if bool_decide (s = "voting") then Some voting
  else if bool_decide (s = "results") then Some results
  else None.

Section Admin.

(** SHA-256 of the PIN, in hex. *)
Variable sha256_hex : string -> string.

(** [hashPin(pin)]: hashing a PIN that is missing from the body throws. *)
Definition hashPin (pin : option string) : Sql string :=
  match pin with
  | Some pin => mret (sha256_hex pin)
  | None => throw
  end.

(** [POST /api/contests/:slug/admin/verify]. *)
Definition adminVerify (pin : option string) (slug : string) : DB -> Response * DB :=
  try_catch
    (contest ← query (select_contest_by_slug slug);
     match contest with
     | None => mret (RError ContestNotFound)
     | Some contest =>
         match pin with
         | None => mret (RError PinRequired)
         | Some p =>
             if bool_decide (p = "") then mret (RError PinRequired)
             else
               pinHash ← hashPin pin;
               if bool_decide (pinHash <> c_admin_pin_hash contest)
               then mret (RError InvalidPin)
               else mret RSuccess
         end
     end)
    "Failed to verify PIN".

(** The tail of the update handler, after the deadlines: the forced
    phase, then the re-read row. *)
Definition adminUpdate_phase (contest : Contest) (currentPhase : option string)
  : Sql Response :=
  match currentPhase ≫= phase_of_string with
  | Some p => exec (update_current_phase p (c_id contest))
  | None => mret tt
  end;;
  updated ← query (select_contest_by_id (c_id contest));
  match updated with
  | Some updated => mret (RContest (contest_view updated None))
  | None => throw
  end.

(** [PUT /api/contests/:slug/admin].  A deadline is [None] when the body
    leaves it out (or sends an empty string), and a date otherwise, as for
    the creation. *)
Definition adminUpdate (pin : option string)
    (submissionDeadline votingDeadline : option Z) (currentPhase : option string)
    (slug : string) : DB -> Response * DB :=
  try_catch
    (contest ← query (select_contest_by_slug slug);
     match contest with
     | None => mret (RError ContestNotFound)
     | Some contest =>
         pinHash ← hashPin pin;
         if bool_decide (pinHash <> c_admin_pin_hash contest)
         then mret (RError InvalidPin)
         else
           match submissionDeadline, votingDeadline with
           | Some subDeadline, Some voteDeadline =>
               if subDeadline >=? voteDeadline
               then mret (RError InvalidDeadlineOrder)
               else
                 exec (update_deadlines subDeadline voteDeadline (c_id contest));;
                 adminUpdate_phase contest currentPhase
           | _, _ => adminUpdate_phase contest currentPhase
           end
     end)
    "Failed to update contest".

(** [DELETE /api/contests/:slug/admin/entries/:entryId]. *)
Definition adminDeleteEntry (pin : option string) (entry_id : Z) (slug : string)
  : DB -> Response * DB :=
  try_catch
    (contest ← query (select_contest_by_slug slug);
     match contest with
     | None => mret (RError ContestNotFound)
     | Some contest =>
         pinHash ← hashPin pin;
         if bool_decide (pinHash <> c_admin_pin_hash contest)
         then mret (RError InvalidPin)
         else
           entry ← query (select_entry_in_contest entry_id (c_id contest));
           match entry with
           | None => mret (RError EntryNotFound)
           | Some entry =>
               exec (delete_entry_votes (e_id entry));;
               exec (delete_entry (e_id entry));;
               mret RSuccess
           end
     end)
    "Failed to delete entry".

(** [POST /api/contests/:slug/admin/entries]. *)
Definition adminListEntries (pin : option string) (slug : string)
  : DB -> Response * DB :=
  try_catch
    (contest ← query (select_contest_by_slug slug);
     match contest with
     | None => mret (RError ContestNotFound)
     | Some contest =>
         pinHash ← hashPin pin;
         if bool_decide (pinHash <> c_admin_pin_hash contest)
         then mret (RError InvalidPin)
         else
           entries ← query (select_entries (c_id contest));
           mret (RAdminEntries entries)
     end)
    "Failed to fetch entries".

End Admin.

(** ** Notions the properties are stated with *)

(** How many votes of rank [r] an entry received, over all voters. *)
Definition votes_of_rank (entry_id : Z) (r : Num) (db : DB) : nat :=
  length (List.filter (fun v => bool_decide (v_entry_id v = entry_id)
                                && bool_decide (v_rank v = r)) (votes db)).

(** The score as the scoring rule words it: 3 points for each rank-1 vote,
    2 for each rank-2 vote, 1 for each rank-3 vote. *)
Definition points_score (entry_id : Z) (db : DB) : Z :=
  3 * Z.of_nat (votes_of_rank entry_id 1 db)
  + 2 * Z.of_nat (votes_of_rank entry_id 2 db)
  + 1 * Z.of_nat (votes_of_rank entry_id 3 db).

(** The points the loop adds for one grouped row of rank [r]. *)
Definition rank_points (r : Num) : Z :=
  if bool_decide (r = 1) then 3
  else if bool_decide (r = 2) then 2
  else if bool_decide (r = 3) then 1
  else 0.

(** 1 when rank [r] is among the ranks [l], else 0. *)
Definition present (r : Num) (l : list Num) : Z := if bool_decide (r ∈ l) then 1 else 0.

(** What the handler's loop adds up: 3, 2 and 1 once for each rank that
    occurs among the votes of the entry. *)
Definition occurs (n : nat) : Z := if (0 <? n)%nat then 1 else 0.

Definition ranks_score (entry_id : Z) (db : DB) : Z :=
  3 * occurs (votes_of_rank entry_id 1 db)
  + 2 * occurs (votes_of_rank entry_id 2 db)
  + 1 * occurs (votes_of_rank entry_id 3 db).

(** The entries of a contest, as the table holds them. *)
Definition contest_entries (contest_id : Z) (db : DB) : list Entry :=
  List.filter (fun e => bool_decide (e_contest_id e = contest_id)) (entries db).

(** An entry with its submitter name taken out. *)
Definition anonymous (e : Entry) : EntryView :=
  Anonymous (e_id e) (e_contest_id e) (e_image_filename e) (e_created_at e).

(** A rank that is one of the three places. *)
Definition rank_valid (r : Num) : Prop := r = 1 \/ r = 2 \/ r = 3.

(** A rank the range test and the CHECK of the column let through. *)
Definition rank_in_range (r : Num) : Prop := num_le 1 r = true /\ num_le r 3 = true.

Definition in_contest (contest_id : Z) (db : DB) (id : Z) : Prop :=
  exists e, In e (entries db) /\ e_id e = id /\ e_contest_id e = contest_id.

(** The number of a vote names an entry of the contest. *)
Definition names_entry (contest_id : Z) (db : DB) (id : Num) : Prop :=
  match id with
  | Whole id => in_contest contest_id db id
  | Frac _ _ => False
  end.

(** The defect of a ballot that each validation error stands for. *)
Definition violates (contest_id : Z) (db : DB) (votes : list BallotItem) (e : ApiError)
  : Prop :=
  match e with
  | TooManySelections => (3 < length votes)%nat
  | InvalidRank => Exists (fun v => ~ rank_valid (rank v)) votes
  | DuplicateRank => ~ NoDup (map rank votes)
  | DuplicateEntry => ~ NoDup (map entryId votes)
  | UnknownEntry => Exists (fun v => ~ names_entry contest_id db (entryId v)) votes
  | _ => False
  end.

(** A ballot with none of the defects. *)
Definition well_formed (contest_id : Z) (db : DB) (votes : list BallotItem) : Prop :=
  (length votes <= 3)%nat
  /\ Forall (fun v => rank_valid (rank v)) votes
  /\ NoDup (map rank votes)
  /\ NoDup (map entryId votes)
  /\ Forall (fun v => names_entry contest_id db (entryId v)) votes.


(** The defect each validation error stands for in the terms of the loop,
    whose rank test is a test of the range. *)
Definition rejects (contest_id : Z) (db : DB) (votes : list BallotItem) (e : ApiError)
  : Prop :=
  match e with
  | InvalidRank => Exists (fun v => ~ rank_in_range (rank v)) votes
  | e => violates contest_id db votes e
  end.

(** A ballot the handler lets through. *)
Definition passes (contest_id : Z) (db : DB) (votes : list BallotItem) : Prop :=
  (length votes <= 3)%nat
  /\ Forall (fun v => rank_in_range (rank v)) votes
  /\ NoDup (map rank votes)
  /\ NoDup (map entryId votes)
  /\ Forall (fun v => names_entry contest_id db (entryId v)) votes.

(** Two entries that agree on everything but the submitter name. *)
Definition same_but_name (e1 e2 : Entry) : Prop := anonymous e1 = anonymous e2.

(** The database once the phase of the contest has been resolved. *)
Definition resolved (now : Z) (slug : string) (db : DB) : DB :=
  (getContestWithPhase now slug db).2.

(** A handler resolves the phase first when it answers, and leaves the
    database, as it would on a database whose phase had just been resolved,
    and the contests table it leaves is the resolved one. *)
Definition resolves_phase_first (handler : Z -> string -> DB -> Response * DB) : Prop :=
  forall now slug db,
    handler now slug db = handler now slug (resolved now slug db)
    /\ contests (handler now slug db).2 = contests (resolved now slug db).

(** ** A small database for worked examples

    One contest with submission deadline 100 and voting deadline 200, three
    entries, and the ballots of four voters. *)

Definition pumpkins : Contest :=
  mkContest 1 "pumpkins" "Pumpkins" "" "pin-hash" 100 200 submission 0.

Definition entryA : Entry := mkEntry 1 1 "Ann" "a.png" 10.
Definition entryB : Entry := mkEntry 2 1 "Bob" "b.png" 20.
Definition entryC : Entry := mkEntry 3 1 "Cy" "c.png" 30.

Definition db_submission : DB := mkDB [pumpkins] [entryA; entryB; entryC] [] 3 0.

Definition db_voting : DB :=
  mkDB [set_current_phase voting pumpkins] [entryA; entryB; entryC] [] 3 0.

(** voter1 ranks A first and B second, voter2 and voter3 rank A first,
    voter4 ranks B first. *)
Definition db_results : DB :=
  mkDB [set_current_phase results pumpkins] [entryA; entryB; entryC]
       [ mkVote 1 1 "voter1" 1 1 150; mkVote 2 1 "voter1" 2 2 150;
         mkVote 3 1 "voter2" 1 1 160;
         mkVote 4 1 "voter3" 1 1 170;
         mkVote 5 1 "voter4" 2 1 180 ]
       3 5.

(** The ballots of the tally example: voter1 ranks A, B, C first to third,
    voter2 ranks B first and A second. *)
Definition db_tie : DB :=
  mkDB [set_current_phase results pumpkins] [entryA; entryB; entryC]
       [ mkVote 1 1 "voter1" 1 1 150; mkVote 2 1 "voter1" 2 2 150;
         mkVote 3 1 "voter1" 3 3 150;
         mkVote 4 1 "voter2" 2 1 160; mkVote 5 1 "voter2" 1 2 160 ]
       3 5.

(** The voting phase with the ballots of two voters already stored. *)
Definition db_voted : DB :=
  mkDB [set_current_phase voting pumpkins] [entryA; entryB; entryC]
       [ mkVote 1 1 "voter1" 1 1 150; mkVote 2 1 "voter1" 2 2 150;
         mkVote 3 1 "voter2" 1 1 160 ]
       3 3.

(** ** Contest creation and the contest list *)

(** The candidate [`${baseSlug}-${counter}`]. *)
Definition numbered_slug (baseSlug : string) (counter : nat) : string :=
  baseSlug +:+ "-" +:+ pretty counter.

(** The [while] loop of [generateUniqueSlug], cut off after [fuel] tests of
    [existingSlugs.has(newSlug)]. *)
Fixpoint next_free_slug (fuel : nat) (existingSlugs : gset string) (baseSlug : string)
    (counter : nat) : option string :=
  match fuel with
  | O => None
  | S fuel' =>
      let newSlug := numbered_slug baseSlug counter in
      if bool_decide (newSlug ∈ existingSlugs)
      then next_free_slug fuel' existingSlugs baseSlug (S counter)
      else Some newSlug
  end.

(** The answers of [POST /api/contests]. *)
Inductive CreateContestResponse :=
| CreateMissingFields
| CreatePinTooShort
| CreateDeadlineOrder
| ContestCreated (c : option ContestView)
| CreateFailed.

Definition create_status (r : CreateContestResponse) : Z :=
  match r with
  | ContestCreated _ => 201
  | CreateFailed => 500
  | _ => 400
  end.

Definition create_message (r : CreateContestResponse) : string :=
  match r with
  | CreateMissingFields => "Missing required fields"
  | CreatePinTooShort => "Admin PIN must be at least 4 characters"
  | CreateDeadlineOrder => "Voting deadline must be after submission deadline"
  | CreateFailed => "Failed to create contest"
  | ContestCreated _ => ""
  end.

(** [INSERT INTO contests (slug, name, description, admin_pin_hash,
    submission_deadline, voting_deadline) VALUES (...)] under [UNIQUE(slug)];
    the phase column takes its default and [created_at] the clock.  No
    handler deletes a contest, so the AUTOINCREMENT counter of the table is
    the largest id in it. *)
Definition insert_contest (slug name description pinHash : string)
    (submissionDeadline votingDeadline now : Z) : Sql Z :=
  fun db =>
    if existsb (fun c => bool_decide (c_slug c = slug)) (contests db)
    then (Thrown, db)
    else
      let id := next_rowid 0 (map c_id (contests db)) in
      (Done id,
       with_contests
         (contests db
          ++ [mkContest id slug name description pinHash submissionDeadline votingDeadline
                        submission (now `div` 1000)])
         db).

Section Contests.

(** [slugify(name, { lower: true, strict: true })], the match of
    [slug LIKE `${baseSlug}%`] and SHA-256 in hex. *)
Variable slugify : string -> string.
Variable sql_like_prefix : string -> string -> bool.
Variable sha256_hex : string -> string.

(** [SELECT slug FROM contests WHERE slug LIKE ?] with [`${baseSlug}%`]. *)
Definition select_slugs_like (baseSlug : string) (db : DB) : list string :=
  List.filter (sql_like_prefix baseSlug) (map c_slug (contests db)).

(** [generateUniqueSlug(name)].  The loop is given one test more than there
    are matching slugs; [None] stands for a loop still running after that. *)
Definition generateUniqueSlug (name : string) (db : DB) : option string :=
  let baseSlug := slugify name in
  let existing := select_slugs_like baseSlug db in
  if bool_decide (length existing = 0%nat) then Some baseSlug
  else next_free_slug (S (length existing)) (list_to_set existing) baseSlug 1.

(** [POST /api/contests].  A field is [None] when the body leaves it out;
    an empty string counts as left out.  A deadline that is sent is a date.
    A text that is no date is outside this model: [new Date] makes an
    invalid date of it, every comparison with one is false, and the order
    test lets it through. *)
Definition createContest (name description adminPin : option string)
    (submissionDeadline votingDeadline : option Z) (now : Z)
  : DB -> CreateContestResponse * DB :=
  fun db =>
    match name, adminPin, submissionDeadline, votingDeadline with
    | Some name, Some adminPin, Some subDeadline, Some voteDeadline =>
        if bool_decide (name = "") || bool_decide (adminPin = "")
        then (CreateMissingFields, db)
        else if (String.length adminPin <? 4)%nat then (CreatePinTooShort, db)
        else if subDeadline >=? voteDeadline then (CreateDeadlineOrder, db)
        else
          match generateUniqueSlug name db with
          | None => (CreateFailed, db)
          | Some slug =>
              match insert_contest slug name (default "" description) (sha256_hex adminPin)
                                   subDeadline voteDeadline now db with
              | (Done id, db') =>
                  (ContestCreated ((fun c => contest_view c None)
                                     <$> select_contest_by_id id db'), db')
              | (Thrown, db') => (CreateFailed, db')
              end
          end
    | _, _, _, _ => (CreateMissingFields, db)
    end.

End Contests.

(** The rows of [SELECT c.*, COUNT(e.id) as entry_count FROM contests c
    LEFT JOIN entries e ON c.id = e.contest_id GROUP BY c.id
    ORDER BY c.created_at DESC]; ids are the primary key, so every contest
    is a group of its own. *)
Definition select_contests_with_counts (db : DB) : list (Contest * nat) :=
  map (fun c => (c, count_entries (c_id c) db))
      (js_sort (fun a b => c_created_at b - c_created_at a) (contests db)).

(** [contests.map(c => updateContestPhase(c))] over the rows read before
    the first update. *)
Fixpoint update_phases (now : Z) (rows : list (Contest * nat)) (db : DB)
  : list ContestView * DB :=
  match rows with
  | [] => ([], db)
  | (c, n) :: rest =>
      let '(updated, db1) := updateContestPhase now c db in
      let '(views, db2) := update_phases now rest db1 in
      (contest_view updated (Some n) :: views, db2)
  end.

(** [GET /api/contests]. *)
Definition listContests (now : Z) (db : DB) : list ContestView * DB :=
  update_phases now (select_contests_with_counts db) db.

(** ** The client: ballot editing, countdown, entry count *)

(** [handleVote(entryId, rank)] of the voting page, on the selected votes. *)
Definition handleVote (entry_id r : Num) (prev : list BallotItem) : list BallotItem :=
  List.filter (fun v => negb (bool_decide (entryId v = entry_id)))
              (List.filter (fun v => negb (bool_decide (rank v = r))) prev)
  ++ [mkBallotItem entry_id r].

(** [removeVote(entryId)]. *)
Definition removeVote (entry_id : Num) (prev : list BallotItem) : list BallotItem :=
  List.filter (fun v => negb (bool_decide (entryId v = entry_id))) prev.

(** [getVoteRank(entryId)]. *)
Definition getVoteRank (entry_id : Num) (selectedVotes : list BallotItem) : option Num :=
  rank <$> List.find (fun v => bool_decide (entryId v = entry_id)) selectedVotes.

(** A click on a rank button or on the remove button of an entry. *)
Inductive Click := Pick (entry_id r : Num) | Unpick (entry_id : Num).

Definition click (selectedVotes : list BallotItem) (c : Click) : list BallotItem :=
  match c with
  | Pick entry_id r => handleVote entry_id r selectedVotes
  | Unpick entry_id => removeVote entry_id selectedVotes
  end.

(** [handleSubmit]: an empty selection is not sent. *)
Definition handleSubmit (voterId : string) (selectedVotes : list BallotItem)
    (now : Z) (slug : string) (db : DB) : option (Response * DB) :=
  if bool_decide (length selectedVotes = 0%nat) then None
  else Some (castVote (Some voterId) (Some selectedVotes) now slug db).

(** What [getTimeRemaining] shows. *)
Inductive Remaining :=
| DaysHours (days hours : Z)
| HoursMinutes (hours minutes : Z)
| Minutes (minutes : Z).

Definition remaining_text (r : Remaining) : string :=
  match r with
  | DaysHours d h => pretty d +:+ "d " +:+ pretty h +:+ "h remaining"
  | HoursMinutes h m => pretty h +:+ "h " +:+ pretty m +:+ "m remaining"
  | Minutes m => pretty m +:+ "m remaining"
  end.

(** [getTimeRemaining(deadline)] at instant [now], in milliseconds. *)
Definition getTimeRemaining (now deadline : Z) : option Remaining :=
  let diff := deadline - now in
  if diff <=? 0 then None
  else
    let days := diff `div` (1000 * 60 * 60 * 24) in
    let hours := (diff `mod` (1000 * 60 * 60 * 24)) `div` (1000 * 60 * 60) in
    let minutes := (diff `mod` (1000 * 60 * 60)) `div` (1000 * 60) in
    if 0 <? days then Some (DaysHours days hours)
    else if 0 <? hours then Some (HoursMinutes hours minutes)
    else Some (Minutes minutes).

(** The deadline the countdown of the contest page runs to. *)
Definition countdown_deadline (contest : ContestView) : option Z :=
  match cv_current_phase contest with
  | submission => Some (cv_submission_deadline contest)
  | voting => Some (cv_voting_deadline contest)
  | results => None
  end.

(** Does [updateTimer] call [loadData]?  It does when there is a deadline
    and nothing remains. *)
Definition timer_reloads (now : Z) (contest : ContestView) : bool :=
  match countdown_deadline contest with
  | Some deadline => bool_decide (getTimeRemaining now deadline = None)
  | None => false
  end.

(** [entriesData.entryCount ?? entriesData.entries.length]. *)
Definition shown_entry_count (entriesData : EntriesPayload) : nat :=
  default (length (p_entries entriesData)) (p_entryCount entriesData).

(** ** Invariants of the database *)

(** Every contest has its voting deadline after its submission deadline. *)
Definition deadlines_ordered (db : DB) : Prop :=
  Forall (fun c => c_submission_deadline c < c_voting_deadline c) (contests db).

(** Every vote is for an entry that exists, in the contest of the vote. *)
Definition votes_refer_to_entries (db : DB) : Prop :=
  Forall (fun v => in_contest (v_contest_id v) db (v_entry_id v)) (votes db).

(** A ballot of at most 3 votes with ranks in the range from 1 to 3, no
    rank twice and no entry twice. *)
Definition ballot_ok (ballot : list BallotItem) : Prop :=
  (length ballot <= 3)%nat
  /\ Forall (fun v => rank_in_range (rank v)) ballot
  /\ NoDup (map rank ballot)
  /\ NoDup (map entryId ballot).

(** The stored ballot of every voter in every contest is such a ballot. *)
Definition ballots_well_formed (db : DB) : Prop :=
  forall contest_id voter, ballot_ok (select_voter_votes contest_id voter db).

(** A selection with ranks from {1,2,3}, no rank twice and no entry twice. *)
Definition selection_ok (selectedVotes : list BallotItem) : Prop :=
  Forall (fun v => rank_valid (rank v)) selectedVotes
  /\ NoDup (map rank selectedVotes)
  /\ NoDup (map entryId selectedVotes).

(** Two contests made from the same name. *)
Definition pumpkins_again : Contest :=
  mkContest 2 "pumpkins-1" "Pumpkins" "" "pin-hash" 100 200 submission 5.

Definition db_two_contests : DB :=
  mkDB [pumpkins; pumpkins_again] [entryA; entryB; entryC] [] 3 0.

(** SQLite's [LOWER]: the letters A to Z become a to z, every other byte
    stays.  A simple [trim]: blanks, tabs and line ends go from both ends.
    The entry handler is stated for any two such functions; these two serve
    the worked examples. *)
Definition lower_char (a : Ascii.ascii) : Ascii.ascii :=
  let n := Ascii.nat_of_ascii a in
  if ((65 <=? n) && (n <=? 90))%nat then Ascii.ascii_of_nat (n + 32) else a.

Fixpoint lower_ascii (s : string) : string :=
  match s with
  | EmptyString => EmptyString
  | String a s' => String (lower_char a) (lower_ascii s')
  end.

Definition is_blank (a : Ascii.ascii) : bool :=
  let n := Ascii.nat_of_ascii a in
  ((n =? 32) || ((9 <=? n) && (n <=? 13)))%nat.

Fixpoint trim_start (s : string) : string :=
  match s with
  | EmptyString => EmptyString
  | String a s' => if is_blank a then trim_start s' else s
  end.

Definition trim_blanks (s : string) : string :=
  String.rev (trim_start (String.rev (trim_start s))).

(** Unfolds the statement monad in a handler body. *)
Ltac unfold_handler :=
  unfold try_catch, mbind, Sql_bind, sql_bind, mret, Sql_ret, sql_ret, query, exec,
    throw, resolve.

(** ** Resolver lemmas *)

Section Resolver.

Lemma set_current_phase_id p c : c_id (set_current_phase p c) = c_id c.
Proof. reflexivity. Qed.

Lemma set_current_phase_same c : set_current_phase (c_current_phase c) c = c.
Proof. by destruct c. Qed.

Lemma newPhase_ge now c : phase_le (c_current_phase c) (newPhase now c).
Proof.
  unfold newPhase, phase_le.
  destruct (c_current_phase c); simpl;
    repeat case_match; simpl; lia.
Qed.

Lemma newPhase_idem now c :
  newPhase now (set_current_phase (newPhase now c) c) = newPhase now c.
Proof.
  unfold newPhase. destruct c as [i s n d h sd vd p t]; simpl.
  destruct p; simpl;
    destruct (sd <=? now) eqn:Hs; destruct (vd <=? now) eqn:Hv; simpl;
    try rewrite Hs; try rewrite Hv; reflexivity.
Qed.

Lemma select_update_current_phase slug p c db :
  select_contest_by_slug slug db = Some c ->
  select_contest_by_slug slug (update_current_phase p (c_id c) db)
  = Some (set_current_phase p c).
Proof.
  unfold select_contest_by_slug, update_current_phase. simpl.
  induction (contests db) as [|x xs IH]; simpl; [done|].
  destruct (bool_decide (c_slug x = slug)) eqn:Hx.
  - intros [= ->]. rewrite (bool_decide_eq_true_2 (c_id c = c_id c) eq_refl). simpl. by rewrite Hx.
  - intros Hf. destruct (bool_decide (c_id x = c_id c)); simpl; rewrite Hx; by apply IH.
Qed.

Lemma getContestWithPhase_found now slug c db :
  select_contest_by_slug slug db = Some c ->
  exists db',
    getContestWithPhase now slug db = (Some (set_current_phase (newPhase now c) c), db')
    /\ select_contest_by_slug slug db' = Some (set_current_phase (newPhase now c) c)
    /\ entries db' = entries db /\ votes db' = votes db
    /\ entries_seq db' = entries_seq db /\ votes_seq db' = votes_seq db.
Proof.
  intros Hsel. unfold getContestWithPhase, updateContestPhase. rewrite Hsel.
  case_bool_decide as Hne.
  - eexists. split; [reflexivity|]. split; [|done].
    by apply select_update_current_phase.
  - rewrite Hne, set_current_phase_same. eauto 10.
Qed.

Lemma getContestWithPhase_missing now slug db :
  select_contest_by_slug slug db = None ->
  getContestWithPhase now slug db = (None, db).
Proof. intros H. unfold getContestWithPhase. by rewrite H. Qed.

End Resolver.

(** ** The phase resolver *)

Section PhaseResolution.

#[local] Instance stored_phase_le_trans : Transitive stored_phase_le.
Proof.
  intros [a|] [b|] [c|]; simpl; try tauto. unfold phase_le. lia.
Qed.

Lemma stored_phase_resolved now slug c db :
  select_contest_by_slug slug db = Some c ->
  select_contest_by_slug slug (resolved now slug db)
  = Some (set_current_phase (newPhase now c) c).
Proof.
  intros Hsel. unfold resolved.
  destruct (getContestWithPhase_found now slug c db Hsel) as (db' & -> & H & _).
  exact H.
Qed.

Lemma phase_trace_sorted slug nows : forall c db,
  select_contest_by_slug slug db = Some c ->
  Sorted stored_phase_le (Some (c_current_phase c) :: phase_trace slug nows db).
Proof.
  induction nows as [|now rest IH]; intros c db Hsel; simpl.
  - repeat constructor.
  - pose proof (stored_phase_resolved now slug c db Hsel) as Hres.
    unfold resolved in Hres.
    constructor.
    + unfold stored_phase at 1. rewrite Hres. simpl.
      apply (IH _ _ Hres).
    + constructor. unfold stored_phase. rewrite Hres. simpl.
      apply newPhase_ge.
Qed.

End PhaseResolution.

(** C5.  Automatic resolution is monotonic in the order
    submission < voting < results: over any sequence of resolutions of a
    contest, whatever the instants they are made at (so in particular at
    non-decreasing instants), the stored phase after each resolution is at
    or after the phase stored before it and after every earlier
    resolution. *)
Theorem resolution_never_regresses slug nows c db :
  select_contest_by_slug slug db = Some c ->
  StronglySorted stored_phase_le (Some (c_current_phase c) :: phase_trace slug nows db).
Proof.
  intros Hsel. apply Sorted_StronglySorted; [apply stored_phase_le_trans|].
  by apply phase_trace_sorted.
Qed.

Lemma resolution_never_regresses_witness :
  select_contest_by_slug "pumpkins" db_submission = Some pumpkins
  /\ phase_trace "pumpkins" [50; 150; 150; 250; 300] db_submission
     = [Some submission; Some voting; Some voting; Some results; Some results]
  /\ StronglySorted stored_phase_le
       (Some (c_current_phase pumpkins)
        :: phase_trace "pumpkins" [50; 150; 150; 250; 300] db_submission).
Proof.
  split; [reflexivity|]. split; [reflexivity|].
  apply (resolution_never_regresses "pumpkins" [50; 150; 150; 250; 300] pumpkins
                                    db_submission).
  reflexivity.
Defined.

(** C6.  A contest stored in submission phase that is resolved at an instant
    at or past both deadlines is set to results by that one resolution: the
    contest the resolver returns and the stored row both carry results. *)
Theorem both_deadlines_passed_jumps_to_results now slug c db :
  select_contest_by_slug slug db = Some c ->
  c_current_phase c = submission ->
  c_submission_deadline c <= now ->
  c_voting_deadline c <= now ->
  exists c' db',
    getContestWithPhase now slug db = (Some c', db')
    /\ c_current_phase c' = results
    /\ stored_phase slug db' = Some results.
Proof.
  intros Hsel Hp Hs Hv.
  destruct (getContestWithPhase_found now slug c db Hsel) as (db' & Hget & Hsel' & _).
  assert (newPhase now c = results) as Hnew.
  { unfold newPhase. rewrite Hp. simpl.
    destruct (Z.leb_spec (c_voting_deadline c) now); [reflexivity | lia]. }
  exists (set_current_phase (newPhase now c) c), db'. split; [exact Hget|].
  split; [by rewrite Hnew|].
  unfold stored_phase. rewrite Hsel'. simpl. by rewrite Hnew.
Qed.

Lemma both_deadlines_passed_jumps_to_results_witness :
  select_contest_by_slug "pumpkins" db_submission = Some pumpkins
  /\ c_current_phase pumpkins = submission
  /\ c_submission_deadline pumpkins <= 200
  /\ c_voting_deadline pumpkins <= 200
  /\ exists c' db',
       getContestWithPhase 200 "pumpkins" db_submission = (Some c', db')
       /\ c_current_phase c' = results
       /\ stored_phase "pumpkins" db' = Some results.
Proof.
  split; [reflexivity|]. split; [reflexivity|].
  split; [simpl; lia|]. split; [simpl; lia|].
  apply (both_deadlines_passed_jumps_to_results 200 "pumpkins" pumpkins db_submission);
    [reflexivity | reflexivity | simpl; lia | simpl; lia].
Defined.

(** ** Sorting lemmas *)

Section Sorting.

Context {A : Type}.
Variable cmp : A -> A -> Z.

Lemma sort_insert_perm x l : sort_insert cmp x l ≡ₚ x :: l.
Proof.
  induction l as [|y l IH]; simpl; [done|].
  destruct (cmp x y <=? 0); [done|].
  rewrite IH. apply Permutation_swap.
Qed.

Lemma js_sort_perm l : js_sort cmp l ≡ₚ l.
Proof.
  induction l as [|x l IH]; simpl; [done|].
  by rewrite sort_insert_perm, IH.
Qed.

Lemma js_sort_length l : length (js_sort cmp l) = length l.
Proof. apply Permutation_length, js_sort_perm. Qed.

(** When the comparator orders any two elements one way or the other,
    the result is sorted: no element is followed directly by one the
    comparator wants strictly earlier. *)
Hypothesis cmp_total : forall a b, cmp a b <= 0 \/ cmp b a <= 0.

Lemma sort_insert_sorted x l :
  Sorted (fun a b => cmp a b <= 0) l ->
  Sorted (fun a b => cmp a b <= 0) (sort_insert cmp x l).
Proof.
  induction l as [|y l IH]; simpl; intros Hs.
  - repeat constructor.
  - destruct (Z.leb_spec (cmp x y) 0) as [Hle|Hgt].
    + constructor; [done|]. by constructor.
    + inversion Hs as [|? ? Hs' Hhd]; subst.
      constructor; [by apply IH|].
      destruct l as [|z l]; simpl.
      * constructor. destruct (cmp_total x y); lia.
      * destruct (cmp x z <=? 0); constructor.
        -- destruct (cmp_total x y); lia.
        -- by inversion Hhd.
Qed.

Lemma js_sort_sorted l : Sorted (fun a b => cmp a b <= 0) (js_sort cmp l).
Proof.
  induction l as [|x l IH]; simpl; [constructor|].
  by apply sort_insert_sorted.
Qed.

End Sorting.

Section SortingRelated.

(** Sorting two lists that are related element by element, with
    comparators that agree on related elements, makes the same moves. *)
Context {A B : Type} (R : A -> B -> Prop).
Variables (cmpA : A -> A -> Z) (cmpB : B -> B -> Z).
Hypothesis cmp_agree :
  forall a a' b b', R a b -> R a' b' -> cmpA a a' = cmpB b b'.

Lemma sort_insert_related x y l1 l2 :
  R x y -> Forall2 R l1 l2 ->
  Forall2 R (sort_insert cmpA x l1) (sort_insert cmpB y l2).
Proof.
  intros Hxy Hl. induction Hl as [|a b l1 l2 Hab Hl IH]; simpl.
  - by repeat constructor.
  - rewrite (cmp_agree x a y b Hxy Hab).
    destruct (cmpB y b <=? 0); repeat constructor; done.
Qed.

Lemma js_sort_related l1 l2 :
  Forall2 R l1 l2 -> Forall2 R (js_sort cmpA l1) (js_sort cmpB l2).
Proof.
  induction 1; simpl; [constructor|]. by apply sort_insert_related.
Qed.

Lemma filter_related (f : A -> bool) (g : B -> bool) l1 l2 :
  (forall a b, R a b -> f a = g b) ->
  Forall2 R l1 l2 -> Forall2 R (List.filter f l1) (List.filter g l2).
Proof.
  intros Hfg. induction 1 as [|a b l1 l2 Hab Hl IH]; simpl; [constructor|].
  rewrite (Hfg a b Hab). destruct (g b); [by constructor | done].
Qed.

End SortingRelated.

(** ** Entry listings *)

Section Listings.

Lemma Forall2_same_but_name l1 l2 :
  map anonymous l1 = map anonymous l2 -> Forall2 same_but_name l1 l2.
Proof.
  revert l2. induction l1 as [|a l1 IH]; intros [|b l2]; simpl; try discriminate.
  - constructor.
  - intros H. constructor; [unfold same_but_name; congruence|].
    apply IH. congruence.
Qed.

Lemma Forall2_length_eq {X Y} (R : X -> Y -> Prop) l1 l2 :
  Forall2 R l1 l2 -> length l1 = length l2.
Proof. induction 1; simpl; congruence. Qed.

Lemma select_entries_perm contest_id db :
  select_entries contest_id db ≡ₚ contest_entries contest_id db.
Proof. apply js_sort_perm. Qed.

Lemma select_entries_length contest_id db :
  length (select_entries contest_id db) = length (contest_entries contest_id db).
Proof. apply js_sort_length. Qed.

Lemma select_entries_same_but_name contest_id db1 db2 :
  Forall2 same_but_name (entries db1) (entries db2) ->
  Forall2 same_but_name (select_entries contest_id db1) (select_entries contest_id db2).
Proof.
  intros H. unfold select_entries. apply js_sort_related.
  - intros a a' b b' [= _ _ _ Hc] [= _ _ _ Hc']. by rewrite Hc, Hc'.
  - apply filter_related; [|done]. intros a b [= _ Hc _ _]. by rewrite Hc.
Qed.

Lemma strip_keyed rand : forall l,
  map strip (imap (fun i e => (e, rand i)) l) = map anonymous l.
Proof.
  intros l. revert rand. induction l as [|e l IH]; intros rand; simpl; [done|].
  f_equal. apply (IH (rand ∘ S)).
Qed.

Lemma shuffled_perm rand l : shuffled rand l ≡ₚ map anonymous l.
Proof.
  unfold shuffled. rewrite <- (strip_keyed rand l).
  apply Permutation_map, js_sort_perm.
Qed.

Lemma shuffled_nameless rand l : Forall (fun v => has_name v = false) (shuffled rand l).
Proof.
  unfold shuffled. apply List.Forall_forall. intros v Hv.
  apply in_map_iff in Hv as (p & <- & _). reflexivity.
Qed.

Lemma keyed_same_but_name rand : forall l1 l2,
  Forall2 same_but_name l1 l2 ->
  Forall2 (fun p q : Entry * Z => same_but_name p.1 q.1 /\ p.2 = q.2)
          (imap (fun i e => (e, rand i)) l1) (imap (fun i e => (e, rand i)) l2).
Proof.
  intros l1 l2 H. revert rand.
  induction H as [|a b l1 l2 Hab Hl IH]; intros rand; simpl; [constructor|].
  constructor; [done|]. apply (IH (rand ∘ S)).
Qed.

Lemma shuffled_same_but_name rand l1 l2 :
  Forall2 same_but_name l1 l2 -> shuffled rand l1 = shuffled rand l2.
Proof.
  intros H. unfold shuffled.
  pose proof (js_sort_related
                (fun p q : Entry * Z => same_but_name p.1 q.1 /\ p.2 = q.2)
                (fun a b => a.2 - b.2) (fun a b => a.2 - b.2)) as Hsort.
  specialize (Hsort ltac:(intros a a' b b' [_ ->] [_ ->]; reflexivity)
                    _ _ (keyed_same_but_name rand l1 l2 H)).
  induction Hsort as [|p q s1 s2 [Hpq _] _ IH]; simpl; [done|].
  f_equal; [exact Hpq | exact IH].
Qed.

Lemma select_entries_resolved now slug contest_id db :
  select_entries contest_id (resolved now slug db) = select_entries contest_id db.
Proof.
  unfold resolved, select_entries.
  destruct (select_contest_by_slug slug db) as [c|] eqn:Hsel.
  - destruct (getContestWithPhase_found now slug c db Hsel) as (db' & Hget & _ & Hent & _).
    rewrite Hget. simpl. by rewrite Hent.
  - by rewrite (getContestWithPhase_missing now slug db Hsel).
Qed.

(** The answer of [listEntries] once the contest is found. *)
Lemma listEntries_found rand now slug c db :
  select_contest_by_slug slug db = Some c ->
  (listEntries rand now slug db).1 =
  REntries
    (match newPhase now c with
     | submission =>
         mkEntriesPayload [] (Some (length (select_entries (c_id c) db))) submission
     | voting => mkEntriesPayload (shuffled rand (select_entries (c_id c) db)) None voting
     | results =>
         mkEntriesPayload
           (map Scored (tally (resolved now slug db) (select_entries (c_id c) db)))
           None results
     end).
Proof.
  intros Hsel.
  pose proof (select_entries_resolved now slug (c_id c) db) as Hent.
  unfold resolved in *.
  destruct (getContestWithPhase_found now slug c db Hsel) as (db' & Hget & _).
  rewrite Hget in Hent. simpl in Hent.
  unfold listEntries. unfold_handler. rewrite Hget. simpl.
  rewrite Hent. by destruct (newPhase now c).
Qed.

End Listings.

(** C7.  While the effective phase of a contest is submission, the public
    entry listing is the payload with an empty entry list, the number of
    entries of the contest as its count, and the phase: it carries no entry
    record, hence no name and no image reference, however many entries
    there are.  The payload is the same for any two databases that hold the
    same contests and equally many entries of the contest. *)
Theorem listEntries_submission_count_only rand now slug c db :
  select_contest_by_slug slug db = Some c ->
  newPhase now c = submission ->
  (listEntries rand now slug db).1
  = REntries (mkEntriesPayload [] (Some (length (contest_entries (c_id c) db))) submission)
  /\ forall db2,
       contests db2 = contests db ->
       length (contest_entries (c_id c) db2) = length (contest_entries (c_id c) db) ->
       (listEntries rand now slug db2).1 = (listEntries rand now slug db).1.
Proof.
  intros Hsel Hph.
  assert (forall d, select_contest_by_slug slug d = Some c ->
            (listEntries rand now slug d).1
            = REntries (mkEntriesPayload [] (Some (length (contest_entries (c_id c) d)))
                                         submission)) as Hany.
  { intros d Hd. rewrite (listEntries_found rand now slug c d Hd), Hph.
    by rewrite select_entries_length. }
  split; [by apply Hany|].
  intros db2 Hc Hlen. rewrite (Hany db Hsel), Hany, ?Hlen; [done|].
  unfold select_contest_by_slug. by rewrite Hc.
Qed.

Lemma listEntries_submission_count_only_witness :
  select_contest_by_slug "pumpkins" db_submission = Some pumpkins
  /\ newPhase 50 pumpkins = submission
  /\ (listEntries (fun _ => 0) 50 "pumpkins" db_submission).1
     = REntries (mkEntriesPayload [] (Some 3%nat) submission).
Proof.
  split; [reflexivity|]. split; [reflexivity|].
  apply (listEntries_submission_count_only (fun _ => 0) 50 "pumpkins" pumpkins db_submission);
    reflexivity.
Defined.

(** C8.  While the effective phase of a contest is voting, the public entry
    listing holds, for every outcome of the random draws, a permutation of
    all the entries of the contest with the submitter name taken out; no
    element has a name field; and two databases whose entries differ only in
    submitter names give the same payload for the same draws, so the same
    set of possible payloads. *)
Theorem listEntries_voting_anonymous rand now slug c db :
  select_contest_by_slug slug db = Some c ->
  newPhase now c = voting ->
  exists payload,
    (listEntries rand now slug db).1 = REntries payload
    /\ p_phase payload = voting
    /\ p_entries payload ≡ₚ map anonymous (contest_entries (c_id c) db)
    /\ Forall (fun v => has_name v = false) (p_entries payload)
    /\ forall db2,
         contests db2 = contests db ->
         map anonymous (entries db2) = map anonymous (entries db) ->
         (listEntries rand now slug db2).1 = REntries payload.
Proof.
  intros Hsel Hph.
  exists (mkEntriesPayload (shuffled rand (select_entries (c_id c) db)) None voting).
  split; [by rewrite (listEntries_found rand now slug c db Hsel), Hph|].
  split; [done|]. simpl. split; [|split].
  - rewrite shuffled_perm. apply Permutation_map, select_entries_perm.
  - apply shuffled_nameless.
  - intros db2 Hc Hanon.
    assert (select_contest_by_slug slug db2 = Some c) as Hsel2
      by (unfold select_contest_by_slug; by rewrite Hc).
    rewrite (listEntries_found rand now slug c db2 Hsel2), Hph.
    do 2 f_equal. apply shuffled_same_but_name, select_entries_same_but_name.
    by apply Forall2_same_but_name.
Qed.

Lemma listEntries_voting_anonymous_witness :
  select_contest_by_slug "pumpkins" db_submission = Some pumpkins
  /\ newPhase 150 pumpkins = voting
  /\ exists payload,
       (listEntries (fun i => 7 - Z.of_nat i) 150 "pumpkins" db_submission).1
       = REntries payload
       /\ p_phase payload = voting
       /\ p_entries payload ≡ₚ map anonymous [entryA; entryB; entryC]
       /\ Forall (fun v => has_name v = false) (p_entries payload)
       /\ forall db2,
            contests db2 = contests db_submission ->
            map anonymous (entries db2) = map anonymous (entries db_submission) ->
            (listEntries (fun i => 7 - Z.of_nat i) 150 "pumpkins" db2).1 = REntries payload.
Proof.
  split; [reflexivity|]. split; [reflexivity|].
  apply (listEntries_voting_anonymous (fun i => 7 - Z.of_nat i) 150 "pumpkins" pumpkins
                                      db_submission);
    reflexivity.
Defined.

(** With draws that decrease, the listing comes out in reverse submission
    order, and without names. *)
Example listEntries_voting_shuffled :
  (listEntries (fun i => 7 - Z.of_nat i) 150 "pumpkins" db_submission).1
  = REntries (mkEntriesPayload
                [Anonymous 3 1 "c.png" 30; Anonymous 2 1 "b.png" 20; Anonymous 1 1 "a.png" 10]
                None voting).
Proof. reflexivity. Qed.

(** ** Ballot validation *)

Section Validation.

Variable contest_id : Z.
Variable db : DB.

Lemma rank_test_spec r : (num_lt r 1 || num_lt 3 r) = false <-> rank_in_range r.
Proof.
  unfold rank_in_range, num_lt, num_le, num_cmp.
  rewrite orb_false_iff, !Z.ltb_ge, !Z.leb_le.
  destruct r as [z|n k]; cbn [numerator denominator]; lia.
Qed.


Lemma rank_valid_in_range r : rank_valid r -> rank_in_range r.
Proof. by intros [-> | [-> | ->]]. Qed.

(** Between the places there are numbers in the range: 1.5 is one. *)
Lemma rank_in_range_not_valid : rank_in_range (Frac 1 1) /\ ~ rank_valid (Frac 1 1).
Proof. split; [done|]. by intros [?|[?|?]]. Qed.

Lemma select_entry_id_some id e :
  select_entry_id id contest_id db = Some e -> names_entry contest_id db id.
Proof.
  destruct id as [id|]; [|done]. simpl.
  unfold select_entry_in_contest. intros H. apply find_some in H as [Hin Hb].
  apply andb_true_iff in Hb as [H1 H2].
  apply bool_decide_eq_true in H1. apply bool_decide_eq_true in H2. by exists e.
Qed.

Lemma select_entry_id_none id :
  select_entry_id id contest_id db = None -> ~ names_entry contest_id db id.
Proof.
  destruct id as [id|]; [|by intros _ []]. simpl.
  unfold select_entry_in_contest. intros H (e & Hin & H1 & H2).
  pose proof (find_none _ _ H e Hin) as Hb. simpl in Hb.
  rewrite !bool_decide_eq_true_2 in Hb by done. discriminate.
Qed.

Lemma select_entry_in_contest_some id e :
  select_entry_in_contest id contest_id db = Some e -> in_contest contest_id db id.
Proof. apply (select_entry_id_some (Whole id)). Qed.

Lemma select_entry_in_contest_none id :
  select_entry_in_contest id contest_id db = None -> ~ in_contest contest_id db id.
Proof. apply (select_entry_id_none (Whole id)). Qed.

(** One turn of the loop, seen from the [Set] it fills. *)
Lemma fresh_step {X} (f : X -> Num) (x : X) (l : list X) (seen : gset Num) :
  NoDup (map f (x :: l)) /\ Forall (fun w => f w ∉ seen) (x :: l)
  <-> (f x ∉ seen)
      /\ NoDup (map f l) /\ Forall (fun w => f w ∉ {[f x]} ∪ seen) l.
Proof.
  simpl. rewrite NoDup_cons, Forall_cons, !List.Forall_forall.
  rewrite list_elem_of_In, in_map_iff. split.
  - intros [[Hx Hnd] [Hs Hl]]. repeat split; try done.
    intros w Hw. specialize (Hl w Hw).
    assert (f w <> f x) by (intros Heq; apply Hx; by exists w).
    rewrite elem_of_union, elem_of_singleton. tauto.
  - intros (Hs & Hnd & Hl). repeat split; try done.
    + intros (w & Heq & Hw). specialize (Hl w Hw).
      rewrite elem_of_union, elem_of_singleton in Hl. tauto.
    + intros w Hw. specialize (Hl w Hw).
      rewrite elem_of_union, elem_of_singleton in Hl. tauto.
Qed.

(** The loop lets a ballot through exactly when every rank is in the range
    from 1 to 3, no rank and no entry is repeated or already in the sets,
    and every entry is an entry of the contest. *)
Lemma validate_votes_none : forall votes ranks entryIds,
  validate_votes contest_id votes ranks entryIds db = None
  <-> Forall (fun v => rank_in_range (rank v)) votes
      /\ (NoDup (map rank votes) /\ Forall (fun v => rank v ∉ ranks) votes)
      /\ (NoDup (map entryId votes) /\ Forall (fun v => entryId v ∉ entryIds) votes)
      /\ Forall (fun v => names_entry contest_id db (entryId v)) votes.
Proof.
  intros votes. induction votes as [|v rest IH]; intros ranks entryIds.
  - simpl. split; [|done]. intros _. repeat split; constructor.
  - rewrite (fresh_step rank), (fresh_step entryId), !Forall_cons.
    simpl. destruct (num_lt (rank v) 1 || num_lt 3 (rank v)) eqn:Hr.
    { split; [done|]. intros [[Hv _] _]. apply rank_test_spec in Hv. congruence. }
    apply rank_test_spec in Hr.
    case_bool_decide as Hrank; [split; [done | tauto]|].
    case_bool_decide as Hentry; [split; [done | tauto]|].
    destruct (select_entry_id (entryId v) contest_id db) as [e|] eqn:Hsel.
    + apply select_entry_id_some in Hsel. rewrite IH. tauto.
    + apply select_entry_id_none in Hsel. split; [done | tauto].
Qed.

(** An error the loop reports names a defect the ballot has. *)
Lemma validate_votes_some : forall votes ranks entryIds e,
  validate_votes contest_id votes ranks entryIds db = Some e ->
  match e with
  | InvalidRank => Exists (fun v => ~ rank_in_range (rank v)) votes
  | DuplicateRank =>
      ~ (NoDup (map rank votes) /\ Forall (fun v => rank v ∉ ranks) votes)
  | DuplicateEntry =>
      ~ (NoDup (map entryId votes) /\ Forall (fun v => entryId v ∉ entryIds) votes)
  | UnknownEntry => Exists (fun v => ~ names_entry contest_id db (entryId v)) votes
  | _ => False
  end.
Proof.
  intros votes. induction votes as [|v rest IH]; intros ranks entryIds e; [done|].
  simpl. destruct (num_lt (rank v) 1 || num_lt 3 (rank v)) eqn:Hr.
  { intros [= <-]. left. intros Hv. apply rank_test_spec in Hv. congruence. }
  case_bool_decide as Hrank.
  { intros [= <-]. intros [_ Hall]. by inversion Hall. }
  case_bool_decide as Hentry.
  { intros [= <-]. intros [_ Hall]. by inversion Hall. }
  destruct (select_entry_id (entryId v) contest_id db) as [x|] eqn:Hsel.
  - intros Hrest. specialize (IH _ _ _ Hrest).
    pose proof (fresh_step rank v rest ranks) as Hfr. simpl in Hfr.
    pose proof (fresh_step entryId v rest entryIds) as Hfe. simpl in Hfe.
    destruct e; try done; try (by right); tauto.
  - intros [= <-]. left. by apply select_entry_id_none.
Qed.

Lemma passes_not_rejects votes e :
  passes contest_id db votes -> ~ rejects contest_id db votes e.
Proof.
  intros (Hlen & Hr & Hnr & Hne & Hin) Hv. destruct e; simpl in Hv; try done.
  - lia.
  - apply List.Exists_exists in Hv as (v & Hv & Hbad).
    rewrite List.Forall_forall in Hr. by apply Hbad, Hr.
  - apply List.Exists_exists in Hv as (v & Hv & Hbad).
    rewrite List.Forall_forall in Hin. by apply Hbad, Hin.
Qed.

Lemma well_formed_passes votes :
  well_formed contest_id db votes -> passes contest_id db votes.
Proof.
  intros (Hlen & Hr & Hrest). split; [done|]. split; [|done].
  eapply Forall_impl; [exact Hr|]. intros v. apply rank_valid_in_range.
Qed.




End Validation.

(** ** Recording a ballot *)

Section Recording.

Variable contest_id : Z.
Variable voter : string.

Lemma voter_rows_app db row vs seq :
  voter_rows contest_id voter (with_votes (votes db ++ [row]) seq vs)
  = voter_rows contest_id voter db
    ++ (if bool_decide (v_contest_id row = contest_id)
           && bool_decide (v_voter_id row = voter)
        then [mkBallotItem (v_entry_id row) (v_rank row)] else []).
Proof.
  unfold voter_rows. simpl. rewrite List.filter_app, map_app. simpl.
  by destruct (bool_decide (v_contest_id row = contest_id)
               && bool_decide (v_voter_id row = voter)).
Qed.

Lemma voter_rows_deleted db :
  voter_rows contest_id voter (delete_voter_votes contest_id voter db) = [].
Proof.
  unfold voter_rows, delete_voter_votes. simpl.
  induction (votes db) as [|v vs IH]; simpl; [done|].
  destruct (bool_decide (v_contest_id v = contest_id) && bool_decide (v_voter_id v = voter))
    eqn:Hv; simpl; [done|]. by rewrite Hv.
Qed.

Lemma select_voter_votes_deleted db :
  select_voter_votes contest_id voter (delete_voter_votes contest_id voter db) = [].
Proof. unfold select_voter_votes. by rewrite voter_rows_deleted. Qed.

(** The ballot read back holds the voter's rows, each once. *)
Lemma select_voter_votes_perm db :
  select_voter_votes contest_id voter db ≡ₚ voter_rows contest_id voter db.
Proof. apply js_sort_perm. Qed.

Lemma taken_rank db r :
  existsb (fun v => bool_decide (v_contest_id v = contest_id)
                    && bool_decide (v_voter_id v = voter)
                    && bool_decide (v_rank v = r)) (votes db) = true ->
  r ∈ map rank (voter_rows contest_id voter db).
Proof.
  intros H. apply existsb_exists in H as (v & Hin & Hb).
  apply andb_true_iff in Hb as [Hcv Hr]. apply bool_decide_eq_true in Hr.
  apply list_elem_of_In, in_map_iff. exists (mkBallotItem (v_entry_id v) (v_rank v)).
  split; [done|]. unfold voter_rows. apply in_map_iff. exists v.
  split; [done|]. by apply filter_In.
Qed.

Lemma taken_entry db (id : Z) :
  existsb (fun v => bool_decide (v_contest_id v = contest_id)
                    && bool_decide (v_voter_id v = voter)
                    && bool_decide (v_entry_id v = id)) (votes db) = true ->
  Whole id ∈ map entryId (voter_rows contest_id voter db).
Proof.
  intros H. apply existsb_exists in H as (v & Hin & Hb).
  apply andb_true_iff in Hb as [Hcv Hr]. apply bool_decide_eq_true in Hr.
  apply list_elem_of_In, in_map_iff. exists (mkBallotItem (v_entry_id v) (v_rank v)).
  split; [by rewrite <- Hr|]. unfold voter_rows. apply in_map_iff. exists v.
  split; [done|]. by apply filter_In.
Qed.

Lemma row_exists {X} (f : X -> Z) (l : list X) id :
  (exists x, In x l /\ f x = id) ->
  existsb (fun x => bool_decide (f x = id)) l = true.
Proof.
  intros (x & Hin & Hx). apply existsb_exists. exists x.
  split; [done|]. by apply bool_decide_eq_true.
Qed.

(** An insert that meets every constraint appends the row. *)
Lemma insert_vote_done (entry_id : Z) r now db :
  rank_in_range r ->
  r ∉ map rank (voter_rows contest_id voter db) ->
  Whole entry_id ∉ map entryId (voter_rows contest_id voter db) ->
  (exists c, In c (contests db) /\ c_id c = contest_id) ->
  (exists e, In e (entries db) /\ e_id e = entry_id) ->
  exists db',
    insert_vote contest_id voter entry_id r now db = (Done tt, db')
    /\ contests db' = contests db /\ entries db' = entries db
    /\ voter_rows contest_id voter db'
       = voter_rows contest_id voter db ++ [mkBallotItem entry_id r].
Proof.
  intros [Hr1 Hr3] Hrank Hentry Hc He. unfold insert_vote.
  rewrite Hr1, Hr3. simpl.
  destruct (existsb _ (votes db)) eqn:H1; [by apply taken_rank in H1|].
  destruct (existsb _ (votes db)) eqn:H2 in |- *; [by apply taken_entry in H2|].
  rewrite (row_exists c_id _ _ Hc), (row_exists e_id _ _ He). simpl.
  eexists. split; [reflexivity|]. split; [done|]. split; [done|].
  rewrite voter_rows_app. simpl.
  by rewrite !bool_decide_eq_true_2.
Qed.

(** The insert loop after a ballot that passed validation: every insert
    goes through and the voter's rows grow by exactly the ballot. *)
Lemma insert_votes_done now : forall ballot db,
  Forall (fun v => rank_in_range (rank v)) ballot ->
  NoDup (map rank (voter_rows contest_id voter db ++ ballot)) ->
  NoDup (map entryId (voter_rows contest_id voter db ++ ballot)) ->
  (exists c, In c (contests db) /\ c_id c = contest_id) ->
  Forall (fun v => exists e, In e (entries db) /\ Whole (e_id e) = entryId v) ballot ->
  exists db',
    insert_votes contest_id voter ballot now db = (Done tt, db')
    /\ contests db' = contests db /\ entries db' = entries db
    /\ voter_rows contest_id voter db'
       = voter_rows contest_id voter db ++ ballot.
Proof.
  intros ballot. induction ballot as [|v rest IH]; intros db Hr Hnr Hne Hc He.
  - exists db. simpl. by rewrite app_nil_r.
  - inversion Hr as [|? ? Hrv Hrr]; subst. inversion He as [|? ? Hev Her]; subst.
    destruct Hev as (e & Hein & Heid).
    rewrite map_app in Hnr, Hne. simpl in Hnr, Hne.
    pose proof Hnr as Hnr'. pose proof Hne as Hne'.
    apply NoDup_app in Hnr' as (_ & Hfr & _). apply NoDup_app in Hne' as (_ & Hfe & _).
    destruct (insert_vote_done (e_id e) (rank v) now db) as (db1 & Hins & Hc1 & He1 & Hsel);
      try done.
    { intros Hin. apply (Hfr _ Hin). left. }
    { rewrite Heid. intros Hin. apply (Hfe _ Hin). left. }
    { by exists e. }
    rewrite Heid in Hins, Hsel.
    destruct (IH db1) as (db2 & Hrest & Hc2 & He2 & Hsel2); try done.
    + rewrite Hsel, <- app_assoc, map_app. exact Hnr.
    + rewrite Hsel, <- app_assoc, map_app. exact Hne.
    + by rewrite Hc1.
    + by rewrite He1.
    + exists db2. simpl. unfold mbind, Sql_bind, sql_bind. rewrite Hins, Hrest.
      split; [done|]. split; [congruence|]. split; [congruence|].
      rewrite Hsel2, Hsel, <- app_assoc. simpl. by destruct v.
Qed.

End Recording.

(** ** The vote handlers *)

Section Votes.

Lemma select_by_slug_contests slug db1 db2 :
  contests db1 = contests db2 ->
  select_contest_by_slug slug db1 = select_contest_by_slug slug db2.
Proof. unfold select_contest_by_slug. by intros ->. Qed.

Lemma validate_votes_entries contest_id db1 db2 :
  entries db1 = entries db2 ->
  forall ballot ranks entryIds,
    validate_votes contest_id ballot ranks entryIds db1
    = validate_votes contest_id ballot ranks entryIds db2.
Proof.
  intros Hent ballot. induction ballot as [|v rest IH]; intros ranks entryIds; [done|].
  simpl. unfold select_entry_id, select_entry_in_contest. rewrite Hent.
  repeat case_match; auto.
Qed.

Lemma voter_rows_votes contest_id voter db1 db2 :
  votes db1 = votes db2 ->
  voter_rows contest_id voter db1 = voter_rows contest_id voter db2.
Proof. unfold voter_rows. by intros ->. Qed.

Lemma select_voter_votes_votes contest_id voter db1 db2 :
  votes db1 = votes db2 ->
  select_voter_votes contest_id voter db1 = select_voter_votes contest_id voter db2.
Proof. unfold select_voter_votes, voter_rows. by intros ->. Qed.

(** The vote handler once the contest is found: the phase gate, the
    request guard, the size test, the loop, then delete and insert. *)
Lemma castVote_found voterId ballot now slug c db :
  select_contest_by_slug slug db = Some c ->
  castVote voterId ballot now slug db =
  let db1 := resolved now slug db in
  if bool_decide (newPhase now c <> voting) then (RError VotingNotOpen, db1)
  else
    match voterId, ballot with
    | Some voterId, Some ballot =>
        if bool_decide (voterId = "") then (RError InvalidVoteData, db1)
        else if (3 <? length ballot)%nat then (RError TooManySelections, db1)
        else
          match validate_votes (c_id c) ballot ∅ ∅ db with
          | Some e => (RError e, db1)
          | None =>
              match insert_votes (c_id c) voterId ballot now
                                 (delete_voter_votes (c_id c) voterId db1) with
              | (Done _, db2) => (RVotesRecorded, db2)
              | (Thrown, db2) => (RError (ServerError "Failed to record votes"), db2)
              end
          end
    | _, _ => (RError InvalidVoteData, db1)
    end.
Proof.
  intros Hsel. unfold resolved.
  destruct (getContestWithPhase_found now slug c db Hsel) as (db1 & Hget & _ & Hent & _).
  unfold castVote. unfold_handler. rewrite Hget. simpl.
  destruct (bool_decide (newPhase now c <> voting)); [done|].
  destruct voterId as [voterId|], ballot as [ballot|]; try done.
  destruct (bool_decide (voterId = "")); [done|].
  destruct (3 <? length ballot)%nat; [done|].
  rewrite (validate_votes_entries (c_id c) db1 db Hent).
  destruct (validate_votes (c_id c) ballot ∅ ∅ db); [done|].
  by destruct (insert_votes _ _ _ _ _) as [[[]|] db2].
Qed.

(** What a submission in voting phase comes to: either the ballot passes
    the tests, every insert goes through and the voter's rows are the
    submitted votes; or the ballot fails a test, the answer is the error
    that stands for it and nothing but the resolved phase was written. *)
Lemma castVote_outcome voterId ballot now slug c db :
  select_contest_by_slug slug db = Some c ->
  newPhase now c = voting ->
  voterId <> "" ->
  (passes (c_id c) db ballot
   /\ exists db2,
        castVote (Some voterId) (Some ballot) now slug db = (RVotesRecorded, db2)
        /\ contests db2 = contests (resolved now slug db)
        /\ voter_rows (c_id c) voterId db2 = ballot)
  \/ (exists e,
        rejects (c_id c) db ballot e
        /\ castVote (Some voterId) (Some ballot) now slug db
           = (RError e, resolved now slug db)).
Proof.
  intros Hsel Hph Hvoter.
  rewrite (castVote_found _ _ now slug c db Hsel). simpl.
  rewrite bool_decide_eq_false_2 by (by rewrite Hph; intros []).
  rewrite bool_decide_eq_false_2 by done.
  destruct (Nat.ltb_spec 3 (length ballot)) as [Hlen|Hlen].
  { right. by exists TooManySelections. }
  destruct (validate_votes (c_id c) ballot ∅ ∅ db) as [e|] eqn:Hval.
  { right. exists e. split; [|done].
    apply validate_votes_some in Hval.
    destruct e; simpl; try done; intros Hnd; apply Hval;
      (split; [done | apply List.Forall_forall; intros; apply not_elem_of_empty]). }
  left. apply validate_votes_none in Hval as (Hr & [Hnr _] & [Hne _] & Hin).
  split; [done|].
  unfold resolved in *.
  destruct (getContestWithPhase_found now slug c db Hsel)
    as (db1 & Hget & Hsel1 & Hent & _).
  rewrite Hget. simpl.
  destruct (insert_votes_done (c_id c) voterId now ballot
              (delete_voter_votes (c_id c) voterId db1))
    as (db2 & Hins & Hc2 & _ & Hsel2).
  - done.
  - by rewrite voter_rows_deleted.
  - by rewrite voter_rows_deleted.
  - unfold select_contest_by_slug in Hsel1. apply find_some in Hsel1 as [Hc1 _].
    by eexists.
  - simpl. rewrite Hent. eapply Forall_impl; [exact Hin|].
    intros v Hv. simpl in Hv. destruct (entryId v) as [id|]; [|destruct Hv].
    destruct Hv as (e & He & Hid & _). exists e. by rewrite Hid.
  - exists db2. rewrite Hins. split; [done|]. split; [done|].
    by rewrite Hsel2, voter_rows_deleted.
Qed.

Lemma castVote_missing voterId ballot now slug db :
  select_contest_by_slug slug db = None ->
  castVote voterId ballot now slug db = (RError ContestNotFound, db).
Proof.
  intros Hsel. unfold castVote. unfold_handler.
  by rewrite (getContestWithPhase_missing now slug db Hsel).
Qed.

(** The ballot handler once the contest is found. *)
Lemma getVoterBallot_found voterId now slug c db :
  select_contest_by_slug slug db = Some c ->
  getVoterBallot voterId now slug db
  = (RBallot (select_voter_votes (c_id c) voterId db), resolved now slug db).
Proof.
  intros Hsel. unfold resolved.
  destruct (getContestWithPhase_found now slug c db Hsel) as (db1 & Hget & _ & _ & Hv & _).
  unfold getVoterBallot. unfold_handler. rewrite Hget. simpl.
  by rewrite (select_voter_votes_votes _ _ db1 db Hv).
Qed.

End Votes.




(** The ballot of the witness has no defect and is recorded. *)
Example two_choices_recorded :
  castVote (Some "voter1") (Some [mkBallotItem 2 1; mkBallotItem 3 2]) 150 "pumpkins"
           db_voting
  = (RVotesRecorded,
     mkDB [set_current_phase voting pumpkins] [entryA; entryB; entryC]
          [mkVote 1 1 "voter1" 2 1 0; mkVote 2 1 "voter1" 3 2 0] 3 2).
Proof. vm_compute. reflexivity. Qed.

(** The three rejections of the testable properties. *)
Example duplicate_rank_rejected :
  (castVote (Some "voter1") (Some [mkBallotItem 1 1; mkBallotItem 2 1]) 150 "pumpkins"
            db_voting).1 = RError DuplicateRank.
Proof. vm_compute. reflexivity. Qed.

Example four_selections_rejected :
  (castVote (Some "voter1")
            (Some [mkBallotItem 1 1; mkBallotItem 2 2; mkBallotItem 3 3; mkBallotItem 4 1])
            150 "pumpkins" db_voting).1 = RError TooManySelections.
Proof. vm_compute. reflexivity. Qed.

Example same_entry_twice_rejected :
  (castVote (Some "voter1") (Some [mkBallotItem 1 1; mkBallotItem 1 2]) 150 "pumpkins"
            db_voting).1 = RError DuplicateEntry.
Proof. vm_compute. reflexivity. Qed.

(** C4.  After a successful vote submission the voter's stored ballot
    holds exactly the submitted (entry, rank) pairs, each once, whatever
    ballot the voter had before, and every later [getVoterBallot] of that
    voter returns these pairs and no other.  The order they are returned in
    is the order of the entry ids, not the order they were sent in. *)
Theorem castVote_replaces_ballot voterId ballot now slug db db' :
  castVote (Some voterId) (Some ballot) now slug db = (RVotesRecorded, db') ->
  exists c,
    select_contest_by_slug slug db = Some c
    /\ select_voter_votes (c_id c) voterId db' ≡ₚ ballot
    /\ forall now', exists stored,
         (getVoterBallot voterId now' slug db').1 = RBallot stored /\ stored ≡ₚ ballot.
Proof.
  intros Hcast.
  destruct (select_contest_by_slug slug db) as [c|] eqn:Hsel; cycle 1.
  { rewrite (castVote_missing _ _ now slug db Hsel) in Hcast. discriminate. }
  pose proof (castVote_found (Some voterId) (Some ballot) now slug c db Hsel) as Hfound.
  simpl in Hfound.
  destruct (decide (newPhase now c = voting)) as [Hph|Hph]; cycle 1.
  { rewrite bool_decide_eq_true_2 in Hfound by done. congruence. }
  destruct (decide (voterId = "")) as [Hv|Hv].
  { rewrite bool_decide_eq_false_2 in Hfound by (by intros []).
    rewrite bool_decide_eq_true_2 in Hfound by done. congruence. }
  clear Hfound. exists c. split; [done|].
  destruct (castVote_outcome voterId ballot now slug c db Hsel Hph Hv)
    as [(_ & db2 & Hok & Hc2 & Hstored) | (e & _ & Hbad)]; [|congruence].
  assert (db2 = db') as -> by congruence.
  assert (select_voter_votes (c_id c) voterId db' ≡ₚ ballot) as Hperm
    by (by rewrite select_voter_votes_perm, Hstored).
  split; [done|]. intros now'.
  assert (select_contest_by_slug slug db' = Some (set_current_phase (newPhase now c) c))
    as Hsel'.
  { rewrite (select_by_slug_contests slug db' (resolved now slug db) Hc2).
    by apply stored_phase_resolved. }
  rewrite (getVoterBallot_found voterId now' slug _ db' Hsel'). simpl.
  by eexists.
Qed.

Lemma castVote_replaces_ballot_witness :
  castVote (Some "voter1") (Some [mkBallotItem 3 1; mkBallotItem 1 2]) 170 "pumpkins"
           db_voted
  = (RVotesRecorded,
     (castVote (Some "voter1") (Some [mkBallotItem 3 1; mkBallotItem 1 2]) 170 "pumpkins"
               db_voted).2)
  /\ exists c,
       select_contest_by_slug "pumpkins" db_voted = Some c
       /\ select_voter_votes (c_id c) "voter1"
            (castVote (Some "voter1") (Some [mkBallotItem 3 1; mkBallotItem 1 2]) 170
                      "pumpkins" db_voted).2
          ≡ₚ [mkBallotItem 3 1; mkBallotItem 1 2]
       /\ forall now', exists stored,
            (getVoterBallot "voter1" now' "pumpkins"
               (castVote (Some "voter1") (Some [mkBallotItem 3 1; mkBallotItem 1 2]) 170
                         "pumpkins" db_voted).2).1
            = RBallot stored
            /\ stored ≡ₚ [mkBallotItem 3 1; mkBallotItem 1 2].
Proof.
  split; [vm_compute; reflexivity|].
  apply (castVote_replaces_ballot "voter1" [mkBallotItem 3 1; mkBallotItem 1 2] 170
                                  "pumpkins" db_voted).
  vm_compute. reflexivity.
Defined.

(** The ballot of the witness is read back by entry id. *)
Example ballot_read_back_by_entry_id :
  (getVoterBallot "voter1" 180 "pumpkins"
     (castVote (Some "voter1") (Some [mkBallotItem 3 1; mkBallotItem 1 2]) 170 "pumpkins"
               db_voted).2).1
  = RBallot [mkBallotItem 1 2; mkBallotItem 3 1].
Proof. vm_compute. reflexivity. Qed.

(** voter1's two earlier votes are gone, voter2's vote stays. *)
Example second_ballot_replaces_first :
  votes (castVote (Some "voter1") (Some [mkBallotItem 3 1]) 170 "pumpkins" db_voted).2
  = [mkVote 3 1 "voter2" 1 1 160; mkVote 4 1 "voter1" 3 1 0].
Proof. vm_compute. reflexivity. Qed.

(** C10.  In voting phase a submission with an empty vote list, by a voter
    who gives an identifier, passes every ballot check and is answered with
    success; it deletes every vote the voter had in the contest, inserts
    nothing and leaves all other votes, so a later [getVoterBallot] of that
    voter returns the empty list. *)
Theorem empty_ballot_clears_votes voterId now slug c db :
  select_contest_by_slug slug db = Some c ->
  newPhase now c = voting ->
  voterId <> "" ->
  exists db',
    castVote (Some voterId) (Some []) now slug db = (RVotesRecorded, db')
    /\ votes db'
       = List.filter (fun v => negb (bool_decide (v_contest_id v = c_id c)
                                    && bool_decide (v_voter_id v = voterId)))
                     (votes db)
    /\ forall now', (getVoterBallot voterId now' slug db').1 = RBallot [].
Proof.
  intros Hsel Hph Hvoter.
  rewrite (castVote_found _ _ now slug c db Hsel). simpl.
  rewrite bool_decide_eq_false_2 by (by rewrite Hph; intros []).
  rewrite bool_decide_eq_false_2 by done.
  unfold mret, Sql_ret, sql_ret.
  eexists. split; [reflexivity|].
  pose proof (stored_phase_resolved now slug c db Hsel) as Hsel'.
  unfold resolved in *.
  destruct (getContestWithPhase_found now slug c db Hsel) as (db1 & Hget & _ & _ & Hv & _).
  rewrite Hget in *. simpl in *. split; [by rewrite Hv|].
  intros now'.
  rewrite (getVoterBallot_found voterId now' slug
             (set_current_phase (newPhase now c) c)
             (delete_voter_votes (c_id c) voterId db1)) by exact Hsel'.
  simpl. by rewrite select_voter_votes_deleted.
Qed.

Lemma empty_ballot_clears_votes_witness :
  select_contest_by_slug "pumpkins" db_voted = Some (set_current_phase voting pumpkins)
  /\ newPhase 170 (set_current_phase voting pumpkins) = voting
  /\ "voter1" <> ""
  /\ exists db',
       castVote (Some "voter1") (Some []) 170 "pumpkins" db_voted = (RVotesRecorded, db')
       /\ votes db' = [mkVote 3 1 "voter2" 1 1 160]
       /\ forall now', (getVoterBallot "voter1" now' "pumpkins" db').1 = RBallot [].
Proof.
  split; [reflexivity|]. split; [reflexivity|]. split; [discriminate|].
  apply (empty_ballot_clears_votes "voter1" 170 "pumpkins"
                                   (set_current_phase voting pumpkins) db_voted);
    [reflexivity | reflexivity | discriminate].
Defined.

(** ** Resolution on the read paths *)

Section ReadPaths.

Lemma getContestWithPhase_resolved now slug db :
  getContestWithPhase now slug (resolved now slug db) = getContestWithPhase now slug db.
Proof.
  unfold resolved.
  destruct (select_contest_by_slug slug db) as [c|] eqn:Hsel.
  - destruct (getContestWithPhase_found now slug c db Hsel) as (db1 & Hget & Hsel1 & _).
    rewrite Hget. simpl.
    unfold getContestWithPhase, updateContestPhase. rewrite Hsel1.
    rewrite newPhase_idem. simpl.
    rewrite bool_decide_eq_false_2; [reflexivity | intros H; apply H; reflexivity].
  - rewrite (getContestWithPhase_missing now slug db Hsel). simpl.
    by rewrite (getContestWithPhase_missing now slug db Hsel).
Qed.

(** A handler that starts with [getContestWithPhase] answers on a database
    as on the same database with the phase already resolved. *)
Lemma resolving_handler (body : Z -> string -> option Contest -> Sql Response) msg
    now slug db :
  try_catch (contest ← resolve now slug; body now slug contest) msg db
  = try_catch (contest ← resolve now slug; body now slug contest) msg
              (resolved now slug db).
Proof.
  unfold_handler. by rewrite getContestWithPhase_resolved.
Qed.

Lemma insert_vote_contests contest_id voter entry_id r now db :
  contests (insert_vote contest_id voter entry_id r now db).2 = contests db.
Proof. unfold insert_vote. by repeat case_match. Qed.

Lemma insert_votes_contests contest_id voter now : forall ballot db,
  contests (insert_votes contest_id voter ballot now db).2 = contests db.
Proof.
  intros ballot. induction ballot as [|v rest IH]; intros db; [done|].
  simpl. unfold mbind, Sql_bind, sql_bind.
  pose proof (insert_vote_contests contest_id voter (entryId v) (rank v) now db) as H1.
  destruct (insert_vote _ _ _ _ _ db) as [[[]|] db1]; simpl in *; [|done].
  by rewrite IH.
Qed.

Lemma insert_entry_contests contest_id name file now db :
  contests (insert_entry contest_id name file now db).2 = contests db.
Proof. unfold insert_entry. by repeat case_match. Qed.

Lemma getContest_contests now slug db :
  contests (getContest now slug db).2 = contests (resolved now slug db).
Proof.
  unfold getContest, resolved. unfold_handler.
  destruct (getContestWithPhase now slug db) as [[c|] db1]; done.
Qed.

Lemma listEntries_contests rand now slug db :
  contests (listEntries rand now slug db).2 = contests (resolved now slug db).
Proof.
  unfold listEntries, resolved. unfold_handler.
  destruct (getContestWithPhase now slug db) as [[c|] db1]; [|done].
  by destruct (c_current_phase c).
Qed.

Lemma getVoterBallot_contests voterId now slug db :
  contests (getVoterBallot voterId now slug db).2 = contests (resolved now slug db).
Proof.
  unfold getVoterBallot, resolved. unfold_handler.
  destruct (getContestWithPhase now slug db) as [[c|] db1]; done.
Qed.

Lemma castVote_contests voterId ballot now slug db :
  contests (castVote voterId ballot now slug db).2 = contests (resolved now slug db).
Proof.
  destruct (select_contest_by_slug slug db) as [c|] eqn:Hsel.
  - rewrite (castVote_found voterId ballot now slug c db Hsel). simpl.
    repeat case_match; simpl; try done.
    all: match goal with
         | H : insert_votes ?c ?v ?b ?n ?d = (_, ?d2) |- contests ?d2 = _ =>
             pose proof (insert_votes_contests c v n b d) as Hc;
             rewrite H in Hc; exact Hc
         end.
  - rewrite (castVote_missing voterId ballot now slug db Hsel).
    unfold resolved. by rewrite (getContestWithPhase_missing now slug db Hsel).
Qed.

Lemma createEntry_contests sql_lower js_trim name file now slug db :
  contests (createEntry sql_lower js_trim name file now slug db).2
  = contests (resolved now slug db).
Proof.
  unfold createEntry, resolved. unfold_handler.
  destruct (getContestWithPhase now slug db) as [[c|] db1]; [|done]. simpl.
  destruct (bool_decide (c_current_phase c <> submission)); [done|].
  destruct name as [name|], file as [file|]; try done.
  destruct (bool_decide (name = "")); [done|].
  destruct (select_entry_by_name sql_lower (c_id c) name db1); [done|].
  pose proof (insert_entry_contests (c_id c) (js_trim name) file now db1) as Hc.
  by destruct (insert_entry _ _ _ _ db1) as [[id|] db2].
Qed.

End ReadPaths.

(** C3, as the code has it.  Each of the five public operations that read a
    contest (getContest, listEntries, createEntry, castVote, getVoterBallot)
    first recomputes the phase with the resolver: it answers, and writes, as
    it would on the database whose phase had just been resolved, and the
    contests table it leaves holds the resolved phase. *)
Theorem public_handlers_resolve_phase_first :
  resolves_phase_first getContest
  /\ (forall rand, resolves_phase_first (listEntries rand))
  /\ (forall sql_lower js_trim name file,
        resolves_phase_first (createEntry sql_lower js_trim name file))
  /\ (forall voterId ballot, resolves_phase_first (castVote voterId ballot))
  /\ (forall voterId, resolves_phase_first (getVoterBallot voterId)).
Proof.
  repeat split.
  - apply (resolving_handler (fun _ _ contest => _)).
  - apply getContest_contests.
  - apply (resolving_handler (fun _ _ contest => _)).
  - apply listEntries_contests.
  - apply (resolving_handler (fun now _ contest => _)).
  - apply createEntry_contests.
  - apply (resolving_handler (fun now _ contest => _)).
  - apply castVote_contests.
  - apply (resolving_handler (fun _ _ contest => _)).
  - apply getVoterBallot_contests.
Qed.

(** C3, as stated, fails on the admin operations: they read the stored row
    without the resolver.  At instant 150, past the submission deadline 100,
    the admin update of a contest stored in submission phase answers with
    phase submission, where the public read answers voting. *)
Lemma admin_update_reads_stored_phase :
  (adminUpdate (fun pin => pin) (Some "pin-hash") None None None "pumpkins" db_submission).1
  = RContest (contest_view pumpkins None)
  /\ (getContest 150 "pumpkins" db_submission).1
     = RContest (contest_view (set_current_phase voting pumpkins) (Some 3%nat))
  /\ ~ resolves_phase_first
       (fun _ slug => adminUpdate (fun pin => pin) (Some "pin-hash") None None None slug).
Proof.
  split; [reflexivity|]. split; [reflexivity|].
  intros H. destruct (H 150 "pumpkins" db_submission) as [Heq _].
  vm_compute in Heq. discriminate.
Qed.

(** C9.  An admin update whose new voting deadline is at or before its new
    submission deadline leaves the database exactly as it was, whatever
    forced phase the same request carries, and when the PIN verifies the
    answer is InvalidDeadlineOrder. *)
Theorem adminUpdate_rejects_deadline_order
    sha256_hex pin subDeadline voteDeadline currentPhase slug db :
  voteDeadline <= subDeadline ->
  (adminUpdate sha256_hex pin (Some subDeadline) (Some voteDeadline) currentPhase slug db).2
  = db
  /\ forall c p,
       select_contest_by_slug slug db = Some c ->
       pin = Some p ->
       sha256_hex p = c_admin_pin_hash c ->
       (adminUpdate sha256_hex pin (Some subDeadline) (Some voteDeadline) currentPhase
                    slug db).1
       = RError InvalidDeadlineOrder.
Proof.
  intros Hle. unfold adminUpdate. unfold_handler.
  assert ((subDeadline >=? voteDeadline) = true) as Hge
    by (rewrite Z.geb_leb; by apply Z.leb_le).
  split.
  - destruct (select_contest_by_slug slug db) as [c|]; [|done].
    destruct pin as [p|]; simpl; [|done].
    case_bool_decide; [done|]. by rewrite Hge.
  - intros c p -> -> Hpin. simpl.
    rewrite bool_decide_eq_false_2; [by rewrite Hge | intros H; apply H; exact Hpin].
Qed.

Lemma adminUpdate_rejects_deadline_order_witness :
  300 <= 300
  /\ select_contest_by_slug "pumpkins" db_submission = Some pumpkins
  /\ (fun pin : string => pin) "pin-hash" = c_admin_pin_hash pumpkins
  /\ (adminUpdate (fun pin => pin) (Some "pin-hash") (Some 300) (Some 300) (Some "results")
                  "pumpkins" db_submission).2 = db_submission
  /\ (adminUpdate (fun pin => pin) (Some "pin-hash") (Some 300) (Some 300) (Some "results")
                  "pumpkins" db_submission).1 = RError InvalidDeadlineOrder.
Proof.
  split; [lia|]. split; [reflexivity|]. split; [reflexivity|].
  destruct (adminUpdate_rejects_deadline_order (fun pin => pin) (Some "pin-hash") 300 300
              (Some "results") "pumpkins" db_submission) as [Hdb Hans]; [lia|].
  split; [exact Hdb|].
  apply (Hans pumpkins "pin-hash"); reflexivity.
Defined.

(** With the deadlines in order the same request moves both deadlines and
    forces the phase. *)
Example adminUpdate_applies_ordered_deadlines :
  adminUpdate (fun pin => pin) (Some "pin-hash") (Some 300) (Some 400) (Some "results")
              "pumpkins" db_submission
  = (RContest (contest_view (set_current_phase results (set_deadlines 300 400 pumpkins)) None),
     mkDB [set_current_phase results (set_deadlines 300 400 pumpkins)]
          [entryA; entryB; entryC] [] 3 0).
Proof. reflexivity. Qed.

(** ** The tally *)

Section Tally.

Lemma tally_row_score acc v : (tally_row acc v).1 = acc.1 + rank_points v.1.
Proof.
  destruct acc as [s bd], v as [r n]. unfold tally_row, rank_points. simpl.
  repeat case_bool_decide; simpl; (lia || congruence).
Qed.

Lemma fold_tally_score l : forall acc,
  (fold_left tally_row l acc).1
  = acc.1 + fold_right Z.add 0 (map (fun v => rank_points v.1) l).
Proof.
  induction l as [|v l IH]; intros acc; simpl; [lia|].
  rewrite IH, tally_row_score. lia.
Qed.

Lemma present_cons_ne r x l : x <> r -> present r (x :: l) = present r l.
Proof.
  intros Hne. unfold present.
  destruct (decide (r ∈ l)) as [Hin|Hin].
  - rewrite !bool_decide_eq_true_2; [done | done | by right].
  - rewrite !bool_decide_eq_false_2; [done | done |].
    intros [?|?]%elem_of_cons; congruence.
Qed.

Lemma present_cons_fresh r l : r ∉ l -> present r (r :: l) = 1 /\ present r l = 0.
Proof.
  intros Hnin. unfold present.
  rewrite bool_decide_eq_true_2 by left. by rewrite bool_decide_eq_false_2.
Qed.

(** Over distinct ranks the points add up to 3, 2 and 1 for the ranks
    1, 2 and 3 that are present. *)
Lemma distinct_ranks_points l :
  NoDup l ->
  fold_right Z.add 0 (map rank_points l)
  = 3 * present 1 l + 2 * present 2 l + 1 * present 3 l.
Proof.
  induction 1 as [|x l Hx Hnd IH]; [done|].
  simpl. rewrite IH. unfold rank_points.
  destruct (decide (x = 1)) as [->|H1].
  { destruct (present_cons_fresh 1 l Hx) as [-> ->].
    rewrite !present_cons_ne by done. simpl. lia. }
  rewrite (bool_decide_eq_false_2 (x = 1)) by done.
  destruct (decide (x = 2)) as [->|H2].
  { destruct (present_cons_fresh 2 l Hx) as [-> ->].
    rewrite !present_cons_ne by done. simpl. lia. }
  rewrite (bool_decide_eq_false_2 (x = 2)) by done.
  destruct (decide (x = 3)) as [->|H3].
  { destruct (present_cons_fresh 3 l Hx) as [-> ->].
    rewrite !present_cons_ne by done. simpl. lia. }
  rewrite (bool_decide_eq_false_2 (x = 3)) by done.
  rewrite !present_cons_ne by done. lia.
Qed.

Lemma present_votes_of_rank entry_id r db :
  present r (map v_rank
                 (List.filter (fun v => bool_decide (v_entry_id v = entry_id)) (votes db)))
  = occurs (votes_of_rank entry_id r db).
Proof.
  unfold present, occurs, votes_of_rank.
  induction (votes db) as [|v vs IH]; simpl; [done|].
  destruct (bool_decide (v_entry_id v = entry_id)); simpl; [|exact IH].
  destruct (decide (v_rank v = r)) as [Hr|Hr].
  - rewrite (bool_decide_eq_true_2 (v_rank v = r)) by done. simpl.
    by rewrite bool_decide_eq_true_2 by (rewrite Hr; left).
  - rewrite (bool_decide_eq_false_2 (v_rank v = r)) by done. simpl.
    rewrite <- IH. clear IH.
    destruct (decide (r ∈ map v_rank
                (List.filter (fun v => bool_decide (v_entry_id v = entry_id)) vs)))
      as [Hin|Hin].
    + rewrite !bool_decide_eq_true_2; [done | done | by right].
    + rewrite !bool_decide_eq_false_2; [done | done |].
      intros [?|?]%elem_of_cons; congruence.
Qed.

Lemma present_perm r l1 l2 : l1 ≡ₚ l2 -> present r l1 = present r l2.
Proof.
  intros Hp. unfold present.
  destruct (decide (r ∈ l1)) as [Hin|Hin].
  - rewrite !bool_decide_eq_true_2; [done | by rewrite <- Hp | done].
  - rewrite !bool_decide_eq_false_2; [done | by rewrite <- Hp | done].
Qed.

Lemma present_remove_dups r l : present r (remove_dups l) = present r l.
Proof.
  unfold present.
  destruct (decide (r ∈ l)) as [Hin|Hin].
  - rewrite !bool_decide_eq_true_2; [done | done | by apply elem_of_remove_dups].
  - rewrite !bool_decide_eq_false_2; [done | done | by rewrite elem_of_remove_dups].
Qed.

(** The score the handler gives an entry: 3, 2 and 1 once for each of the
    ranks 1, 2 and 3 that at least one vote of the entry has, however many
    votes have it. *)
Lemma entryWithVotes_score db entry :
  score (entryWithVotes db entry) = ranks_score (e_id entry) db.
Proof.
  unfold entryWithVotes.
  pose proof (fold_tally_score (select_rank_counts (e_id entry) db)
                (0, mkVoteBreakdown 0 0 0)) as Hfold.
  destruct (fold_left tally_row _ _) as [s bd]. simpl in *. rewrite Hfold.
  unfold select_rank_counts. rewrite map_map. simpl.
  set (ranks := map v_rank _).
  rewrite (distinct_ranks_points (js_sort num_cmp (remove_dups ranks))).
  - rewrite !(present_perm _ _ _ (js_sort_perm num_cmp (remove_dups ranks))).
    rewrite !present_remove_dups. unfold ranks, ranks_score.
    by rewrite !present_votes_of_rank.
  - rewrite (js_sort_perm num_cmp). apply NoDup_remove_dups.
Qed.

Lemma tally_perm db entries : map se_entry (tally db entries) ≡ₚ entries.
Proof.
  unfold tally. rewrite (js_sort_perm _ _), map_map.
  assert (map (fun e => se_entry (entryWithVotes db e)) entries = entries) as ->; [|done].
  induction entries as [|e es IH]; simpl; [done|]. rewrite IH. f_equal.
  unfold entryWithVotes. by destruct (fold_left _ _ _).
Qed.

Lemma tally_sorted db entries :
  Sorted (fun a b => score b <= score a) (tally db entries).
Proof.
  unfold tally.
  pose proof (js_sort_sorted (fun a b : ScoredEntry => score b - score a)
                ltac:(intros a b; lia) (map (entryWithVotes db) entries)) as Hs.
  induction Hs as [|a l Hl IH Hhd]; constructor; [exact IH|].
  destruct Hhd; constructor. lia.
Qed.

End Tally.

(** The two scores agree on an entry that no two voters gave the same
    rank. *)
Lemma ranks_score_without_repeats entry_id db :
  (votes_of_rank entry_id 1 db <= 1)%nat ->
  (votes_of_rank entry_id 2 db <= 1)%nat ->
  (votes_of_rank entry_id 3 db <= 1)%nat ->
  ranks_score entry_id db = points_score entry_id db.
Proof.
  unfold ranks_score, points_score, occurs. intros H1 H2 H3.
  destruct (votes_of_rank entry_id 1 db) as [|[|?]];
    destruct (votes_of_rank entry_id 2 db) as [|[|?]];
    destruct (votes_of_rank entry_id 3 db) as [|[|?]]; simpl; lia.
Qed.

(** The tally example of the testable properties: A and B score 5 and
    precede C, which scores 1. *)
Example tally_tie_example :
  (listEntries (fun _ => 0) 250 "pumpkins" db_tie).1
  = REntries
      (mkEntriesPayload
         [ Scored (mkScoredEntry entryA 5 (mkVoteBreakdown 1 1 0));
           Scored (mkScoredEntry entryB 5 (mkVoteBreakdown 1 1 0));
           Scored (mkScoredEntry entryC 1 (mkVoteBreakdown 0 0 1)) ]
         None results).
Proof. vm_compute. reflexivity. Qed.

(** C1, where the code departs from the scoring rule.  In results phase the
    listing of the example database puts B first with score 5, then A with
    score 3, then C with score 0, and reports three rank-1 votes for A; by
    the rule of 3 points per rank-1 vote A has 9 points and B has 5. *)
Theorem tally_counts_each_rank_once :
  (listEntries (fun _ => 0) 250 "pumpkins" db_results).1
  = REntries
      (mkEntriesPayload
         [ Scored (mkScoredEntry entryB 5 (mkVoteBreakdown 1 1 0));
           Scored (mkScoredEntry entryA 3 (mkVoteBreakdown 3 0 0));
           Scored (mkScoredEntry entryC 0 (mkVoteBreakdown 0 0 0)) ]
         None results)
  /\ points_score (e_id entryA) db_results = 9
  /\ points_score (e_id entryB) db_results = 5
  /\ points_score (e_id entryC) db_results = 0.
Proof. vm_compute. repeat split. Qed.

(** ** Slugs *)

Section Slugs.

Variable sql_like_prefix : string -> string -> bool.

Lemma prefix_append s t : String.prefix s (s +:+ t) = true.
Proof.
  induction s as [|a s IH]; simpl; [by destruct t|].
  destruct (Ascii.ascii_dec a a); [exact IH | done].
Qed.

Lemma prefix_self s : String.prefix s s = true.
Proof.
  induction s as [|a s IH]; simpl; [done|].
  destruct (Ascii.ascii_dec a a); [exact IH | done].
Qed.

Lemma numbered_slug_inj baseSlug i j :
  numbered_slug baseSlug i = numbered_slug baseSlug j -> i = j.
Proof.
  unfold numbered_slug. intros H.
  apply (inj (String.app baseSlug)) in H. apply (inj (String.app "-")) in H.
  by apply (inj pretty) in H.
Qed.

(** A loop that runs out of tests found every candidate taken. *)
Lemma next_free_slug_none existingSlugs baseSlug : forall fuel counter,
  next_free_slug fuel existingSlugs baseSlug counter = None ->
  forall i, (i < fuel)%nat -> numbered_slug baseSlug (counter + i) ∈ existingSlugs.
Proof.
  intros fuel. induction fuel as [|fuel IH]; intros counter Hnone i Hi; [lia|].
  simpl in Hnone. case_bool_decide as Hin; [|done].
  destruct i as [|i]; [by rewrite Nat.add_0_r|].
  replace (counter + S i)%nat with (S counter + i)%nat by lia.
  apply IH; [done | lia].
Qed.

(** The slug the loop returns is the first candidate that is not taken. *)
Lemma next_free_slug_some existingSlugs baseSlug : forall fuel counter slug,
  next_free_slug fuel existingSlugs baseSlug counter = Some slug ->
  exists i,
    slug = numbered_slug baseSlug (counter + i)
    /\ (slug ∉ existingSlugs)
    /\ forall j, (j < i)%nat -> numbered_slug baseSlug (counter + j) ∈ existingSlugs.
Proof.
  intros fuel. induction fuel as [|fuel IH]; intros counter slug Hsome; [done|].
  simpl in Hsome. case_bool_decide as Hin.
  - destruct (IH _ _ Hsome) as (i & -> & Hfree & Hbelow).
    exists (S i). replace (counter + S i)%nat with (S counter + i)%nat by lia.
    split; [done|]. split; [done|].
    intros [|j] Hj; [by rewrite Nat.add_0_r|].
    replace (counter + S j)%nat with (S counter + j)%nat by lia.
    apply Hbelow. lia.
  - injection Hsome as <-. exists 0%nat. rewrite Nat.add_0_r.
    split; [done|]. split; [done|]. intros j Hj. lia.
Qed.

(** There are not enough slugs to keep the loop busy for one test more
    than their number. *)
Lemma next_free_slug_total (existing : list string) baseSlug counter :
  is_Some (next_free_slug (S (length existing)) (list_to_set existing) baseSlug counter).
Proof.
  destruct (next_free_slug _ _ _ _) as [slug|] eqn:Hloop; [by eexists|].
  exfalso.
  pose proof (next_free_slug_none _ _ _ _ Hloop) as Htaken.
  set (candidates := (fun i => numbered_slug baseSlug (counter + i))
                       <$> seq 0 (S (length existing))).
  assert (NoDup candidates) as Hnd.
  { apply NoDup_fmap_2_strong; [|apply NoDup_seq].
    intros i j _ _ Hij. apply numbered_slug_inj in Hij. lia. }
  assert (forall x, x ∈ candidates -> x ∈ existing) as Hsub.
  { intros x (i & -> & Hi)%list_elem_of_fmap. apply elem_of_seq in Hi.
    apply (elem_of_list_to_set (C:=gset string)). apply Htaken. lia. }
  pose proof (submseteq_length _ _ (NoDup_submseteq _ _ Hnd Hsub)) as Hlen.
  unfold candidates in Hlen. rewrite length_fmap, length_seq in Hlen. lia.
Qed.

Lemma select_slugs_like_stored baseSlug db slug :
  slug ∈ select_slugs_like sql_like_prefix baseSlug db -> slug ∈ map c_slug (contests db).
Proof.
  unfold select_slugs_like. rewrite !list_elem_of_In, filter_In. tauto.
Qed.

Lemma select_slugs_like_prefix baseSlug db slug :
  (forall s, String.prefix baseSlug s = true -> sql_like_prefix baseSlug s = true) ->
  String.prefix baseSlug slug = true ->
  slug ∈ map c_slug (contests db) ->
  slug ∈ select_slugs_like sql_like_prefix baseSlug db.
Proof.
  intros Hlike Hpre Hin. unfold select_slugs_like.
  apply list_elem_of_In, filter_In. split; [by apply list_elem_of_In | by apply Hlike].
Qed.

End Slugs.

(** The loop of [generateUniqueSlug] ends, on a slug that is not stored. *)
Lemma generateUniqueSlug_returns slugify sql_like_prefix name db :
  (forall s, String.prefix (slugify name) s = true ->
             sql_like_prefix (slugify name) s = true) ->
  exists slug,
    generateUniqueSlug slugify sql_like_prefix name db = Some slug
    /\ (slug ∉ map c_slug (contests db)).
Proof.
  intros Hlike. unfold generateUniqueSlug.
  set (baseSlug := slugify name) in *.
  set (existing := select_slugs_like sql_like_prefix baseSlug db).
  case_bool_decide as Hnone.
  - exists baseSlug. split; [done|]. intros Hin.
    apply (select_slugs_like_prefix sql_like_prefix baseSlug db baseSlug Hlike) in Hin;
      [|apply prefix_self].
    fold existing in Hin. destruct existing; [by apply elem_of_nil in Hin | done].
  - destruct (next_free_slug_total existing baseSlug 1) as [slug Hloop].
    exists slug. split; [done|].
    destruct (next_free_slug_some _ _ _ _ _ Hloop) as (i & Hslug & Hfree & _).
    intros Hin. apply Hfree, (elem_of_list_to_set (C:=gset string)).
    apply (select_slugs_like_prefix sql_like_prefix baseSlug db slug Hlike); [|done].
    rewrite Hslug. apply prefix_append.
Qed.

(** X1.  [generateUniqueSlug] always returns: the loop ends within one test
    more than there are matching slugs.  When the LIKE pattern matches at
    least every slug that starts with the base slug, the slug returned is
    not the slug of any stored contest. *)
Theorem generateUniqueSlug_fresh slugify sql_like_prefix name db :
  (forall s, String.prefix (slugify name) s = true ->
             sql_like_prefix (slugify name) s = true) ->
  exists slug,
    generateUniqueSlug slugify sql_like_prefix name db = Some slug
    /\ (slug ∉ map c_slug (contests db)).
Proof. apply generateUniqueSlug_returns. Qed.

(** X2.  The slug returned is the base slug itself when no stored slug
    matches the pattern; otherwise it is the base slug with the least
    counter from 1 on whose candidate is not among the matching slugs, and
    every candidate with a smaller counter is the slug of a stored contest.
    The base slug is not tried in that case, even when it is free. *)
Theorem generateUniqueSlug_least slugify sql_like_prefix name db slug :
  generateUniqueSlug slugify sql_like_prefix name db = Some slug ->
  (select_slugs_like sql_like_prefix (slugify name) db = [] /\ slug = slugify name)
  \/ (select_slugs_like sql_like_prefix (slugify name) db <> []
      /\ exists k,
           (1 <= k)%nat
           /\ slug = numbered_slug (slugify name) k
           /\ (slug ∉ select_slugs_like sql_like_prefix (slugify name) db)
           /\ forall j, (1 <= j < k)%nat ->
                numbered_slug (slugify name) j ∈ map c_slug (contests db)).
Proof.
  unfold generateUniqueSlug.
  destruct (select_slugs_like sql_like_prefix (slugify name) db) as [|s0 rest] eqn:Hex.
  - intros [= <-]. by left.
  - rewrite bool_decide_eq_false_2 by done. intros Hloop. right. split; [done|].
    destruct (next_free_slug_some _ _ _ _ _ Hloop) as (i & Hslug & Hfree & Hbelow).
    exists (1 + i)%nat. split; [lia|]. split; [done|].
    split; [by rewrite (elem_of_list_to_set (C:=gset string)) in Hfree|].
    intros j Hj. apply (select_slugs_like_stored sql_like_prefix (slugify name)).
    rewrite Hex. apply (elem_of_list_to_set (C:=gset string)).
    replace j with (1 + (j - 1))%nat by lia. apply Hbelow. lia.
Qed.

Lemma generateUniqueSlug_fresh_witness :
  (forall s, String.prefix "pumpkins" s = true -> String.prefix "pumpkins" s = true)
  /\ exists slug,
       generateUniqueSlug (fun name => name) String.prefix "pumpkins" db_two_contests
       = Some slug
       /\ (slug ∉ map c_slug (contests db_two_contests)).
Proof.
  split; [intros s Hs; exact Hs|].
  apply (generateUniqueSlug_fresh (fun name => name) String.prefix "pumpkins"
                                  db_two_contests).
  intros s Hs. exact Hs.
Defined.

Lemma generateUniqueSlug_least_witness :
  generateUniqueSlug (fun name => name) String.prefix "pumpkins" db_two_contests
  = Some "pumpkins-2"
  /\ ((select_slugs_like String.prefix "pumpkins" db_two_contests = []
       /\ "pumpkins-2" = "pumpkins")
      \/ (select_slugs_like String.prefix "pumpkins" db_two_contests <> []
          /\ exists k,
               (1 <= k)%nat
               /\ "pumpkins-2" = numbered_slug "pumpkins" k
               /\ ("pumpkins-2" ∉ select_slugs_like String.prefix "pumpkins" db_two_contests)
               /\ forall j, (1 <= j < k)%nat ->
                    numbered_slug "pumpkins" j ∈ map c_slug (contests db_two_contests))).
Proof.
  split; [vm_compute; reflexivity|].
  apply (generateUniqueSlug_least (fun name => name) String.prefix "pumpkins"
                                  db_two_contests "pumpkins-2").
  vm_compute. reflexivity.
Defined.

(** From a free base slug whose numbered form is taken, the counter still
    starts at 1. *)
Example generateUniqueSlug_skips_free_base :
  generateUniqueSlug (fun name => name) String.prefix "pumpkins"
                     (mkDB [pumpkins_again] [] [] 0 0)
  = Some "pumpkins-2".
Proof. vm_compute. reflexivity. Qed.

(** ** Creating a contest *)

Lemma next_rowid_above seq ids : Forall (fun x => x < next_rowid seq ids) ids.
Proof.
  unfold next_rowid. induction ids as [|x ids IH]; simpl; constructor; [lia|].
  eapply Forall_impl; [exact IH|]. simpl. intros y Hy. lia.
Qed.

Lemma find_app_none {X} (f : X -> bool) l x :
  Forall (fun y => f y = false) l -> f x = true -> List.find f (l ++ [x]) = Some x.
Proof.
  induction 1 as [|y l Hy _ IH]; intros Hx; simpl; [by rewrite Hx|].
  rewrite Hy. by apply IH.
Qed.

(** An insert under a slug that is not stored appends the row, and both
    lookups find it. *)
Lemma insert_contest_done slug name description pinHash s v now db :
  slug ∉ map c_slug (contests db) ->
  exists c,
    insert_contest slug name description pinHash s v now db
    = (Done (c_id c), with_contests (contests db ++ [c]) db)
    /\ c = mkContest (next_rowid 0 (map c_id (contests db))) slug name description pinHash
                     s v submission (now `div` 1000)
    /\ select_contest_by_id (c_id c) (with_contests (contests db ++ [c]) db) = Some c
    /\ select_contest_by_slug slug (with_contests (contests db ++ [c]) db) = Some c.
Proof.
  intros Hfresh. unfold insert_contest.
  assert (Forall (fun c => bool_decide (c_slug c = slug) = false) (contests db)) as Hslugs.
  { apply List.Forall_forall. intros c Hc. apply bool_decide_eq_false. intros Heq.
    apply Hfresh, list_elem_of_In, in_map_iff. by exists c. }
  assert (existsb (fun c => bool_decide (c_slug c = slug)) (contests db) = false) as ->.
  { apply not_true_is_false. intros (c & Hc & Hb)%existsb_exists.
    rewrite List.Forall_forall in Hslugs. by rewrite (Hslugs c Hc) in Hb. }
  exists (mkContest (next_rowid 0 (map c_id (contests db))) slug name description pinHash
                    s v submission (now `div` 1000)).
  split; [reflexivity|]. split; [reflexivity|]. simpl. split.
  - unfold select_contest_by_id. simpl. apply find_app_none.
    + pose proof (next_rowid_above 0 (map c_id (contests db))) as Hids.
      apply List.Forall_forall. intros c Hc. apply bool_decide_eq_false.
      rewrite List.Forall_forall in Hids. specialize (Hids (c_id c) (in_map c_id _ _ Hc)).
      lia.
    + by apply bool_decide_eq_true.
  - unfold select_contest_by_slug. simpl. apply find_app_none; [done|].
    by apply bool_decide_eq_true.
Qed.

Section Creation.

Variable slugify : string -> string.
Variable sql_like_prefix : string -> string -> bool.
Variable sha256_hex : string -> string.

Hypothesis like_prefix :
  forall baseSlug s, String.prefix baseSlug s = true -> sql_like_prefix baseSlug s = true.

(** The creation handler on a complete request with a PIN of four
    characters or more and deadlines in order. *)
Lemma createContest_done name description adminPin s v now db :
  name <> "" -> (4 <= String.length adminPin)%nat -> s < v ->
  exists c,
    createContest slugify sql_like_prefix sha256_hex (Some name) description (Some adminPin)
                  (Some s) (Some v) now db
    = (ContestCreated (Some (contest_view c None)), with_contests (contests db ++ [c]) db)
    /\ (c_slug c ∉ map c_slug (contests db))
    /\ generateUniqueSlug slugify sql_like_prefix name db = Some (c_slug c)
    /\ c = mkContest (next_rowid 0 (map c_id (contests db))) (c_slug c) name
                     (default "" description) (sha256_hex adminPin) s v submission
                     (now `div` 1000)
    /\ select_contest_by_slug (c_slug c) (with_contests (contests db ++ [c]) db) = Some c.
Proof.
  intros Hname Hpin Hsv. unfold createContest.
  rewrite (bool_decide_eq_false_2 (name = "")) by done.
  assert (adminPin <> "") as Hpin0 by (intros ->; simpl in Hpin; lia).
  rewrite (bool_decide_eq_false_2 (adminPin = "")) by done. simpl.
  destruct (Nat.ltb_spec (String.length adminPin) 4) as [?|_]; [lia|].
  assert ((s >=? v) = false) as -> by (rewrite Z.geb_leb; apply Z.leb_gt; lia).
  destruct (generateUniqueSlug_returns slugify sql_like_prefix name db (like_prefix _))
    as (slug & Hgen & Hfresh).
  rewrite Hgen.
  destruct (insert_contest_done slug name (default "" description) (sha256_hex adminPin)
              s v now db Hfresh) as (c & Hins & Hc & Hbyid & Hbyslug).
  rewrite Hins, Hbyid. simpl. exists c.
  assert (c_slug c = slug) as Hslug by (by rewrite Hc).
  rewrite Hslug. repeat split; try done.
Qed.

End Creation.


(** A request that is answered with the created contest was complete. *)
Lemma createContest_created_inv slugify sql_like_prefix sha256_hex
    name description adminPin submissionDeadline votingDeadline now db view :
  (createContest slugify sql_like_prefix sha256_hex name description adminPin
                 submissionDeadline votingDeadline now db).1 = ContestCreated view ->
  exists n p s v,
    name = Some n /\ n <> "" /\ adminPin = Some p /\ (4 <= String.length p)%nat
    /\ submissionDeadline = Some s /\ votingDeadline = Some v /\ s < v.
Proof.
  intros Hview. unfold createContest in Hview.
  destruct name as [n|], adminPin as [p|], submissionDeadline as [s|],
    votingDeadline as [v|]; try discriminate.
  destruct (decide (n = "")) as [->|Hn]; [discriminate|].
  rewrite (bool_decide_eq_false_2 (n = "")) in Hview by done.
  destruct (decide (p = "")) as [->|Hp]; [discriminate|].
  rewrite (bool_decide_eq_false_2 (p = "")) in Hview by done. simpl in Hview.
  destruct (Nat.ltb_spec (String.length p) 4) as [?|Hlen]; [discriminate|].
  destruct (s >=? v) eqn:Hsv; [discriminate|].
  exists n, p, s, v. repeat split; try done.
  rewrite Z.geb_leb in Hsv. by apply Z.leb_gt in Hsv.
Qed.

(** X3.  A creation request is answered with the created contest exactly
    when it has a name, a PIN of at least four characters and both
    deadlines, the submission deadline before the voting deadline; a request
    answered otherwise leaves the database as it was. *)
Theorem createContest_accepts_iff slugify sql_like_prefix sha256_hex
    name description adminPin submissionDeadline votingDeadline now db :
  (forall baseSlug s,
     String.prefix baseSlug s = true -> sql_like_prefix baseSlug s = true) ->
  ((exists view,
      (createContest slugify sql_like_prefix sha256_hex name description adminPin
                     submissionDeadline votingDeadline now db).1 = ContestCreated view)
   <-> exists n p s v,
         name = Some n /\ n <> "" /\ adminPin = Some p /\ (4 <= String.length p)%nat
         /\ submissionDeadline = Some s /\ votingDeadline = Some v /\ s < v)
  /\ ((forall view,
         (createContest slugify sql_like_prefix sha256_hex name description adminPin
                        submissionDeadline votingDeadline now db).1 <> ContestCreated view) ->
      (createContest slugify sql_like_prefix sha256_hex name description adminPin
                     submissionDeadline votingDeadline now db).2 = db).
Proof.
  intros Hlike. split; [split|].
  - intros [view Hview]. by apply createContest_created_inv in Hview.
  - intros (n & p & s & v & -> & Hn & -> & Hp & -> & -> & Hsv).
    destruct (createContest_done slugify sql_like_prefix sha256_hex Hlike n description
                p s v now db Hn Hp Hsv) as (c & -> & _).
    by eexists.
  - intros Hnot. unfold createContest in *.
    destruct name as [n|], adminPin as [p|], submissionDeadline as [s|],
      votingDeadline as [v|]; try done.
    destruct (bool_decide (n = "") || bool_decide (p = "")); [done|].
    destruct (String.length p <? 4)%nat; [done|].
    destruct (s >=? v); [done|].
    destruct (generateUniqueSlug _ _ n db) as [slug|]; [|done].
    unfold insert_contest in *.
    destruct (existsb _ (contests db)); [done|].
    simpl in Hnot. by destruct (Hnot _ eq_refl).
Qed.

Lemma createContest_accepts_iff_witness :
  (forall baseSlug s, String.prefix baseSlug s = true -> String.prefix baseSlug s = true)
  /\ ((exists view,
         (createContest (fun name => name) String.prefix (fun pin => pin)
                        (Some "pumpkins") None (Some "1234") (Some 300) (Some 400) 7000
                        db_two_contests).1 = ContestCreated view)
      <-> exists n p s v,
            Some "pumpkins" = Some n /\ n <> "" /\ Some "1234" = Some p
            /\ (4 <= String.length p)%nat
            /\ Some 300 = Some s /\ Some 400 = Some v /\ s < v).
Proof.
  split; [intros b s Hs; exact Hs|].
  apply (createContest_accepts_iff (fun name => name) String.prefix (fun pin => pin)
           (Some "pumpkins") None (Some "1234") (Some 300) (Some 400) 7000 db_two_contests).
  intros b s Hs. exact Hs.
Defined.

(** X4.  A contest that is created is appended to the table in submission
    phase, with the deadlines, name and description of the request, the
    hash of the PIN, an id above every stored id and a slug that no stored
    contest has; the entries and votes are untouched. *)
Theorem createContest_stores slugify sql_like_prefix sha256_hex
    name description adminPin s v now db :
  (forall baseSlug x,
     String.prefix baseSlug x = true -> sql_like_prefix baseSlug x = true) ->
  name <> "" -> (4 <= String.length adminPin)%nat -> s < v ->
  exists c,
    createContest slugify sql_like_prefix sha256_hex (Some name) description (Some adminPin)
                  (Some s) (Some v) now db
    = (ContestCreated (Some (contest_view c None)),
       mkDB (contests db ++ [c]) (entries db) (votes db) (entries_seq db) (votes_seq db))
    /\ c_current_phase c = submission
    /\ c_submission_deadline c = s /\ c_voting_deadline c = v
    /\ c_name c = name /\ c_description c = default "" description
    /\ c_admin_pin_hash c = sha256_hex adminPin
    /\ (c_slug c ∉ map c_slug (contests db))
    /\ Forall (fun id => id < c_id c) (map c_id (contests db)).
Proof.
  intros Hlike Hname Hpin Hsv.
  destruct (createContest_done slugify sql_like_prefix sha256_hex Hlike name description
              adminPin s v now db Hname Hpin Hsv) as (c & Hcreate & Hfresh & _ & Hc & _).
  exists c. split; [exact Hcreate|].
  rewrite Hc. simpl. repeat split; try done. apply next_rowid_above.
Qed.

Lemma createContest_stores_witness :
  (forall baseSlug x, String.prefix baseSlug x = true -> String.prefix baseSlug x = true)
  /\ "pumpkins" <> "" /\ (4 <= String.length "1234")%nat /\ 300 < 400
  /\ exists c,
       createContest (fun name => name) String.prefix (fun pin => pin)
                     (Some "pumpkins") None (Some "1234") (Some 300) (Some 400) 7000
                     db_two_contests
       = (ContestCreated (Some (contest_view c None)),
          mkDB (contests db_two_contests ++ [c]) (entries db_two_contests)
               (votes db_two_contests) (entries_seq db_two_contests)
               (votes_seq db_two_contests))
       /\ c_current_phase c = submission
       /\ c_submission_deadline c = 300 /\ c_voting_deadline c = 400
       /\ c_name c = "pumpkins" /\ c_description c = default "" None
       /\ c_admin_pin_hash c = (fun pin : string => pin) "1234"
       /\ (c_slug c ∉ map c_slug (contests db_two_contests))
       /\ Forall (fun id => id < c_id c) (map c_id (contests db_two_contests)).
Proof.
  split; [intros b s Hs; exact Hs|]. split; [discriminate|].
  split; [simpl; lia|]. split; [lia|].
  apply (createContest_stores (fun name => name) String.prefix (fun pin => pin)
           "pumpkins" None "1234" 300 400 7000 db_two_contests);
    [intros b s Hs; exact Hs | discriminate | simpl; lia | lia].
Defined.

(** The third contest named pumpkins gets the slug pumpkins-2 and id 3. *)
Example createContest_third_pumpkins :
  (createContest (fun name => name) String.prefix (fun pin => pin)
                 (Some "pumpkins") None (Some "1234") (Some 300) (Some 400) 7000
                 db_two_contests).1
  = ContestCreated
      (Some (contest_view (mkContest 3 "pumpkins-2" "pumpkins" "" "1234" 300 400 submission 7)
                          None)).
Proof. vm_compute. reflexivity. Qed.



(** ** Admin operations *)

Section AdminProofs.

Variable sha256_hex : string -> string.

(** The row a slug names has the id it carries. *)
Lemma select_by_slug_has_id slug c db :
  select_contest_by_slug slug db = Some c ->
  exists c0, select_contest_by_id (c_id c) db = Some c0 /\ c_id c0 = c_id c.
Proof.
  unfold select_contest_by_slug, select_contest_by_id. intros H.
  apply find_some in H as [Hin _].
  destruct (List.find (fun x => bool_decide (c_id x = c_id c)) (contests db)) as [c0|] eqn:Hf.
  - exists c0. split; [done|]. apply find_some in Hf as [_ Hb].
    by apply bool_decide_eq_true in Hb.
  - pose proof (find_none _ _ Hf c Hin) as Hb. simpl in Hb.
    by rewrite bool_decide_eq_true_2 in Hb.
Qed.

Lemma select_by_id_update_phase p id0 id db :
  is_Some (select_contest_by_id id db) ->
  is_Some (select_contest_by_id id (update_current_phase p id0 db)).
Proof.
  unfold select_contest_by_id, update_current_phase. simpl.
  induction (contests db) as [|x xs IH]; simpl; [done|].
  destruct (bool_decide (c_id x = id)) eqn:Hx.
  - intros _. destruct (bool_decide (c_id x = id0)); simpl; rewrite Hx; by eexists.
  - intros H. destruct (bool_decide (c_id x = id0)); simpl; rewrite Hx; by apply IH.
Qed.

Lemma update_current_phase_deadlines p id db :
  map (fun c => (c_submission_deadline c, c_voting_deadline c))
      (contests (update_current_phase p id db))
  = map (fun c => (c_submission_deadline c, c_voting_deadline c)) (contests db).
Proof.
  unfold update_current_phase. simpl. rewrite map_map. apply map_ext.
  intros c. by destruct (bool_decide (c_id c = id)).
Qed.

(** The tail of the update handler always finds the row again. *)
Lemma adminUpdate_phase_found c currentPhase db :
  is_Some (select_contest_by_id (c_id c) db) ->
  exists updated db',
    adminUpdate_phase c currentPhase db = (Done (RContest (contest_view updated None)), db')
    /\ db' = match currentPhase ≫= phase_of_string with
             | Some p => update_current_phase p (c_id c) db
             | None => db
             end.
Proof.
  intros Hsome. unfold adminUpdate_phase.
  destruct (currentPhase ≫= phase_of_string) as [p|]; unfold_handler; cbv beta iota.
  - destruct (select_by_id_update_phase p (c_id c) (c_id c) db Hsome) as [u Hu].
    rewrite Hu. by eexists _, _.
  - destruct Hsome as [u Hu]. rewrite Hu. by eexists _, _.
Qed.

End AdminProofs.

(** X6.  An authorised admin update that carries only one of the two
    deadlines is answered with the contest and changes no deadline of any
    contest: the single deadline is dropped without an error. *)
Theorem adminUpdate_single_deadline_ignored sha256_hex pin
    submissionDeadline votingDeadline currentPhase slug c db :
  select_contest_by_slug slug db = Some c ->
  sha256_hex pin = c_admin_pin_hash c ->
  submissionDeadline = None \/ votingDeadline = None ->
  (exists updated,
     (adminUpdate sha256_hex (Some pin) submissionDeadline votingDeadline currentPhase
                  slug db).1 = RContest (contest_view updated None))
  /\ map (fun c => (c_submission_deadline c, c_voting_deadline c))
         (contests (adminUpdate sha256_hex (Some pin) submissionDeadline votingDeadline
                                currentPhase slug db).2)
     = map (fun c => (c_submission_deadline c, c_voting_deadline c)) (contests db).
Proof.
  intros Hsel Hpin Hone.
  destruct (select_by_slug_has_id slug c db Hsel) as (c0 & Hc0 & _).
  destruct (adminUpdate_phase_found c currentPhase db (ex_intro _ c0 Hc0))
    as (updated & db' & Hrun & Hdb').
  assert (adminUpdate sha256_hex (Some pin) submissionDeadline votingDeadline currentPhase
                      slug db = (RContest (contest_view updated None), db')) as ->.
  { unfold adminUpdate, hashPin.
    destruct Hone as [-> | ->]; [|destruct submissionDeadline];
      unfold_handler; rewrite Hsel; cbv beta iota;
      (rewrite bool_decide_eq_false_2; [|intros H; by apply H]);
      cbv beta iota; by rewrite Hrun. }
  simpl. split; [by exists updated|].
  rewrite Hdb'. destruct (currentPhase ≫= phase_of_string); [|done].
  apply update_current_phase_deadlines.
Qed.

Lemma adminUpdate_single_deadline_ignored_witness :
  select_contest_by_slug "pumpkins" db_submission = Some pumpkins
  /\ (fun pin : string => pin) "pin-hash" = c_admin_pin_hash pumpkins
  /\ (Some 500 = None \/ @None Z = None)
  /\ (exists updated,
        (adminUpdate (fun pin => pin) (Some "pin-hash") (Some 500) None None
                     "pumpkins" db_submission).1 = RContest (contest_view updated None))
  /\ map (fun c => (c_submission_deadline c, c_voting_deadline c))
         (contests (adminUpdate (fun pin => pin) (Some "pin-hash") (Some 500) None None
                                "pumpkins" db_submission).2)
     = [(100, 200)].
Proof.
  split; [reflexivity|]. split; [reflexivity|]. split; [by right|].
  apply (adminUpdate_single_deadline_ignored (fun pin => pin) "pin-hash" (Some 500) None None
           "pumpkins" pumpkins db_submission); [reflexivity | reflexivity | by right].
Defined.




(** X8.  Without the PIN of the contest no admin operation writes or
    reveals anything: the update, the entry deletion and the entry list
    answer InvalidPin when the hash of the PIN sent differs from the stored
    hash, and 500 when the request has no PIN, and leave the database as it
    was. *)
Theorem admin_needs_pin sha256_hex pin slug c db
    submissionDeadline votingDeadline currentPhase entry_id :
  select_contest_by_slug slug db = Some c ->
  (forall p, pin = Some p -> sha256_hex p <> c_admin_pin_hash c) ->
  adminUpdate sha256_hex pin submissionDeadline votingDeadline currentPhase slug db
  = (match pin with
     | Some _ => RError InvalidPin
     | None => RError (ServerError "Failed to update contest")
     end, db)
  /\ adminDeleteEntry sha256_hex pin entry_id slug db
     = (match pin with
        | Some _ => RError InvalidPin
        | None => RError (ServerError "Failed to delete entry")
        end, db)
  /\ adminListEntries sha256_hex pin slug db
     = (match pin with
        | Some _ => RError InvalidPin
        | None => RError (ServerError "Failed to fetch entries")
        end, db).
Proof.
  intros Hsel Hpin.
  unfold adminUpdate, adminDeleteEntry, adminListEntries, hashPin. unfold_handler.
  rewrite Hsel. destruct pin as [p|]; cbv beta iota; [|done].
  by rewrite bool_decide_eq_true_2 by (by apply Hpin).
Qed.

Lemma admin_needs_pin_witness :
  select_contest_by_slug "pumpkins" db_results = Some (set_current_phase results pumpkins)
  /\ (forall p, Some "guess" = Some p ->
                (fun pin : string => pin) p
                <> c_admin_pin_hash (set_current_phase results pumpkins))
  /\ adminUpdate (fun pin => pin) (Some "guess") None None (Some "voting") "pumpkins"
                 db_results = (RError InvalidPin, db_results)
  /\ adminDeleteEntry (fun pin => pin) (Some "guess") 1 "pumpkins" db_results
     = (RError InvalidPin, db_results)
  /\ adminListEntries (fun pin => pin) (Some "guess") "pumpkins" db_results
     = (RError InvalidPin, db_results).
Proof.
  split; [reflexivity|].
  split; [intros p [= <-]; discriminate|].
  apply (admin_needs_pin (fun pin => pin) (Some "guess") "pumpkins"
           (set_current_phase results pumpkins) db_results None None (Some "voting") 1);
    [reflexivity|].
  intros p [= <-]. discriminate.
Defined.

(** X9.  The PIN check answers success exactly when the contest exists, a
    non-empty PIN is sent and its hash is the stored hash; it never changes
    the database. *)
Theorem adminVerify_iff sha256_hex pin slug db :
  ((adminVerify sha256_hex pin slug db).1 = RSuccess
   <-> exists c p,
         select_contest_by_slug slug db = Some c /\ pin = Some p /\ p <> ""
         /\ sha256_hex p = c_admin_pin_hash c)
  /\ (adminVerify sha256_hex pin slug db).2 = db.
Proof.
  unfold adminVerify, hashPin. unfold_handler.
  destruct (select_contest_by_slug slug db) as [c|]; cbv beta iota.
  2: { split; [|done]. split; [done|]. by intros (? & ? & ? & _). }
  destruct pin as [p|]; cbv beta iota.
  2: { split; [|done]. split; [done|]. by intros (? & ? & _ & ? & _). }
  destruct (decide (p = "")) as [->|Hp].
  { split; [|done]. split; [done|]. intros (? & ? & _ & [= <-] & ? & _). done. }
  rewrite (bool_decide_eq_false_2 (p = "")) by done. cbv beta iota.
  destruct (decide (sha256_hex p = c_admin_pin_hash c)) as [Hh|Hh].
  - rewrite bool_decide_eq_false_2 by (intros H; by apply H).
    split; [|done]. split; [|done]. intros _. by exists c, p.
  - rewrite bool_decide_eq_true_2 by done.
    split; [|done]. split; [done|]. intros (? & ? & [= <-] & [= <-] & _ & ?). done.
Qed.

(** ** Deleting an entry *)

Lemma filter_filter_same {X} (f : X -> bool) l :
  List.filter f (List.filter f l) = List.filter f l.
Proof.
  induction l as [|x l IH]; simpl; [done|].
  destruct (f x) eqn:Hx; simpl; [|done]. by rewrite Hx, IH.
Qed.

Lemma select_entry_in_contest_id id contest_id db e :
  select_entry_in_contest id contest_id db = Some e -> e_id e = id.
Proof.
  unfold select_entry_in_contest. intros H. apply find_some in H as [_ Hb].
  apply andb_true_iff in Hb as [Hb _]. by apply bool_decide_eq_true in Hb.
Qed.

(** X10.  An authorised deletion of an entry of the contest removes exactly
    the entries with that id and the votes cast for it, and nothing else;
    an id that is not an entry of this contest is answered EntryNotFound
    and nothing is deleted, so the PIN of one contest does not reach the
    entries of another. *)
Theorem adminDeleteEntry_removes sha256_hex pin entry_id slug c db :
  select_contest_by_slug slug db = Some c ->
  sha256_hex pin = c_admin_pin_hash c ->
  (in_contest (c_id c) db entry_id ->
   adminDeleteEntry sha256_hex (Some pin) entry_id slug db
   = (RSuccess,
      mkDB (contests db)
           (List.filter (fun e => negb (bool_decide (e_id e = entry_id))) (entries db))
           (List.filter (fun v => negb (bool_decide (v_entry_id v = entry_id))) (votes db))
           (entries_seq db) (votes_seq db)))
  /\ (~ in_contest (c_id c) db entry_id ->
      adminDeleteEntry sha256_hex (Some pin) entry_id slug db = (RError EntryNotFound, db)).
Proof.
  intros Hsel Hpin. unfold adminDeleteEntry, hashPin. unfold_handler.
  rewrite Hsel. cbv beta iota.
  rewrite bool_decide_eq_false_2 by (intros H; by apply H). cbv beta iota.
  destruct (select_entry_in_contest entry_id (c_id c) db) as [e|] eqn:He.
  - split; [|intros Hno; by apply select_entry_in_contest_some in He].
    intros _. rewrite (select_entry_in_contest_id _ _ _ _ He).
    unfold delete_entry, delete_entry_votes, with_entries, with_votes. simpl.
    by rewrite filter_filter_same.
  - split; [|done]. intros Hin. by apply select_entry_in_contest_none in He.
Qed.

Lemma adminDeleteEntry_removes_witness :
  select_contest_by_slug "pumpkins" db_results = Some (set_current_phase results pumpkins)
  /\ (fun pin : string => pin) "pin-hash"
     = c_admin_pin_hash (set_current_phase results pumpkins)
  /\ in_contest 1 db_results 2
  /\ adminDeleteEntry (fun pin => pin) (Some "pin-hash") 2 "pumpkins" db_results
     = (RSuccess,
        mkDB [set_current_phase results pumpkins] [entryA; entryC]
             [ mkVote 1 1 "voter1" 1 1 150; mkVote 3 1 "voter2" 1 1 160;
               mkVote 4 1 "voter3" 1 1 170 ]
             3 5).
Proof.
  split; [reflexivity|]. split; [reflexivity|].
  assert (in_contest 1 db_results 2) as Hin.
  { exists entryB. simpl. split; [right; by left | done]. }
  split; [exact Hin|].
  destruct (adminDeleteEntry_removes (fun pin => pin) "pin-hash" 2 "pumpkins"
              (set_current_phase results pumpkins) db_results) as [Hdel _];
    [reflexivity | reflexivity |].
  exact (Hdel Hin).
Defined.

(** ** What a submission leaves alone *)

Section OtherBallots.

Variable contest_id : Z.
Variable voter : string.
Variable contest_id' : Z.
Variable voter' : string.
Hypothesis other : contest_id' <> contest_id \/ voter' <> voter.

Lemma other_key_false :
  bool_decide (contest_id = contest_id') && bool_decide (voter = voter') = false.
Proof.
  apply andb_false_iff. destruct other as [H|H]; [left | right];
    apply bool_decide_eq_false; congruence.
Qed.

Lemma delete_voter_votes_other db :
  voter_rows contest_id' voter' (delete_voter_votes contest_id voter db)
  = voter_rows contest_id' voter' db.
Proof.
  unfold voter_rows, delete_voter_votes. simpl. f_equal.
  induction (votes db) as [|v vs IH]; simpl; [done|].
  destruct (bool_decide (v_contest_id v = contest_id) && bool_decide (v_voter_id v = voter))
    eqn:Hv; simpl.
  - apply andb_true_iff in Hv as [H1 H2].
    apply bool_decide_eq_true in H1. apply bool_decide_eq_true in H2.
    rewrite H1, H2, other_key_false. exact IH.
  - by rewrite IH.
Qed.

Lemma insert_vote_other entry_id r now db :
  voter_rows contest_id' voter' (insert_vote contest_id voter entry_id r now db).2
  = voter_rows contest_id' voter' db.
Proof.
  unfold insert_vote. repeat case_match; try done. simpl.
  rewrite voter_rows_app. simpl. rewrite other_key_false. apply app_nil_r.
Qed.

Lemma insert_votes_other now : forall ballot db,
  voter_rows contest_id' voter' (insert_votes contest_id voter ballot now db).2
  = voter_rows contest_id' voter' db.
Proof.
  intros ballot. induction ballot as [|v rest IH]; intros db; [done|].
  simpl. unfold mbind, Sql_bind, sql_bind.
  pose proof (insert_vote_other (entryId v) (rank v) now db) as H1.
  destruct (insert_vote _ _ _ _ _ db) as [[[]|] db1]; simpl in *; [|done].
  by rewrite IH.
Qed.

End OtherBallots.

Lemma resolved_votes now slug db : votes (resolved now slug db) = votes db.
Proof.
  unfold resolved. destruct (select_contest_by_slug slug db) as [c|] eqn:Hsel.
  - by destruct (getContestWithPhase_found now slug c db Hsel) as (? & -> & _ & _ & ? & _).
  - by rewrite (getContestWithPhase_missing now slug db Hsel).
Qed.

Lemma resolved_entries now slug db : entries (resolved now slug db) = entries db.
Proof.
  unfold resolved. destruct (select_contest_by_slug slug db) as [c|] eqn:Hsel.
  - by destruct (getContestWithPhase_found now slug c db Hsel) as (? & -> & _ & ? & _).
  - by rewrite (getContestWithPhase_missing now slug db Hsel).
Qed.

(** The database a vote submission leaves: the resolved one, or the
    resolved one with the voter's rows deleted and the insert loop run. *)
Lemma castVote_db voterId ballot now slug db :
  (castVote voterId ballot now slug db).2 = resolved now slug db
  \/ exists c v b,
       select_contest_by_slug slug db = Some c /\ voterId = Some v /\ ballot = Some b
       /\ newPhase now c = voting /\ v <> ""
       /\ validate_votes (c_id c) b ∅ ∅ db = None
       /\ (castVote voterId ballot now slug db).2
          = (insert_votes (c_id c) v b now
                          (delete_voter_votes (c_id c) v (resolved now slug db))).2.
Proof.
  destruct (select_contest_by_slug slug db) as [c|] eqn:Hsel.
  2: { left. rewrite (castVote_missing _ _ now slug db Hsel). unfold resolved.
       by rewrite (getContestWithPhase_missing now slug db Hsel). }
  rewrite (castVote_found voterId ballot now slug c db Hsel). simpl.
  case_bool_decide as Hph; [by left|].
  destruct voterId as [v|], ballot as [b|]; try by left.
  case_bool_decide as Hv; [by left|].
  destruct (3 <? length b)%nat; [by left|].
  destruct (validate_votes (c_id c) b ∅ ∅ db) eqn:Hval; [by left|].
  right. exists c, v, b.
  pose proof Hph as Hvoting.
  split; [done|]. split; [done|]. split; [done|]. split; [exact Hvoting|].
  split; [exact Hv|]. split; [done|].
  by destruct (insert_votes _ _ _ _ _) as [[[]|] db2].
Qed.

Lemma castVote_other_rows voterId ballot now slug db contest_id' voter' :
  (voterId <> Some voter'
   \/ forall c, select_contest_by_slug slug db = Some c -> c_id c <> contest_id') ->
  voter_rows contest_id' voter' (castVote voterId ballot now slug db).2
  = voter_rows contest_id' voter' db.
Proof.
  intros Hother.
  destruct (castVote_db voterId ballot now slug db)
    as [-> | (c & v & b & Hsel & -> & -> & _ & _ & _ & ->)].
  - apply voter_rows_votes, resolved_votes.
  - assert (contest_id' <> c_id c \/ voter' <> v) as Hkey.
    { destruct Hother as [H|H]; [right; congruence | left].
      intros Heq. by apply (H c Hsel). }
    rewrite (insert_votes_other _ _ _ _ Hkey), (delete_voter_votes_other _ _ _ _ Hkey).
    apply voter_rows_votes, resolved_votes.
Qed.

Lemma castVote_other_ballots voterId ballot now slug db contest_id' voter' :
  (voterId <> Some voter'
   \/ forall c, select_contest_by_slug slug db = Some c -> c_id c <> contest_id') ->
  select_voter_votes contest_id' voter' (castVote voterId ballot now slug db).2
  = select_voter_votes contest_id' voter' db.
Proof.
  intros Hother. unfold select_voter_votes. by rewrite castVote_other_rows.
Qed.

(** X11.  A vote submission, accepted or not, never changes the stored
    ballot of another voter, nor the ballot the same voter has in another
    contest: the rows of every other (contest, voter) pair are as before,
    and another voter reads back the same ballot. *)
Theorem castVote_leaves_other_ballots voterId ballot now slug db contest_id' voter' now' :
  (voterId <> Some voter'
   \/ forall c, select_contest_by_slug slug db = Some c -> c_id c <> contest_id') ->
  select_voter_votes contest_id' voter' (castVote voterId ballot now slug db).2
  = select_voter_votes contest_id' voter' db
  /\ (voterId <> Some voter' ->
      (getVoterBallot voter' now' slug (castVote voterId ballot now slug db).2).1
      = (getVoterBallot voter' now' slug db).1).
Proof.
  intros Hother. split; [by apply castVote_other_ballots|]. intros Hv.
  destruct (select_contest_by_slug slug db) as [c|] eqn:Hsel.
  - assert (select_contest_by_slug slug (castVote voterId ballot now slug db).2
            = Some (set_current_phase (newPhase now c) c)) as Hsel'.
    { rewrite (select_by_slug_contests slug _ (resolved now slug db)
                 (castVote_contests voterId ballot now slug db)).
      by apply stored_phase_resolved. }
    rewrite (getVoterBallot_found voter' now' slug _ _ Hsel'),
      (getVoterBallot_found voter' now' slug c db Hsel). simpl. f_equal.
    apply castVote_other_ballots. by left.
  - by rewrite (castVote_missing _ _ now slug db Hsel).
Qed.

Lemma castVote_leaves_other_ballots_witness :
  (Some "voter1" <> Some "voter2"
   \/ forall c, select_contest_by_slug "pumpkins" db_voted = Some c -> c_id c <> 1)
  /\ select_voter_votes 1 "voter2"
       (castVote (Some "voter1") (Some [mkBallotItem 3 1]) 170 "pumpkins" db_voted).2
     = [mkBallotItem 1 1]
  /\ (Some "voter1" <> Some "voter2" ->
      (getVoterBallot "voter2" 180 "pumpkins"
         (castVote (Some "voter1") (Some [mkBallotItem 3 1]) 170 "pumpkins" db_voted).2).1
      = RBallot [mkBallotItem 1 1]).
Proof.
  split; [left; discriminate|].
  apply (castVote_leaves_other_ballots (Some "voter1") (Some [mkBallotItem 3 1]) 170
           "pumpkins" db_voted 1 "voter2" 180).
  left. discriminate.
Defined.

(** ** Invariants of the votes table *)

Lemma in_contest_entries contest_id db db' id :
  (forall e, In e (entries db) -> In e (entries db')) ->
  in_contest contest_id db id -> in_contest contest_id db' id.
Proof. intros Hsub (e & He & H1 & H2). exists e. split; [by apply Hsub | done]. Qed.

Lemma insert_vote_entries contest_id voter entry_id r now db :
  entries (insert_vote contest_id voter entry_id r now db).2 = entries db.
Proof. unfold insert_vote. by repeat case_match. Qed.

Lemma insert_vote_Forall (P : Vote -> Prop) contest_id voter entry_id r now db :
  (forall id z t, entry_id = Whole z -> P (mkVote id contest_id voter z r t)) ->
  Forall P (votes db) ->
  Forall P (votes (insert_vote contest_id voter entry_id r now db).2).
Proof.
  intros Hnew Hold. unfold insert_vote. repeat case_match; try done. simpl.
  apply Forall_app. split; [done|]. constructor; [by apply Hnew | constructor].
Qed.

Lemma insert_votes_Forall (P : Vote -> Prop) contest_id voter now : forall ballot db,
  Forall (fun b => forall id z t,
            entryId b = Whole z -> P (mkVote id contest_id voter z (rank b) t)) ballot ->
  Forall P (votes db) ->
  Forall P (votes (insert_votes contest_id voter ballot now db).2).
Proof.
  intros ballot. induction ballot as [|b rest IH]; intros db Hnew Hold; [done|].
  inversion Hnew as [|? ? Hb Hrest]; subst.
  simpl. unfold mbind, Sql_bind, sql_bind.
  pose proof (insert_vote_Forall P contest_id voter (entryId b) (rank b) now db Hb Hold) as H1.
  destruct (insert_vote _ _ _ _ _ db) as [[[]|] db1]; simpl in *; [|done].
  by apply IH.
Qed.

Lemma insert_votes_entries contest_id voter now : forall ballot db,
  entries (insert_votes contest_id voter ballot now db).2 = entries db.
Proof.
  intros ballot. induction ballot as [|b rest IH]; intros db; [done|].
  simpl. unfold mbind, Sql_bind, sql_bind.
  pose proof (insert_vote_entries contest_id voter (entryId b) (rank b) now db) as H1.
  destruct (insert_vote _ _ _ _ _ db) as [[[]|] db1]; simpl in *; [|done].
  by rewrite IH.
Qed.

Lemma votes_refer_same_tables db db' :
  entries db' = entries db -> votes db' = votes db ->
  votes_refer_to_entries db -> votes_refer_to_entries db'.
Proof.
  unfold votes_refer_to_entries, in_contest. by intros -> ->.
Qed.

Lemma castVote_keeps_references voterId ballot now slug db :
  votes_refer_to_entries db ->
  votes_refer_to_entries (castVote voterId ballot now slug db).2.
Proof.
  intros Hinv.
  destruct (castVote_db voterId ballot now slug db)
    as [-> | (c & v & b & Hsel & -> & -> & _ & _ & Hval & ->)].
  - apply (votes_refer_same_tables db); [apply resolved_entries | apply resolved_votes | done].
  - apply validate_votes_none in Hval as (_ & _ & _ & Hin).
    set (db1 := delete_voter_votes (c_id c) v (resolved now slug db)).
    assert (entries db1 = entries db) as Hent by apply resolved_entries.
    unfold votes_refer_to_entries, in_contest.
    rewrite insert_votes_entries, Hent.
    apply (insert_votes_Forall
             (fun x => exists e, In e (entries db) /\ e_id e = v_entry_id x
                                 /\ e_contest_id e = v_contest_id x)).
    + eapply Forall_impl; [exact Hin|]. intros x Hx id z t Hz. simpl in Hx.
      rewrite Hz in Hx. exact Hx.
    + unfold db1, delete_voter_votes. simpl. rewrite resolved_votes.
      apply List.Forall_forall. intros x Hx. apply filter_In in Hx as [Hx _].
      unfold votes_refer_to_entries in Hinv. rewrite List.Forall_forall in Hinv.
      exact (Hinv x Hx).
Qed.

(** The database an entry deletion leaves. *)
Lemma adminDeleteEntry_db sha256_hex pin entry_id slug db :
  (adminDeleteEntry sha256_hex pin entry_id slug db).2 = db
  \/ exists id,
       (adminDeleteEntry sha256_hex pin entry_id slug db).2
       = mkDB (contests db)
              (List.filter (fun e => negb (bool_decide (e_id e = id))) (entries db))
              (List.filter (fun v => negb (bool_decide (v_entry_id v = id))) (votes db))
              (entries_seq db) (votes_seq db).
Proof.
  unfold adminDeleteEntry, hashPin. unfold_handler.
  destruct (select_contest_by_slug slug db) as [c|]; [|by left].
  destruct pin as [p|]; cbv beta iota; [|by left].
  destruct (bool_decide (sha256_hex p <> c_admin_pin_hash c)); [by left|].
  destruct (select_entry_in_contest entry_id (c_id c) db) as [e|]; [|by left].
  right. exists (e_id e).
  unfold delete_entry, delete_entry_votes, with_entries, with_votes. simpl.
  by rewrite filter_filter_same.
Qed.

Lemma adminDeleteEntry_keeps_references sha256_hex pin entry_id slug db :
  votes_refer_to_entries db ->
  votes_refer_to_entries (adminDeleteEntry sha256_hex pin entry_id slug db).2.
Proof.
  intros Hinv.
  destruct (adminDeleteEntry_db sha256_hex pin entry_id slug db) as [-> | [id ->]]; [done|].
  unfold votes_refer_to_entries in *. simpl.
  apply List.Forall_forall. intros v Hv. apply filter_In in Hv as [Hv Hid].
  rewrite List.Forall_forall in Hinv. destruct (Hinv v Hv) as (e & He & H1 & H2).
  exists e. simpl. split; [|done]. apply filter_In. split; [done|].
  apply negb_true_iff, bool_decide_eq_false in Hid.
  apply negb_true_iff, bool_decide_eq_false. congruence.
Qed.

Lemma insert_entry_entries contest_id name file now db :
  forall e, In e (entries db) -> In e (entries (insert_entry contest_id name file now db).2).
Proof.
  intros e He. unfold insert_entry. repeat case_match; try done. simpl.
  apply in_or_app. by left.
Qed.

Lemma insert_entry_votes contest_id name file now db :
  votes (insert_entry contest_id name file now db).2 = votes db.
Proof. unfold insert_entry. by repeat case_match. Qed.

Lemma createEntry_tables sql_lower js_trim name file now slug db :
  votes (createEntry sql_lower js_trim name file now slug db).2 = votes db
  /\ forall e, In e (entries db) ->
               In e (entries (createEntry sql_lower js_trim name file now slug db).2).
Proof.
  unfold createEntry. unfold_handler.
  pose proof (resolved_votes now slug db) as Hv.
  pose proof (resolved_entries now slug db) as He. unfold resolved in Hv, He.
  assert (forall r : Response,
            votes (r, (getContestWithPhase now slug db).2).2 = votes db
            /\ forall e, In e (entries db) ->
                         In e (entries (r, (getContestWithPhase now slug db).2).2)) as Hsame.
  { intros r. simpl. split; [exact Hv|]. intros e Hin. by rewrite He. }
  destruct (getContestWithPhase now slug db) as [[c|] db1]; cbv beta iota; [|apply Hsame].
  destruct (bool_decide (c_current_phase c <> submission)); [apply Hsame|].
  destruct name as [name|], file as [file|]; try apply Hsame.
  destruct (bool_decide (name = "")); [apply Hsame|].
  destruct (select_entry_by_name sql_lower (c_id c) name db1); [apply Hsame|].
  pose proof (insert_entry_votes (c_id c) (js_trim name) file now db1) as Hv2.
  pose proof (insert_entry_entries (c_id c) (js_trim name) file now db1) as He2.
  simpl in Hv, He.
  destruct (insert_entry _ _ _ _ db1) as [[id|] db2]; simpl in *.
  - split; [congruence|]. intros e Hin. apply He2. by rewrite He.
  - split; [congruence|]. intros e Hin. apply He2. by rewrite He.
Qed.

(** X12.  Every vote refers to an entry that exists in the contest of the
    vote, and the three handlers that write entries or votes keep it so: a
    vote submission, an entry deletion and an entry submission, whatever
    their arguments. *)
Theorem votes_keep_referring_to_entries db :
  votes_refer_to_entries db ->
  (forall voterId ballot now slug,
     votes_refer_to_entries (castVote voterId ballot now slug db).2)
  /\ (forall sha256_hex pin entry_id slug,
        votes_refer_to_entries (adminDeleteEntry sha256_hex pin entry_id slug db).2)
  /\ (forall sql_lower js_trim name file now slug,
        votes_refer_to_entries (createEntry sql_lower js_trim name file now slug db).2).
Proof.
  intros Hinv. split; [|split].
  - intros. by apply castVote_keeps_references.
  - intros. by apply adminDeleteEntry_keeps_references.
  - intros. destruct (createEntry_tables sql_lower js_trim name file now slug db) as [Hv He].
    unfold votes_refer_to_entries in *. rewrite Hv.
    eapply Forall_impl; [exact Hinv|]. intros v Hin.
    by apply (in_contest_entries _ db).
Qed.

Lemma votes_keep_referring_to_entries_witness :
  votes_refer_to_entries db_voted
  /\ votes_refer_to_entries
       (castVote (Some "voter1") (Some [mkBallotItem 3 1]) 170 "pumpkins" db_voted).2
  /\ votes_refer_to_entries
       (adminDeleteEntry (fun pin => pin) (Some "pin-hash") 1 "pumpkins" db_voted).2.
Proof.
  assert (votes_refer_to_entries db_voted) as Hinv.
  { unfold votes_refer_to_entries. simpl.
    repeat (constructor;
            [first [ by (exists entryA; simpl; tauto) | by (exists entryB; simpl; tauto)
                   | by (exists entryC; simpl; tauto) ] |]).
    constructor. }
  split; [exact Hinv|].
  destruct (votes_keep_referring_to_entries db_voted Hinv) as (Hcast & Hdel & _).
  split; [apply Hcast | apply Hdel].
Defined.

(** ** Well-formed ballots *)

Lemma NoDup_map_filter {X Y} (f : X -> Y) (g : X -> bool) l :
  NoDup (map f l) -> NoDup (map f (List.filter g l)).
Proof.
  induction l as [|x l IH]; simpl; [done|].
  rewrite NoDup_cons. intros [Hx Hnd]. destruct (g x); simpl; [|by apply IH].
  apply NoDup_cons. split; [|by apply IH].
  intros Hin. apply Hx. apply list_elem_of_In, in_map_iff.
  apply list_elem_of_In, in_map_iff in Hin as (y & Hy & Hin).
  exists y. split; [done|]. by apply filter_In in Hin as [Hin _].
Qed.

Lemma Forall_filter_keeps {X} (P : X -> Prop) (g : X -> bool) l :
  Forall P l -> Forall P (List.filter g l).
Proof.
  rewrite !List.Forall_forall. intros H x Hx. apply filter_In in Hx as [Hx _]. by apply H.
Qed.

Lemma selection_ok_filter g l : selection_ok l -> selection_ok (List.filter g l).
Proof.
  intros (Hr & Hnr & Hne). split; [|split].
  - by apply Forall_filter_keeps.
  - by apply NoDup_map_filter.
  - by apply NoDup_map_filter.
Qed.

(** A selection with distinct ranks out of 1, 2, 3 has at most 3 votes. *)
Lemma selection_ok_length l : selection_ok l -> (length l <= 3)%nat.
Proof.
  intros (Hr & Hnr & _).
  assert (forall x, x ∈ map rank l -> x ∈ [Whole 1; Whole 2; Whole 3]) as Hsub.
  { intros x Hx. apply list_elem_of_In, in_map_iff in Hx as (v & <- & Hv).
    rewrite List.Forall_forall in Hr. destruct (Hr v Hv) as [-> | [-> | ->]];
      apply list_elem_of_In; simpl; tauto. }
  pose proof (submseteq_length _ _ (NoDup_submseteq _ _ Hnr Hsub)) as Hlen.
  rewrite length_map in Hlen. simpl in Hlen. lia.
Qed.

Lemma length_filter_le {X} (g : X -> bool) l : (length (List.filter g l) <= length l)%nat.
Proof. induction l as [|x l IH]; simpl; [done|]. destruct (g x); simpl; lia. Qed.

Lemma ballot_ok_filter g l : ballot_ok l -> ballot_ok (List.filter g l).
Proof.
  intros (Hlen & Hr & Hnr & Hne). split; [|split; [|split]].
  - pose proof (length_filter_le g l). lia.
  - by apply Forall_filter_keeps.
  - by apply NoDup_map_filter.
  - by apply NoDup_map_filter.
Qed.

Lemma ballot_ok_perm l l' : l ≡ₚ l' -> ballot_ok l -> ballot_ok l'.
Proof.
  intros Hp (Hlen & Hr & Hnr & Hne). split; [|split; [|split]].
  - by rewrite <- Hp.
  - by rewrite <- Hp.
  - by rewrite <- Hp.
  - by rewrite <- Hp.
Qed.

(** The ballot read back is well formed when the voter's rows are. *)
Lemma ballot_ok_rows contest_id voter db :
  ballot_ok (select_voter_votes contest_id voter db)
  <-> ballot_ok (voter_rows contest_id voter db).
Proof.
  split; apply ballot_ok_perm; [|symmetry]; apply select_voter_votes_perm.
Qed.

Lemma voter_rows_filtered contest_id voter (g : Vote -> bool) (h : BallotItem -> bool)
    db db' :
  (forall v, g v = h (mkBallotItem (v_entry_id v) (v_rank v))) ->
  votes db' = List.filter g (votes db) ->
  voter_rows contest_id voter db'
  = List.filter h (voter_rows contest_id voter db).
Proof.
  intros Hgh Hv. unfold voter_rows. rewrite Hv. clear Hv.
  induction (votes db) as [|v vs IH]; simpl; [done|].
  pose proof (Hgh v) as Hv'.
  destruct (g v) eqn:Hg; simpl;
    destruct (bool_decide (v_contest_id v = contest_id) && bool_decide (v_voter_id v = voter));
    simpl; try rewrite <- Hv'; by rewrite IH.
Qed.

Lemma castVote_keeps_ballots voterId ballot now slug db :
  ballots_well_formed db -> ballots_well_formed (castVote voterId ballot now slug db).2.
Proof.
  intros Hinv contest_id voter.
  destruct (castVote_db voterId ballot now slug db)
    as [Hdb | (c & v & b & Hsel & -> & -> & Hph & Hv & _ & _)].
  { rewrite Hdb, (select_voter_votes_votes _ _ _ db (resolved_votes now slug db)).
    apply Hinv. }
  destruct (decide (contest_id = c_id c /\ voter = v)) as [[-> ->] | Hkey].
  - destruct (castVote_outcome v b now slug c db Hsel Hph Hv)
      as [((Hlen & Hr & Hnr & Hne & _) & db2 & Hok & _ & Hst) | (e & _ & Hbad)].
    + rewrite Hok. simpl. apply ballot_ok_rows. by rewrite Hst.
    + rewrite Hbad. simpl.
      rewrite (select_voter_votes_votes _ _ _ db (resolved_votes now slug db)).
      apply Hinv.
  - rewrite castVote_other_ballots; [apply Hinv|].
    destruct (decide (voter = v)) as [->|Hne]; [right | left; congruence].
    intros c0 Hc0 Heq. apply Hkey. split; [|done]. congruence.
Qed.

Lemma adminDeleteEntry_keeps_ballots sha256_hex pin entry_id slug db :
  ballots_well_formed db ->
  ballots_well_formed (adminDeleteEntry sha256_hex pin entry_id slug db).2.
Proof.
  intros Hinv contest_id voter.
  destruct (adminDeleteEntry_db sha256_hex pin entry_id slug db) as [-> | [id ->]];
    [apply Hinv|].
  apply ballot_ok_rows.
  rewrite (voter_rows_filtered contest_id voter
             (fun v => negb (bool_decide (v_entry_id v = id)))
             (fun b => negb (bool_decide (entryId b = id))) db); cycle 1.
  { intros v. simpl. f_equal. apply bool_decide_ext. split; [by intros -> | by intros [= ->]]. }
  { done. }
  apply ballot_ok_filter, ballot_ok_rows, Hinv.
Qed.

(** X13.  When the stored ballot of every voter in every contest has at most
    3 votes, ranks in the range from 1 to 3, no rank twice and no entry
    twice, it stays so through any vote submission and any entry deletion,
    the two handlers that write votes.  The range is all the handler and
    the table test of a rank: a stored rank need not be 1, 2 or 3. *)
Theorem ballots_stay_well_formed db :
  ballots_well_formed db ->
  (forall voterId ballot now slug,
     ballots_well_formed (castVote voterId ballot now slug db).2)
  /\ (forall sha256_hex pin entry_id slug,
        ballots_well_formed (adminDeleteEntry sha256_hex pin entry_id slug db).2).
Proof.
  intros Hinv. split.
  - intros. by apply castVote_keeps_ballots.
  - intros. by apply adminDeleteEntry_keeps_ballots.
Qed.

Lemma ballots_stay_well_formed_witness :
  ballots_well_formed db_voting
  /\ ballots_well_formed
       (castVote (Some "voter1") (Some [mkBallotItem 2 (Frac 1 1); mkBallotItem 3 2]) 150
                 "pumpkins" db_voting).2
  /\ ballots_well_formed
       (adminDeleteEntry (fun pin => pin) (Some "pin-hash") 1 "pumpkins" db_voting).2.
Proof.
  assert (ballots_well_formed db_voting) as Hinv.
  { intros contest_id voter. split; [simpl; lia|]. repeat split; constructor. }
  split; [exact Hinv|].
  destruct (ballots_stay_well_formed db_voting Hinv) as (Hcast & Hdel).
  split; [apply Hcast | apply Hdel].
Defined.

(** The first of the two submissions stores a rank that is none of the
    three places. *)
Example fractional_rank_is_stored :
  votes (castVote (Some "voter1") (Some [mkBallotItem 2 (Frac 1 1); mkBallotItem 3 2]) 150
                  "pumpkins" db_voting).2
  = [mkVote 1 1 "voter1" 2 (Frac 1 1) 0; mkVote 2 1 "voter1" 3 2 0].
Proof. vm_compute. reflexivity. Qed.

(** In the results a vote of such a rank counts for nothing: the tally
    looks for the ranks 1, 2 and 3. *)
Example fractional_rank_scores_nothing :
  entryWithVotes
    (mkDB [set_current_phase results pumpkins] [entryA; entryB; entryC]
          [mkVote 1 1 "voter1" 2 (Frac 1 1) 0; mkVote 2 1 "voter1" 3 2 0] 3 2)
    entryB
  = mkScoredEntry entryB 0 (mkVoteBreakdown 0 0 0).
Proof. vm_compute. reflexivity. Qed.

(** ** Submitting an entry *)

Lemma insert_entry_done contest_id name file now db :
  Forall (fun e => ~ (e_contest_id e = contest_id /\ e_name e = name)) (entries db) ->
  (exists c, In c (contests db) /\ c_id c = contest_id) ->
  exists e,
    insert_entry contest_id name file now db = (Done (e_id e), with_entries (entries db ++ [e]) (e_id e) db)
    /\ e = mkEntry (next_rowid (entries_seq db) (map e_id (entries db))) contest_id name file
                   (now `div` 1000)
    /\ select_entry_by_id (e_id e) (with_entries (entries db ++ [e]) (e_id e) db) = Some e.
Proof.
  intros Hfree Hc. unfold insert_entry.
  assert (existsb (fun e => bool_decide (e_contest_id e = contest_id)
                            && bool_decide (e_name e = name)) (entries db) = false) as ->.
  { apply not_true_is_false. intros (e & He & Hb)%existsb_exists.
    apply andb_true_iff in Hb as [H1 H2].
    apply bool_decide_eq_true in H1. apply bool_decide_eq_true in H2.
    rewrite List.Forall_forall in Hfree. by apply (Hfree e He). }
  rewrite (row_exists c_id _ _ Hc). simpl.
  exists (mkEntry (next_rowid (entries_seq db) (map e_id (entries db))) contest_id name file
                  (now `div` 1000)).
  split; [reflexivity|]. split; [reflexivity|]. simpl.
  unfold select_entry_by_id. simpl. apply find_app_none.
  - pose proof (next_rowid_above (entries_seq db) (map e_id (entries db))) as Hids.
    apply List.Forall_forall. intros e He. apply bool_decide_eq_false.
    rewrite List.Forall_forall in Hids. specialize (Hids (e_id e) (in_map e_id _ _ He)).
    lia.
  - by apply bool_decide_eq_true.
Qed.

Lemma insert_entry_thrown contest_id name file now db :
  (exists e, In e (entries db) /\ e_contest_id e = contest_id /\ e_name e = name) ->
  insert_entry contest_id name file now db = (Thrown, db).
Proof.
  intros (e & He & H1 & H2). unfold insert_entry.
  assert (existsb (fun e => bool_decide (e_contest_id e = contest_id)
                            && bool_decide (e_name e = name)) (entries db) = true) as ->; [|done].
  apply existsb_exists. exists e. split; [done|].
  apply andb_true_iff. split; by apply bool_decide_eq_true.
Qed.

Section EntrySubmission.

Variable sql_lower : string -> string.
Variable js_trim : string -> string.

(** The entry handler once the contest is found. *)
Lemma createEntry_found name file now slug c db :
  select_contest_by_slug slug db = Some c ->
  createEntry sql_lower js_trim name file now slug db =
  let db1 := resolved now slug db in
  if bool_decide (newPhase now c <> submission) then (RError SubmissionsClosed, db1)
  else
    match name, file with
    | Some name, Some filename =>
        if bool_decide (name = "") then (RError NameAndImageRequired, db1)
        else
          match select_entry_by_name sql_lower (c_id c) name db with
          | Some _ => (RError DuplicateName, db1)
          | None =>
              match insert_entry (c_id c) (js_trim name) filename now db1 with
              | (Done id, db2) => (RCreated (select_entry_by_id id db2), db2)
              | (Thrown, db2) => (RError (ServerError "Failed to create entry"), db2)
              end
          end
    | _, _ => (RError NameAndImageRequired, db1)
    end.
Proof.
  intros Hsel. unfold resolved.
  destruct (getContestWithPhase_found now slug c db Hsel) as (db1 & Hget & _ & Hent & _).
  unfold createEntry. unfold_handler. rewrite Hget. simpl.
  destruct (bool_decide (newPhase now c <> submission)); [done|].
  destruct name as [name|], file as [file|]; try done.
  destruct (bool_decide (name = "")); [done|].
  unfold select_entry_by_name. rewrite Hent.
  destruct (List.find _ (entries db)); [done|].
  by destruct (insert_entry _ _ _ _ db1) as [[id|] db2].
Qed.

Lemma select_entry_by_name_none contest_id name db :
  select_entry_by_name sql_lower contest_id name db = None <->
  Forall (fun e => ~ (e_contest_id e = contest_id /\ sql_lower (e_name e) = sql_lower name))
         (entries db).
Proof.
  unfold select_entry_by_name. split.
  - intros Hnone. apply List.Forall_forall. intros e He [H1 H2].
    pose proof (find_none _ _ Hnone e He) as Hb. simpl in Hb.
    rewrite !bool_decide_eq_true_2 in Hb by done. discriminate.
  - intros Hall. destruct (List.find _ (entries db)) as [e|] eqn:Hf; [|done].
    apply find_some in Hf as [He Hb]. apply andb_true_iff in Hb as [H1 H2].
    apply bool_decide_eq_true in H1. apply bool_decide_eq_true in H2.
    rewrite List.Forall_forall in Hall. by destruct (Hall e He).
Qed.

End EntrySubmission.

(** X14.  In submission phase, a submission with a name and a file whose
    name matches no entry of the contest, compared in lower case as sent
    and compared exactly after trimming, is stored: the answer is the new
    entry, with the trimmed name, the contest, the file and an id above
    every stored id, appended to the entries; the number of entries of the
    contest grows by one and nothing else changes but the resolved phase.
    Entries of other contests do not matter. *)
Theorem createEntry_stores sql_lower js_trim name file now slug c db :
  select_contest_by_slug slug db = Some c ->
  newPhase now c = submission ->
  name <> "" ->
  Forall (fun e => ~ (e_contest_id e = c_id c /\ sql_lower (e_name e) = sql_lower name))
         (entries db) ->
  Forall (fun e => ~ (e_contest_id e = c_id c /\ e_name e = js_trim name)) (entries db) ->
  exists e db',
    createEntry sql_lower js_trim (Some name) (Some file) now slug db = (RCreated (Some e), db')
    /\ e = mkEntry (next_rowid (entries_seq db) (map e_id (entries db))) (c_id c)
                   (js_trim name) file (now `div` 1000)
    /\ entries db' = entries db ++ [e]
    /\ Forall (fun id => id < e_id e) (map e_id (entries db))
    /\ votes db' = votes db
    /\ contests db' = contests (resolved now slug db)
    /\ count_entries (c_id c) db' = S (count_entries (c_id c) db).
Proof.
  intros Hsel Hph Hname Hlower Hexact.
  rewrite (createEntry_found sql_lower js_trim _ _ now slug c db Hsel). simpl.
  rewrite bool_decide_eq_false_2 by (by rewrite Hph; intros []).
  rewrite bool_decide_eq_false_2 by done.
  apply select_entry_by_name_none in Hlower. rewrite Hlower.
  pose proof (resolved_entries now slug db) as Hent.
  pose proof (resolved_votes now slug db) as Hvotes.
  pose proof (stored_phase_resolved now slug c db Hsel) as Hsel1.
  assert (entries_seq (resolved now slug db) = entries_seq db) as Hseq.
  { unfold resolved.
    by destruct (getContestWithPhase_found now slug c db Hsel) as (? & -> & _ & _ & _ & ? & _). }
  destruct (insert_entry_done (c_id c) (js_trim name) file now (resolved now slug db))
    as (e & Hins & He & Hbyid).
  { by rewrite Hent. }
  { unfold select_contest_by_slug in Hsel1. apply find_some in Hsel1 as [Hin _]. by eexists. }
  rewrite Hins, Hbyid. rewrite Hent, Hseq in He. exists e. eexists.
  split; [reflexivity|]. split; [exact He|]. simpl. rewrite Hent.
  split; [done|]. split.
  { rewrite He. simpl. apply next_rowid_above. }
  split; [done|]. split; [done|].
  unfold count_entries. simpl. rewrite List.filter_app, length_app. simpl.
  rewrite He. simpl. rewrite bool_decide_eq_true_2 by done. simpl. lia.
Qed.

Lemma createEntry_stores_witness :
  select_contest_by_slug "pumpkins" db_submission = Some pumpkins
  /\ newPhase 50 pumpkins = submission
  /\ " Dee " <> ""
  /\ exists e db',
       createEntry lower_ascii trim_blanks (Some " Dee ") (Some "d.png") 50 "pumpkins"
                   db_submission = (RCreated (Some e), db')
       /\ e = mkEntry 4 1 "Dee" "d.png" 0
       /\ entries db' = [entryA; entryB; entryC; e]
       /\ count_entries 1 db' = 4%nat.
Proof.
  split; [reflexivity|]. split; [reflexivity|]. split; [discriminate|].
  destruct (createEntry_stores lower_ascii trim_blanks " Dee " "d.png" 50 "pumpkins"
              pumpkins db_submission) as (e & db' & Hc & He & Hent & _ & _ & _ & Hcount).
  - reflexivity.
  - reflexivity.
  - discriminate.
  - repeat constructor; intros [_ H]; vm_compute in H; discriminate.
  - repeat constructor; intros [_ H]; vm_compute in H; discriminate.
  - exists e, db'. split; [exact Hc|]. split; [exact He|].
    split; [by rewrite Hent, He | exact Hcount].
Defined.

(** The same name is free in another contest. *)
Example createEntry_same_name_other_contest :
  (createEntry lower_ascii trim_blanks (Some "Bob") (Some "d.png") 50 "pumpkins-1"
               db_two_contests).1
  = RCreated (Some (mkEntry 4 2 "Bob" "d.png" 0)).
Proof. vm_compute. reflexivity. Qed.

(** X15.  In submission phase a submission whose name, in lower case,
    equals the lower-case name of an entry of the same contest is answered
    DuplicateName, which is sent with status 400, and no entry is
    stored. *)
Theorem createEntry_duplicate_name sql_lower js_trim name file now slug c db :
  select_contest_by_slug slug db = Some c ->
  newPhase now c = submission ->
  name <> "" ->
  Exists (fun e => e_contest_id e = c_id c /\ sql_lower (e_name e) = sql_lower name)
         (entries db) ->
  createEntry sql_lower js_trim (Some name) (Some file) now slug db
  = (RError DuplicateName, resolved now slug db)
  /\ error_status DuplicateName = 400
  /\ entries (resolved now slug db) = entries db.
Proof.
  intros Hsel Hph Hname Hdup.
  rewrite (createEntry_found sql_lower js_trim _ _ now slug c db Hsel). simpl.
  rewrite bool_decide_eq_false_2 by (by rewrite Hph; intros []).
  rewrite bool_decide_eq_false_2 by done.
  destruct (select_entry_by_name sql_lower (c_id c) name db) eqn:Hfind.
  - split; [done|]. split; [done | apply resolved_entries].
  - apply select_entry_by_name_none in Hfind.
    apply List.Exists_exists in Hdup as (e & He & Hmatch).
    rewrite List.Forall_forall in Hfind. by destruct (Hfind e He).
Qed.

Lemma createEntry_duplicate_name_witness :
  select_contest_by_slug "pumpkins" db_submission = Some pumpkins
  /\ newPhase 50 pumpkins = submission
  /\ "BOB" <> ""
  /\ Exists (fun e => e_contest_id e = c_id pumpkins
                      /\ lower_ascii (e_name e) = lower_ascii "BOB")
            (entries db_submission)
  /\ createEntry lower_ascii trim_blanks (Some "BOB") (Some "d.png") 50 "pumpkins"
                 db_submission
     = (RError DuplicateName, db_submission)
  /\ error_status DuplicateName = 400.
Proof.
  assert (Exists (fun e => e_contest_id e = c_id pumpkins
                           /\ lower_ascii (e_name e) = lower_ascii "BOB")
                 (entries db_submission)) as Hdup.
  { right. left. split; reflexivity. }
  split; [reflexivity|]. split; [reflexivity|]. split; [discriminate|].
  split; [exact Hdup|].
  destruct (createEntry_duplicate_name lower_ascii trim_blanks "BOB" "d.png" 50 "pumpkins"
              pumpkins db_submission) as (Hans & Hstatus & _);
    [reflexivity | reflexivity | discriminate | exact Hdup |].
  split; [exact Hans | exact Hstatus].
Defined.

(** X16.  The duplicate test compares the name as sent, the insert stores
    it trimmed: a name that matches no entry in lower case as sent but
    equals the name of an entry of the contest once trimmed passes the
    test, fails the insert on the uniqueness of (contest, name) and is
    answered 500; no entry is stored. *)
Theorem createEntry_trimmed_collision sql_lower js_trim name file now slug c db :
  select_contest_by_slug slug db = Some c ->
  newPhase now c = submission ->
  name <> "" ->
  Forall (fun e => ~ (e_contest_id e = c_id c /\ sql_lower (e_name e) = sql_lower name))
         (entries db) ->
  Exists (fun e => e_contest_id e = c_id c /\ e_name e = js_trim name) (entries db) ->
  createEntry sql_lower js_trim (Some name) (Some file) now slug db
  = (RError (ServerError "Failed to create entry"), resolved now slug db)
  /\ entries (resolved now slug db) = entries db.
Proof.
  intros Hsel Hph Hname Hlower Hexact.
  rewrite (createEntry_found sql_lower js_trim _ _ now slug c db Hsel). simpl.
  rewrite bool_decide_eq_false_2 by (by rewrite Hph; intros []).
  rewrite bool_decide_eq_false_2 by done.
  apply select_entry_by_name_none in Hlower. rewrite Hlower.
  rewrite insert_entry_thrown; [split; [done | apply resolved_entries]|].
  rewrite resolved_entries.
  apply List.Exists_exists in Hexact as (e & He & H1 & H2). by exists e.
Qed.

Lemma createEntry_trimmed_collision_witness :
  select_contest_by_slug "pumpkins" db_submission = Some pumpkins
  /\ newPhase 50 pumpkins = submission
  /\ "Bob " <> ""
  /\ createEntry lower_ascii trim_blanks (Some "Bob ") (Some "d.png") 50 "pumpkins"
                 db_submission
     = (RError (ServerError "Failed to create entry"), db_submission).
Proof.
  split; [reflexivity|]. split; [reflexivity|]. split; [discriminate|].
  apply (createEntry_trimmed_collision lower_ascii trim_blanks "Bob " "d.png" 50 "pumpkins"
           pumpkins db_submission); [reflexivity | reflexivity | discriminate | |].
  - repeat constructor; intros [_ H]; vm_compute in H; discriminate.
  - right. left. split; reflexivity.
Defined.

(** ** Deadlines on the write paths *)

Lemma newPhase_after_voting_deadline now c :
  c_voting_deadline c <= now -> newPhase now c = results.
Proof.
  intros H. unfold newPhase.
  destruct (Z.leb_spec (c_voting_deadline c) now); [|lia].
  by destruct (c_current_phase c); simpl; repeat case_match.
Qed.

Lemma newPhase_after_submission_deadline now c :
  c_submission_deadline c <= now -> newPhase now c <> submission.
Proof.
  intros H. unfold newPhase.
  destruct (Z.leb_spec (c_submission_deadline c) now); [|lia].
  by destruct (c_current_phase c); simpl; repeat case_match.
Qed.

Lemma submitEntry_let_through sql_lower js_trim maxFileSizeMB name image now slug db :
  upload_refused image = false ->
  submitEntry sql_lower js_trim maxFileSizeMB name image now slug db
  = createEntry sql_lower js_trim name (stored_name <$> image) now slug db.
Proof.
  unfold upload_refused, submitEntry. destruct image as [part|]; [|done].
  intros [H1 H2]%orb_false_iff. rewrite H1, H2. reflexivity.
Qed.

Lemma submitEntry_refused sql_lower js_trim maxFileSizeMB name image now slug db :
  upload_refused image = true ->
  (submitEntry sql_lower js_trim maxFileSizeMB name image now slug db).2 = db
  /\ exists e,
       (submitEntry sql_lower js_trim maxFileSizeMB name image now slug db).1 = RError e
       /\ (e = FileTooLarge maxFileSizeMB
           \/ e = ServerError "Only image files are allowed (JPEG, PNG, GIF, WebP, HEIC)").
Proof.
  unfold upload_refused, submitEntry. destruct image as [part|]; [|done].
  destruct (negb (bool_decide (mimetype part ∈ allowedTypes))); simpl.
  - intros _. split; [done|]. eexists. split; [done|]. by right.
  - intros ->. split; [done|]. eexists. split; [done|]. by left.
Qed.

(** X17.  The deadlines hold on the write paths whatever phase is stored:
    a vote submission at or after the voting deadline is answered
    VotingNotOpen, and an entry submission at or after the submission
    deadline that the upload middleware lets through is answered
    SubmissionsClosed; both store the resolved phase and nothing else.  An
    entry submission whose upload is refused is answered by the error
    middleware and leaves the database as it was.  None of them writes a
    vote or an entry. *)
Theorem late_writes_refused now slug c db :
  select_contest_by_slug slug db = Some c ->
  (c_voting_deadline c <= now ->
   forall voterId ballot,
     castVote voterId ballot now slug db = (RError VotingNotOpen, resolved now slug db))
  /\ (c_submission_deadline c <= now ->
      forall sql_lower js_trim maxFileSizeMB name image,
        (upload_refused image = false ->
         submitEntry sql_lower js_trim maxFileSizeMB name image now slug db
         = (RError SubmissionsClosed, resolved now slug db))
        /\ (upload_refused image = true ->
            exists e,
              submitEntry sql_lower js_trim maxFileSizeMB name image now slug db
              = (RError e, db)
              /\ (e = FileTooLarge maxFileSizeMB
                  \/ e = ServerError
                           "Only image files are allowed (JPEG, PNG, GIF, WebP, HEIC)")))
  /\ votes (resolved now slug db) = votes db
  /\ entries (resolved now slug db) = entries db.
Proof.
  intros Hsel. split; [|split; [|split]].
  - intros Hlate voterId ballot.
    rewrite (castVote_found voterId ballot now slug c db Hsel). simpl.
    rewrite bool_decide_eq_true_2; [done|].
    by rewrite (newPhase_after_voting_deadline now c Hlate).
  - intros Hlate sql_lower js_trim maxFileSizeMB name image. split.
    + intros Hup. rewrite submitEntry_let_through by done.
      rewrite (createEntry_found sql_lower js_trim name _ now slug c db Hsel). simpl.
      rewrite bool_decide_eq_true_2; [done|].
      by apply newPhase_after_submission_deadline.
    + intros Hup.
      destruct (submitEntry_refused sql_lower js_trim maxFileSizeMB name image now slug db Hup)
        as (Hdb & e & He & Hwhich).
      exists e. split; [|exact Hwhich].
      destruct (submitEntry _ _ _ _ _ _ _ _) as [r d]. simpl in *. by subst.
  - apply resolved_votes.
  - apply resolved_entries.
Qed.

Lemma late_writes_refused_witness :
  select_contest_by_slug "pumpkins" db_submission = Some pumpkins
  /\ c_submission_deadline pumpkins <= 100
  /\ submitEntry lower_ascii trim_blanks 25 (Some "Dee")
                 (Some (mkImagePart "image/png" false "d.png")) 100 "pumpkins" db_submission
     = (RError SubmissionsClosed, resolved 100 "pumpkins" db_submission)
  /\ stored_phase "pumpkins" (resolved 100 "pumpkins" db_submission) = Some voting
  /\ submitEntry lower_ascii trim_blanks 25 (Some "Dee")
                 (Some (mkImagePart "text/plain" false "d.txt")) 100 "pumpkins"
                 db_submission
     = (RError (ServerError "Only image files are allowed (JPEG, PNG, GIF, WebP, HEIC)"),
        db_submission).
Proof.
  split; [reflexivity|]. split; [simpl; lia|].
  destruct (late_writes_refused 100 "pumpkins" pumpkins db_submission)
    as (_ & Hentry & _); [reflexivity|].
  split; [|split; reflexivity].
  apply Hentry; [simpl; lia | reflexivity].
Defined.

(** A vote one instant after voting closed, and an upload that is too
    large. *)
Example late_vote_refused :
  castVote (Some "voter3") (Some [mkBallotItem 1 1]) 200 "pumpkins" db_voted
  = (RError VotingNotOpen, resolved 200 "pumpkins" db_voted)
  /\ stored_phase "pumpkins" (resolved 200 "pumpkins" db_voted) = Some results.
Proof. split; reflexivity. Qed.

Example large_upload_refused :
  submitEntry lower_ascii trim_blanks 25 (Some "Dee")
              (Some (mkImagePart "image/png" true "d.png")) 50 "pumpkins" db_submission
  = (RError (FileTooLarge 25), db_submission)
  /\ error_status (FileTooLarge 25) = 400
  /\ error_message (FileTooLarge 25) = "File too large. Maximum size is 25MB".
Proof. repeat split. Qed.

(** ** The contest list *)

Lemma with_contests_same db : with_contests (contests db) db = db.
Proof. by destruct db. Qed.

Lemma NoDup_ids_inj cs (a b : Contest) :
  NoDup (map c_id cs) -> In a cs -> In b cs -> c_id a = c_id b -> a = b.
Proof.
  induction cs as [|x cs IH]; simpl; [done|].
  rewrite NoDup_cons. intros [Hx Hnd] [->|Ha] [->|Hb] Hid; try done.
  - destruct Hx. rewrite Hid. apply list_elem_of_In, in_map_iff. by exists b.
  - destruct Hx. rewrite <- Hid. apply list_elem_of_In, in_map_iff. by exists a.
  - by apply IH.
Qed.

Lemma bool_decide_elem_cons {X} `{EqDecision X} (z a : X) l :
  bool_decide (z ∈ a :: l) = bool_decide (z = a) || bool_decide (z ∈ l).
Proof. rewrite <- bool_decide_or. apply bool_decide_ext, elem_of_cons. Qed.

(** Running the resolver over rows read beforehand resolves each of them
    in the table, when ids are unique. *)
Lemma update_phases_resolves now (cnt : Contest -> nat) cs0 :
  NoDup (map c_id cs0) ->
  forall l (isdone : Z -> bool) db,
    (forall c, In c l -> In c cs0) ->
    NoDup (map c_id l) ->
    (forall c, In c l -> isdone (c_id c) = false) ->
    contests db
    = map (fun x => if isdone (c_id x) then set_current_phase (newPhase now x) x else x) cs0 ->
    update_phases now (map (fun c => (c, cnt c)) l) db
    = (map (fun c => contest_view (set_current_phase (newPhase now c) c) (Some (cnt c))) l,
       with_contests
         (map (fun x => if isdone (c_id x) || bool_decide (c_id x ∈ map c_id l)
                        then set_current_phase (newPhase now x) x else x) cs0)
         db).
Proof.
  intros Hnd l. induction l as [|c l IH]; intros isdone db Hsub Hndl Hfresh Hdb.
  - simpl. f_equal. rewrite <- (with_contests_same db) at 1. f_equal. rewrite Hdb.
    apply map_ext. intros x. by rewrite orb_false_r.
  - simpl in Hndl. apply NoDup_cons in Hndl as [Hc Hndl].
    assert (In c cs0) as Hc0 by (apply Hsub; by left).
    set (isdone' := fun z => isdone z || bool_decide (z = c_id c)).
    assert (contests (updateContestPhase now c db).2
            = map (fun x => if isdone' (c_id x)
                            then set_current_phase (newPhase now x) x else x) cs0) as Hdb1.
    { unfold updateContestPhase. case_bool_decide as Hne; simpl.
      - rewrite Hdb, map_map. apply map_ext_in. intros x Hx. unfold isdone'.
        destruct (decide (c_id x = c_id c)) as [Heq|Hneq].
        + assert (x = c) as -> by (by apply (NoDup_ids_inj cs0)).
          rewrite (Hfresh c) by (by left).
          by rewrite !bool_decide_eq_true_2.
        + rewrite (bool_decide_eq_false_2 (c_id x = c_id c)) by done.
          rewrite orb_false_r.
          destruct (isdone (c_id x)); simpl; by rewrite bool_decide_eq_false_2.
      - rewrite Hdb. apply map_ext_in. intros x Hx. unfold isdone'.
        destruct (decide (c_id x = c_id c)) as [Heq|Hneq].
        + assert (x = c) as -> by (by apply (NoDup_ids_inj cs0)).
          rewrite (Hfresh c) by (by left). rewrite bool_decide_eq_true_2 by done. simpl.
          by rewrite Hne, set_current_phase_same.
        + rewrite (bool_decide_eq_false_2 (c_id x = c_id c)) by done.
          by rewrite orb_false_r. }
    assert ((updateContestPhase now c db).1 = set_current_phase (newPhase now c) c) as Hc1.
    { unfold updateContestPhase. case_bool_decide as Hne; simpl; [done|].
      by rewrite Hne, set_current_phase_same. }
    assert (with_contests (contests (updateContestPhase now c db).2) db
            = (updateContestPhase now c db).2) as Hrest.
    { unfold updateContestPhase. case_bool_decide; simpl; [done|apply with_contests_same]. }
    simpl. destruct (updateContestPhase now c db) as [c1 db1]. simpl in *. subst c1.
    rewrite (IH isdone' db1); try done.
    + f_equal. rewrite <- Hrest. unfold with_contests. simpl. f_equal.
      apply map_ext. intros x. unfold isdone'.
      by rewrite bool_decide_elem_cons, orb_assoc.
    + intros x Hx. apply Hsub. by right.
    + intros x Hx. unfold isdone'. rewrite (Hfresh x) by (by right). simpl.
      apply bool_decide_eq_false. intros Heq. apply Hc. rewrite <- Heq.
      apply list_elem_of_In, in_map_iff. by exists x.
Qed.

(** X18.  With unique contest ids, the contest list answers with every
    contest, newest first, each in the phase the resolver gives it now and
    with the number of its entries, and leaves every stored phase resolved;
    nothing else is written. *)
Theorem listContests_resolves_all now db :
  NoDup (map c_id (contests db)) ->
  listContests now db
  = (map (fun c => contest_view (set_current_phase (newPhase now c) c)
                                (Some (count_entries (c_id c) db)))
         (js_sort (fun a b => c_created_at b - c_created_at a) (contests db)),
     mkDB (map (fun c => set_current_phase (newPhase now c) c) (contests db))
          (entries db) (votes db) (entries_seq db) (votes_seq db)).
Proof.
  intros Hnd. unfold listContests, select_contests_with_counts.
  set (rows := js_sort _ (contests db)).
  assert (rows ≡ₚ contests db) as Hperm by apply js_sort_perm.
  rewrite (update_phases_resolves now (fun c => count_entries (c_id c) db) (contests db) Hnd
             rows (fun _ => false) db).
  - f_equal. unfold with_contests. f_equal. apply map_ext_in. intros x Hx. simpl.
    rewrite bool_decide_eq_true_2; [done|].
    apply list_elem_of_In, in_map_iff. exists x. split; [done|].
    apply list_elem_of_In. rewrite Hperm. by apply list_elem_of_In.
  - intros c Hc. apply list_elem_of_In. rewrite <- Hperm. by apply list_elem_of_In.
  - by rewrite Hperm.
  - done.
  - symmetry. apply map_id.
Qed.

Lemma listContests_resolves_all_witness :
  NoDup (map c_id (contests db_two_contests))
  /\ listContests 150 db_two_contests
     = ([ contest_view (set_current_phase voting pumpkins_again) (Some 0%nat);
          contest_view (set_current_phase voting pumpkins) (Some 3%nat) ],
        mkDB [set_current_phase voting pumpkins; set_current_phase voting pumpkins_again]
             [entryA; entryB; entryC] [] 3 0).
Proof.
  assert (NoDup (map c_id (contests db_two_contests))) as Hnd.
  { apply NoDup_ListNoDup. simpl. repeat constructor; simpl; intuition discriminate. }
  split; [exact Hnd|].
  rewrite (listContests_resolves_all 150 db_two_contests Hnd). reflexivity.
Defined.

(** ** The order of the deadlines *)

Lemma deadlines_ordered_same db db' :
  map (fun c => (c_submission_deadline c, c_voting_deadline c)) (contests db')
  = map (fun c => (c_submission_deadline c, c_voting_deadline c)) (contests db) ->
  deadlines_ordered db -> deadlines_ordered db'.
Proof.
  unfold deadlines_ordered. intros Hmap Hinv.
  assert (forall cs, Forall (fun c => c_submission_deadline c < c_voting_deadline c) cs
                     <-> Forall (fun p : Z * Z => p.1 < p.2)
                           (map (fun c => (c_submission_deadline c, c_voting_deadline c)) cs))
    as Hiff.
  { intros cs. induction cs as [|c cs IH]; simpl; [split; constructor|].
    rewrite !Forall_cons. simpl. by rewrite IH. }
  apply Hiff. rewrite Hmap. by apply Hiff.
Qed.

Lemma updateContestPhase_deadlines now c db :
  map (fun c => (c_submission_deadline c, c_voting_deadline c))
      (contests (updateContestPhase now c db).2)
  = map (fun c => (c_submission_deadline c, c_voting_deadline c)) (contests db).
Proof.
  unfold updateContestPhase. case_bool_decide; simpl; [|done].
  apply update_current_phase_deadlines.
Qed.

Lemma resolved_deadlines now slug db :
  map (fun c => (c_submission_deadline c, c_voting_deadline c))
      (contests (resolved now slug db))
  = map (fun c => (c_submission_deadline c, c_voting_deadline c)) (contests db).
Proof.
  unfold resolved, getContestWithPhase.
  destruct (select_contest_by_slug slug db) as [c|]; [|done].
  pose proof (updateContestPhase_deadlines now c db) as H.
  by destruct (updateContestPhase now c db).
Qed.

Lemma update_phases_deadlines now : forall rows db,
  map (fun c => (c_submission_deadline c, c_voting_deadline c))
      (contests (update_phases now rows db).2)
  = map (fun c => (c_submission_deadline c, c_voting_deadline c)) (contests db).
Proof.
  intros rows. induction rows as [|[c n] rows IH]; intros db; [done|].
  simpl. pose proof (updateContestPhase_deadlines now c db) as H.
  destruct (updateContestPhase now c db) as [c1 db1].
  specialize (IH db1). destruct (update_phases now rows db1) as [views db2].
  simpl in *. congruence.
Qed.

Lemma adminUpdate_phase_db c currentPhase db :
  (adminUpdate_phase c currentPhase db).2
  = match currentPhase ≫= phase_of_string with
    | Some p => update_current_phase p (c_id c) db
    | None => db
    end.
Proof.
  unfold adminUpdate_phase.
  destruct (currentPhase ≫= phase_of_string) as [p|]; unfold_handler; cbv beta iota.
  - by destruct (select_contest_by_id _ _).
  - by destruct (select_contest_by_id _ _).
Qed.

Lemma update_deadlines_ordered s v id db :
  s < v -> deadlines_ordered db -> deadlines_ordered (update_deadlines s v id db).
Proof.
  unfold deadlines_ordered, update_deadlines. simpl. intros Hsv Hinv.
  apply List.Forall_forall. intros c Hc. apply in_map_iff in Hc as (x & <- & Hx).
  rewrite List.Forall_forall in Hinv.
  destruct (bool_decide (c_id x = id)); simpl; [done | by apply Hinv].
Qed.

Lemma adminUpdate_keeps_order sha256_hex pin submissionDeadline votingDeadline currentPhase
    slug db :
  deadlines_ordered db ->
  deadlines_ordered
    (adminUpdate sha256_hex pin submissionDeadline votingDeadline currentPhase slug db).2.
Proof.
  intros Hinv. unfold adminUpdate, hashPin. unfold_handler.
  destruct (select_contest_by_slug slug db) as [c|]; [|done].
  destruct pin as [p|]; cbv beta iota; [|done].
  destruct (bool_decide (sha256_hex p <> c_admin_pin_hash c)); [done|].
  assert (forall db1, deadlines_ordered db1 ->
            deadlines_ordered
              (let (r, db') := adminUpdate_phase c currentPhase db1 in
               match r with
               | Done r0 => (r0, db')
               | Thrown => (RError (ServerError "Failed to update contest"), db')
               end).2) as Htail.
  { intros db1 H1. pose proof (adminUpdate_phase_db c currentPhase db1) as Hdb.
    destruct (adminUpdate_phase c currentPhase db1) as [[r|] d]; simpl in *; subst d;
      (destruct (currentPhase ≫= phase_of_string); [|done]);
      apply (deadlines_ordered_same db1); try done; apply update_current_phase_deadlines. }
  destruct submissionDeadline as [s|], votingDeadline as [v|]; try by apply Htail.
  destruct (Z.geb_spec s v) as [?|Hsv]; [done|].
  apply Htail. apply update_deadlines_ordered; [lia | done].
Qed.

Lemma createContest_keeps_order slugify sql_like_prefix sha256_hex
    name description adminPin submissionDeadline votingDeadline now db :
  deadlines_ordered db ->
  deadlines_ordered
    (createContest slugify sql_like_prefix sha256_hex name description adminPin
                   submissionDeadline votingDeadline now db).2.
Proof.
  intros Hinv. unfold createContest.
  destruct name as [n|], adminPin as [p|], submissionDeadline as [s|],
    votingDeadline as [v|]; try done.
  destruct (bool_decide (n = "") || bool_decide (p = "")); [done|].
  destruct (String.length p <? 4)%nat; [done|].
  destruct (Z.geb_spec s v) as [?|Hsv]; [done|].
  destruct (generateUniqueSlug _ _ n db) as [slug|]; [|done].
  unfold insert_contest. destruct (existsb _ (contests db)); [done|]. simpl.
  unfold deadlines_ordered. simpl. apply Forall_app. split; [done|].
  constructor; [simpl; lia | constructor].
Qed.

(** X19.  Once every contest has its submission deadline before its voting
    deadline, every handler keeps it so for every request whose deadlines,
    where it carries any, are dates: the five public handlers and the entry
    route, the contest list, the creation and the admin update and
    deletion. *)
Theorem deadlines_stay_ordered db :
  deadlines_ordered db ->
  (forall now slug, deadlines_ordered (getContest now slug db).2)
  /\ (forall rand now slug, deadlines_ordered (listEntries rand now slug db).2)
  /\ (forall sql_lower js_trim name file now slug,
        deadlines_ordered (createEntry sql_lower js_trim name file now slug db).2)
  /\ (forall sql_lower js_trim maxFileSizeMB name image now slug,
        deadlines_ordered
          (submitEntry sql_lower js_trim maxFileSizeMB name image now slug db).2)
  /\ (forall voterId ballot now slug, deadlines_ordered (castVote voterId ballot now slug db).2)
  /\ (forall voterId now slug, deadlines_ordered (getVoterBallot voterId now slug db).2)
  /\ (forall now, deadlines_ordered (listContests now db).2)
  /\ (forall slugify sql_like_prefix sha256_hex name description adminPin s v now,
        deadlines_ordered
          (createContest slugify sql_like_prefix sha256_hex name description adminPin s v
                         now db).2)
  /\ (forall sha256_hex pin s v currentPhase slug,
        deadlines_ordered (adminUpdate sha256_hex pin s v currentPhase slug db).2)
  /\ (forall sha256_hex pin entry_id slug,
        deadlines_ordered (adminDeleteEntry sha256_hex pin entry_id slug db).2).
Proof.
  intros Hinv.
  assert (forall db' now slug, contests db' = contests (resolved now slug db) ->
                               deadlines_ordered db') as Hres.
  { intros db' now slug Hc. apply (deadlines_ordered_same db); [|done].
    rewrite Hc. apply resolved_deadlines. }
  repeat split; intros.
  - apply (Hres _ now slug), getContest_contests.
  - apply (Hres _ now slug), listEntries_contests.
  - apply (Hres _ now slug), createEntry_contests.
  - destruct (upload_refused image) eqn:Hup.
    + by destruct (submitEntry_refused sql_lower js_trim maxFileSizeMB name image now slug db
                     Hup) as [-> _].
    + rewrite submitEntry_let_through by done.
      apply (Hres _ now slug), createEntry_contests.
  - apply (Hres _ now slug), castVote_contests.
  - apply (Hres _ now slug), getVoterBallot_contests.
  - apply (deadlines_ordered_same db); [|done]. apply update_phases_deadlines.
  - by apply createContest_keeps_order.
  - by apply adminUpdate_keeps_order.
  - destruct (adminDeleteEntry_db sha256_hex pin entry_id slug db) as [-> | [id ->]]; done.
Qed.

Lemma deadlines_stay_ordered_witness :
  deadlines_ordered db_two_contests
  /\ deadlines_ordered
       (adminUpdate (fun pin => pin) (Some "pin-hash") (Some 300) (Some 400) None "pumpkins"
                    db_two_contests).2
  /\ deadlines_ordered (listContests 150 db_two_contests).2.
Proof.
  assert (deadlines_ordered db_two_contests) as Hinv.
  { unfold deadlines_ordered. simpl. repeat constructor; simpl; lia. }
  split; [exact Hinv|].
  destruct (deadlines_stay_ordered db_two_contests Hinv)
    as (_ & _ & _ & _ & _ & _ & Hlist & _ & Hadmin & _).
  split; [apply Hadmin | apply Hlist].
Defined.

(** ** The results listing *)

Lemma tally_row_breakdown s bd x n :
  (tally_row (s, bd) (x, n)).2
  = mkVoteBreakdown (if bool_decide (x = 1) then n else first bd)
                    (if bool_decide (x = 2) then n else second bd)
                    (if bool_decide (x = 3) then n else third bd).
Proof.
  unfold tally_row. destruct bd as [f1 f2 f3].
  repeat case_bool_decide; simpl; (reflexivity || congruence).
Qed.

Lemma fold_tally_breakdown (cnt : Num -> nat) l : forall acc,
  (fold_left tally_row (map (fun r => (r, cnt r)) l) acc).2
  = mkVoteBreakdown (if bool_decide (Whole 1 ∈ l) then cnt 1 else first acc.2)
                    (if bool_decide (Whole 2 ∈ l) then cnt 2 else second acc.2)
                    (if bool_decide (Whole 3 ∈ l) then cnt 3 else third acc.2).
Proof.
  induction l as [|x l IH]; intros [s bd]; [by destruct bd|].
  cbn [map fold_left]. rewrite IH, tally_row_breakdown. cbn [first second third snd].
  rewrite !bool_decide_elem_cons.
  f_equal.
  - destruct (bool_decide (Whole 1 ∈ l)); [by rewrite orb_true_r|]. rewrite orb_false_r.
    destruct (decide (x = 1)) as [->|Hne];
      [by rewrite !bool_decide_eq_true_2 | by rewrite !bool_decide_eq_false_2].
  - destruct (bool_decide (Whole 2 ∈ l)); [by rewrite orb_true_r|]. rewrite orb_false_r.
    destruct (decide (x = 2)) as [->|Hne];
      [by rewrite !bool_decide_eq_true_2 | by rewrite !bool_decide_eq_false_2].
  - destruct (bool_decide (Whole 3 ∈ l)); [by rewrite orb_true_r|]. rewrite orb_false_r.
    destruct (decide (x = 3)) as [->|Hne];
      [by rewrite !bool_decide_eq_true_2 | by rewrite !bool_decide_eq_false_2].
Qed.

Lemma count_of_rank entry_id r db :
  length (List.filter (fun r' => bool_decide (r' = r))
            (map v_rank
                 (List.filter (fun v => bool_decide (v_entry_id v = entry_id)) (votes db))))
  = votes_of_rank entry_id r db.
Proof.
  unfold votes_of_rank. induction (votes db) as [|v vs IH]; simpl; [done|].
  destruct (bool_decide (v_entry_id v = entry_id)); simpl; [|exact IH].
  destruct (bool_decide (v_rank v = r)); simpl; by rewrite IH.
Qed.

Lemma count_absent (r : Num) l :
  r ∉ l -> length (List.filter (fun r' => bool_decide (r' = r)) l) = 0%nat.
Proof.
  induction l as [|x l IH]; simpl; [done|]. intros Hnin.
  rewrite bool_decide_eq_false_2.
  - apply IH. intros Hin. apply Hnin. by right.
  - intros ->. apply Hnin. left.
Qed.

(** The breakdown of an entry counts its votes rank by rank. *)
Lemma entryWithVotes_breakdown db entry :
  voteBreakdown (entryWithVotes db entry)
  = mkVoteBreakdown (votes_of_rank (e_id entry) 1 db) (votes_of_rank (e_id entry) 2 db)
                    (votes_of_rank (e_id entry) 3 db).
Proof.
  unfold entryWithVotes, select_rank_counts.
  set (ranks := map v_rank _).
  set (cnt := fun r => length (List.filter (fun r' => bool_decide (r' = r)) ranks)).
  pose proof (fold_tally_breakdown cnt (js_sort num_cmp (remove_dups ranks))
                (0, mkVoteBreakdown 0 0 0)) as Hfold.
  destruct (fold_left tally_row _ _) as [s bd]. simpl in *. rewrite Hfold.
  assert (forall r, (if bool_decide (r ∈ js_sort num_cmp (remove_dups ranks))
                     then cnt r else 0%nat) = votes_of_rank (e_id entry) r db) as Hcnt.
  { intros r. rewrite <- count_of_rank. fold ranks.
    destruct (decide (r ∈ js_sort num_cmp (remove_dups ranks))) as [Hin|Hin].
    - rewrite bool_decide_eq_true_2 by done. reflexivity.
    - rewrite bool_decide_eq_false_2 by done.
      symmetry. apply count_absent. intros Hr. apply Hin.
      rewrite (js_sort_perm num_cmp). by apply elem_of_remove_dups. }
  by rewrite !Hcnt.
Qed.

Lemma entryWithVotes_entry db entry : se_entry (entryWithVotes db entry) = entry.
Proof. unfold entryWithVotes. by destruct (fold_left _ _ _). Qed.

Lemma entryWithVotes_votes db db' entry :
  votes db' = votes db -> entryWithVotes db' entry = entryWithVotes db entry.
Proof. intros H. unfold entryWithVotes, select_rank_counts. by rewrite H. Qed.

Lemma tally_votes db db' es : votes db' = votes db -> tally db' es = tally db es.
Proof.
  intros H. unfold tally. f_equal. apply map_ext. intros e. by apply entryWithVotes_votes.
Qed.

(** X20.  In results phase the listing holds every entry of the contest
    exactly once, in order of non-increasing score; the score of an entry
    is 3, 2 and 1 once for each of the ranks 1, 2 and 3 that some vote gives
    it, and its breakdown is the number of its votes of each rank. *)
Theorem listEntries_results rand now slug c db :
  select_contest_by_slug slug db = Some c ->
  newPhase now c = results ->
  exists scored,
    (listEntries rand now slug db).1
    = REntries (mkEntriesPayload (map Scored scored) None results)
    /\ map se_entry scored ≡ₚ contest_entries (c_id c) db
    /\ Sorted (fun a b => score b <= score a) scored
    /\ Forall (fun s =>
                 score s = ranks_score (e_id (se_entry s)) db
                 /\ voteBreakdown s
                    = mkVoteBreakdown (votes_of_rank (e_id (se_entry s)) 1 db)
                                      (votes_of_rank (e_id (se_entry s)) 2 db)
                                      (votes_of_rank (e_id (se_entry s)) 3 db))
              scored.
Proof.
  intros Hsel Hph.
  exists (tally db (select_entries (c_id c) db)).
  split.
  { rewrite (listEntries_found rand now slug c db Hsel), Hph.
    by rewrite (tally_votes db _ _ (resolved_votes now slug db)). }
  split; [by rewrite tally_perm, select_entries_perm|].
  split; [apply tally_sorted|].
  unfold tally.
  eapply Permutation_Forall; [symmetry; apply js_sort_perm|].
  apply List.Forall_forall. intros s Hs. apply in_map_iff in Hs as (e & <- & _).
  rewrite entryWithVotes_entry. split;
    [apply entryWithVotes_score | apply entryWithVotes_breakdown].
Qed.

Lemma listEntries_results_witness :
  select_contest_by_slug "pumpkins" db_results = Some (set_current_phase results pumpkins)
  /\ newPhase 250 (set_current_phase results pumpkins) = results
  /\ exists scored,
       (listEntries (fun _ => 0) 250 "pumpkins" db_results).1
       = REntries (mkEntriesPayload (map Scored scored) None results)
       /\ map se_entry scored ≡ₚ [entryA; entryB; entryC]
       /\ Sorted (fun a b => score b <= score a) scored.
Proof.
  split; [reflexivity|]. split; [reflexivity|].
  destruct (listEntries_results (fun _ => 0) 250 "pumpkins"
              (set_current_phase results pumpkins) db_results)
    as (scored & Hans & Hperm & Hsorted & _); [reflexivity | reflexivity |].
  exists scored. split; [exact Hans|]. split; [exact Hperm | exact Hsorted].
Defined.

(** ** Ties *)

Lemma sort_insert_stable {X} (cmp : X -> X -> Z) (f : X -> bool) x l :
  (forall a b, f a = true -> f b = true -> cmp a b <= 0) ->
  List.filter f (sort_insert cmp x l) = List.filter f (x :: l).
Proof.
  intros Hclass. induction l as [|y l IH]; simpl; [done|].
  destruct (Z.leb_spec (cmp x y) 0) as [Hle|Hgt]; simpl; [done|].
  rewrite IH. simpl.
  destruct (f x) eqn:Hx, (f y) eqn:Hy; try done.
  specialize (Hclass x y Hx Hy). lia.
Qed.

Lemma js_sort_stable {X} (cmp : X -> X -> Z) (f : X -> bool) l :
  (forall a b, f a = true -> f b = true -> cmp a b <= 0) ->
  List.filter f (js_sort cmp l) = List.filter f l.
Proof.
  intros Hclass. induction l as [|x l IH]; simpl; [done|].
  rewrite sort_insert_stable by done. simpl. by rewrite IH.
Qed.

(** X21.  Ties keep the order the entries were read in: for every score, the
    entries of the tally that have it appear in the order they have in the
    list the tally is made from, which the listing reads by creation
    time. *)
Theorem tally_keeps_order_of_ties db entries z :
  map se_entry (List.filter (fun s => bool_decide (score s = z)) (tally db entries))
  = List.filter (fun e => bool_decide (ranks_score (e_id e) db = z)) entries.
Proof.
  unfold tally. rewrite js_sort_stable.
  - induction entries as [|e es IH]; simpl; [done|].
    rewrite entryWithVotes_score.
    destruct (bool_decide (ranks_score (e_id e) db = z)); simpl; [|exact IH].
    by rewrite entryWithVotes_entry, IH.
  - intros a b Ha Hb. apply bool_decide_eq_true in Ha. apply bool_decide_eq_true in Hb. lia.
Qed.

(** ** The voting page *)

Lemma handleVote_kept entry_id r prev v :
  In v (List.filter (fun v => negb (bool_decide (entryId v = entry_id)))
                    (List.filter (fun v => negb (bool_decide (rank v = r))) prev))
  <-> In v prev /\ rank v <> r /\ entryId v <> entry_id.
Proof.
  rewrite !filter_In, !negb_true_iff, !bool_decide_eq_false. tauto.
Qed.

Lemma handleVote_selection entry_id r prev :
  selection_ok prev -> rank_valid r -> selection_ok (handleVote entry_id r prev).
Proof.
  intros Hok Hr. unfold handleVote.
  pose proof (selection_ok_filter (fun v => negb (bool_decide (entryId v = entry_id))) _
                (selection_ok_filter (fun v => negb (bool_decide (rank v = r))) _ Hok))
    as (Hfr & Hfnr & Hfne).
  split; [|split].
  - apply Forall_app. split; [done|]. constructor; [exact Hr | constructor].
  - rewrite map_app. apply NoDup_app. split; [done|]. split; [|apply NoDup_singleton].
    intros x Hx. apply list_elem_of_In, in_map_iff in Hx as (v & <- & Hv).
    apply handleVote_kept in Hv as (_ & Hne & _). simpl.
    intros Hin. apply list_elem_of_singleton in Hin. done.
  - rewrite map_app. apply NoDup_app. split; [done|]. split; [|apply NoDup_singleton].
    intros x Hx. apply list_elem_of_In, in_map_iff in Hx as (v & <- & Hv).
    apply handleVote_kept in Hv as (_ & _ & Hne). simpl.
    intros Hin. apply list_elem_of_singleton in Hin. done.
Qed.

(** X22.  Picking a rank for an entry keeps the selection well formed:
    from a selection with ranks from {1,2,3}, no rank twice and no entry
    twice, [handleVote] with a rank from {1,2,3} gives such a selection
    again, of at most 3 votes, in which the entry has the rank picked and
    which keeps every earlier vote of another rank and another entry;
    [removeVote] keeps it well formed too and leaves the entry without a
    rank. *)
Theorem handleVote_keeps_selection entry_id r prev :
  selection_ok prev ->
  rank_valid r ->
  selection_ok (handleVote entry_id r prev)
  /\ (length (handleVote entry_id r prev) <= 3)%nat
  /\ getVoteRank entry_id (handleVote entry_id r prev) = Some r
  /\ (forall v, In v prev -> rank v <> r -> entryId v <> entry_id ->
                In v (handleVote entry_id r prev))
  /\ selection_ok (removeVote entry_id prev)
  /\ getVoteRank entry_id (removeVote entry_id prev) = None.
Proof.
  intros Hok Hr.
  pose proof (handleVote_selection entry_id r prev Hok Hr) as Hsel.
  split; [exact Hsel|]. split; [by apply selection_ok_length|]. split; [|split; [|split]].
  - unfold getVoteRank, handleVote. rewrite find_app_none; [done| |].
    + apply List.Forall_forall. intros v Hv. apply handleVote_kept in Hv as (_ & _ & Hne).
      by apply bool_decide_eq_false.
    + by apply bool_decide_eq_true.
  - intros v Hv H1 H2. unfold handleVote. apply in_or_app. left.
    by apply handleVote_kept.
  - by apply selection_ok_filter.
  - unfold getVoteRank, removeVote.
    destruct (List.find _ _) as [v|] eqn:Hf; [|done].
    apply find_some in Hf as [Hin Hb]. apply filter_In in Hin as [_ Hin].
    apply bool_decide_eq_true in Hb. apply negb_true_iff, bool_decide_eq_false in Hin. done.
Qed.

Lemma handleVote_keeps_selection_witness :
  selection_ok [mkBallotItem 1 1; mkBallotItem 2 2]
  /\ rank_valid 1
  /\ handleVote 2 1 [mkBallotItem 1 1; mkBallotItem 2 2] = [mkBallotItem 2 1]
  /\ selection_ok (handleVote 2 1 [mkBallotItem 1 1; mkBallotItem 2 2])
  /\ getVoteRank 2 (handleVote 2 1 [mkBallotItem 1 1; mkBallotItem 2 2]) = Some (Whole 1).
Proof.
  assert (selection_ok [mkBallotItem 1 1; mkBallotItem 2 2]) as Hok.
  { split; [|split].
    - repeat constructor; unfold rank_valid; simpl; tauto.
    - apply NoDup_ListNoDup. repeat constructor; simpl; intuition discriminate.
    - apply NoDup_ListNoDup. repeat constructor; simpl; intuition discriminate. }
  assert (rank_valid 1) as Hr by (by left).
  split; [exact Hok|]. split; [exact Hr|]. split; [reflexivity|].
  destruct (handleVote_keeps_selection 2 1 [mkBallotItem 1 1; mkBallotItem 2 2] Hok Hr)
    as (Hsel & _ & Hrank & _).
  split; [exact Hsel | exact Hrank].
Defined.

Lemma click_keeps contest_id db selected k :
  selection_ok selected /\ Forall (fun v => names_entry contest_id db (entryId v)) selected ->
  match k with
  | Pick entry_id r => rank_valid r /\ names_entry contest_id db entry_id
  | Unpick _ => True
  end ->
  selection_ok (click selected k)
  /\ Forall (fun v => names_entry contest_id db (entryId v)) (click selected k).
Proof.
  intros [Hok Hin] Hk. destruct k as [entry_id r | entry_id]; simpl.
  - destruct Hk as [Hr He]. split; [by apply handleVote_selection|].
    unfold handleVote. apply Forall_app. split; [|constructor; [exact He | constructor]].
    by do 2 apply Forall_filter_keeps.
  - split; [by apply selection_ok_filter | by apply Forall_filter_keeps].
Qed.

Lemma clicks_keep contest_id db clicks : forall selected,
  selection_ok selected /\ Forall (fun v => names_entry contest_id db (entryId v)) selected ->
  Forall (fun k => match k with
                   | Pick entry_id r => rank_valid r /\ names_entry contest_id db entry_id
                   | Unpick _ => True
                   end) clicks ->
  selection_ok (fold_left click clicks selected)
  /\ Forall (fun v => names_entry contest_id db (entryId v)) (fold_left click clicks selected).
Proof.
  induction clicks as [|k clicks IH]; intros selected Hsel Hks; [done|].
  inversion Hks as [|? ? Hk Hrest]; subst. simpl.
  apply IH; [|done]. by apply click_keeps.
Qed.

(** X23.  What the voting page sends is accepted: starting from a well
    formed selection of entries of the contest (the empty one, or a well
    formed ballot read back from the server), after any clicks that pick
    ranks from {1,2,3} for entries of the contest or remove entries,
    [handleSubmit] sends nothing when the selection is empty and otherwise,
    in voting phase, the server answers with success and the ballot it then
    returns for the voter holds exactly the votes of the selection, each
    once. *)
Theorem page_ballot_is_recorded voterId start clicks now slug c db :
  select_contest_by_slug slug db = Some c ->
  newPhase now c = voting ->
  voterId <> "" ->
  selection_ok start ->
  Forall (fun v => names_entry (c_id c) db (entryId v)) start ->
  Forall (fun k => match k with
                   | Pick entry_id r => rank_valid r /\ names_entry (c_id c) db entry_id
                   | Unpick _ => True
                   end) clicks ->
  (fold_left click clicks start = [] ->
   handleSubmit voterId (fold_left click clicks start) now slug db = None)
  /\ (fold_left click clicks start <> [] ->
      exists db',
        handleSubmit voterId (fold_left click clicks start) now slug db
        = Some (RVotesRecorded, db')
        /\ select_voter_votes (c_id c) voterId db' ≡ₚ fold_left click clicks start).
Proof.
  intros Hsel Hph Hvoter Hstart Hin Hclicks.
  destruct (clicks_keep (c_id c) db clicks start (conj Hstart Hin) Hclicks) as [Hok Hall].
  set (ballot := fold_left click clicks start) in *.
  unfold handleSubmit. split.
  - intros ->. done.
  - intros Hne. rewrite bool_decide_eq_false_2 by (by destruct ballot).
    assert (well_formed (c_id c) db ballot) as Hwf.
    { pose proof (selection_ok_length ballot Hok) as Hlen.
      destruct Hok as (Hr & Hnr & Hne'). by repeat split. }
    apply well_formed_passes in Hwf.
    destruct (castVote_outcome voterId ballot now slug c db Hsel Hph Hvoter)
      as [(_ & db2 & Hrec & _ & Hstored) | (e & Hbad & _)].
    + exists db2. split; [by rewrite Hrec|].
      by rewrite select_voter_votes_perm, Hstored.
    + by apply passes_not_rejects with (e := e) in Hwf.
Qed.

Lemma page_ballot_is_recorded_witness :
  select_contest_by_slug "pumpkins" db_voting = Some (set_current_phase voting pumpkins)
  /\ newPhase 150 (set_current_phase voting pumpkins) = voting
  /\ "voter1" <> ""
  /\ fold_left click [Pick 1 1; Pick 2 1; Pick 3 2; Unpick 3; Pick 1 3] []
     = [mkBallotItem 2 1; mkBallotItem 1 3]
  /\ exists db',
       handleSubmit "voter1"
                    (fold_left click [Pick 1 1; Pick 2 1; Pick 3 2; Unpick 3; Pick 1 3] [])
                    150 "pumpkins" db_voting
       = Some (RVotesRecorded, db')
       /\ select_voter_votes 1 "voter1" db' ≡ₚ [mkBallotItem 2 1; mkBallotItem 1 3].
Proof.
  split; [reflexivity|]. split; [reflexivity|]. split; [discriminate|].
  split; [reflexivity|].
  destruct (page_ballot_is_recorded "voter1" []
              [Pick 1 1; Pick 2 1; Pick 3 2; Unpick 3; Pick 1 3] 150 "pumpkins"
              (set_current_phase voting pumpkins) db_voting) as [_ Hsend].
  - reflexivity.
  - reflexivity.
  - discriminate.
  - repeat split; constructor.
  - constructor.
  - repeat constructor; try (unfold rank_valid; tauto);
      first [ by (exists entryA; simpl; tauto) | by (exists entryB; simpl; tauto)
            | by (exists entryC; simpl; tauto) ].
  - apply Hsend. discriminate.
Defined.

(** The selection of the witness comes back with entry 1 first. *)
Example page_ballot_read_back :
  (getVoterBallot "voter1" 160 "pumpkins"
     (castVote (Some "voter1") (Some [mkBallotItem 2 1; mkBallotItem 1 3]) 150 "pumpkins"
               db_voting).2).1
  = RBallot [mkBallotItem 1 3; mkBallotItem 2 1].
Proof. vm_compute. reflexivity. Qed.

(** ** The countdown *)

(** Nothing remains exactly when the deadline is reached or passed. *)
Lemma getTimeRemaining_none now deadline :
  getTimeRemaining now deadline = None <-> deadline <= now.
Proof.
  unfold getTimeRemaining.
  destruct (Z.leb_spec (deadline - now) 0) as [Hle|Hpos].
  - split; [intros _; lia | reflexivity].
  - split; [|intros ?; lia]. by repeat case_match.
Qed.

(** X24.  The countdown shows nothing exactly when the deadline is reached
    or passed.  Otherwise it shows days and hours from one day on, hours and
    minutes from one hour on, and minutes below that (0 minutes in the last
    minute); the figures are in range and never overstate the time left:
    the time left is at least what is shown and less than one more of the
    smaller unit shown. *)
Theorem getTimeRemaining_bounds now deadline :
  (getTimeRemaining now deadline = None <-> deadline <= now)
  /\ forall r,
       getTimeRemaining now deadline = Some r ->
       match r with
       | DaysHours d h =>
           1 <= d /\ 0 <= h < 24
           /\ d * 86400000 + h * 3600000 <= deadline - now
              < d * 86400000 + (h + 1) * 3600000
       | HoursMinutes h m =>
           1 <= h < 24 /\ 0 <= m < 60
           /\ h * 3600000 + m * 60000 <= deadline - now < h * 3600000 + (m + 1) * 60000
       | Minutes m =>
           0 <= m < 60 /\ m * 60000 <= deadline - now < (m + 1) * 60000
       end.
Proof.
  unfold getTimeRemaining.
  change (1000 * 60 * 60 * 24) with 86400000.
  change (1000 * 60 * 60) with 3600000.
  change (1000 * 60) with 60000.
  remember (deadline - now) as diff eqn:Hdiff.
  destruct (Z.leb_spec diff 0) as [Hle|Hpos].
  { split.
    - split; [intros _; lia | reflexivity].
    - intros r Hr. discriminate Hr. }
  pose proof (Z.div_mod diff 86400000 ltac:(lia)) as Hd.
  pose proof (Z.mod_pos_bound diff 86400000 ltac:(lia)) as Hdb.
  pose proof (Z.div_mod (diff `mod` 86400000) 3600000 ltac:(lia)) as Hh.
  pose proof (Z.mod_pos_bound (diff `mod` 86400000) 3600000 ltac:(lia)) as Hhb.
  pose proof (Z.div_mod diff 3600000 ltac:(lia)) as Hq.
  pose proof (Z.mod_pos_bound diff 3600000 ltac:(lia)) as Hqb.
  pose proof (Z.div_mod (diff `mod` 3600000) 60000 ltac:(lia)) as Hm.
  pose proof (Z.mod_pos_bound (diff `mod` 3600000) 60000 ltac:(lia)) as Hmb.
  remember (diff `div` 86400000) as days.
  remember (diff `mod` 86400000) as rd.
  remember (rd `div` 3600000) as hours.
  remember (rd `mod` 3600000) as rh.
  remember (diff `div` 3600000) as q.
  remember (diff `mod` 3600000) as rq.
  remember (rq `div` 60000) as minutes.
  remember (rq `mod` 60000) as rm.
  destruct (Z.ltb_spec 0 days) as [Hdays|Hdays];
    [|destruct (Z.ltb_spec 0 hours) as [Hhours|Hhours]].
  - split; [split; [intros Hr; discriminate Hr | intros ?; lia]|].
    intros r [= <-]. lia.
  - split; [split; [intros Hr; discriminate Hr | intros ?; lia]|].
    intros r [= <-]. lia.
  - split; [split; [intros Hr; discriminate Hr | intros ?; lia]|].
    intros r [= <-]. lia.
Qed.

(** The countdown of a deadline 26 hours away, 90 minutes away and 30
    seconds away. *)
Example getTimeRemaining_examples :
  remaining_text <$> getTimeRemaining 0 93600000 = Some "1d 2h remaining"
  /\ remaining_text <$> getTimeRemaining 0 5400000 = Some "1h 30m remaining"
  /\ remaining_text <$> getTimeRemaining 0 30000 = Some "0m remaining"
  /\ getTimeRemaining 30000 30000 = None.
Proof. vm_compute. repeat split. Qed.

(** X25.  For a contest whose submission deadline is before its voting
    deadline, the contest page reloads on a tick of its timer exactly when
    a read at that instant makes the server move the contest to a new
    phase. *)
Theorem timer_reloads_iff_phase_moves now c n :
  c_submission_deadline c < c_voting_deadline c ->
  timer_reloads now (contest_view c n) = true <-> newPhase now c <> c_current_phase c.
Proof.
  intros Hord. unfold timer_reloads, countdown_deadline, newPhase. simpl.
  pose proof (getTimeRemaining_none now (c_submission_deadline c)) as Hs.
  pose proof (getTimeRemaining_none now (c_voting_deadline c)) as Hv.
  destruct (c_current_phase c); simpl.
  - rewrite bool_decide_eq_true, Hs.
    destruct (Z.leb_spec (c_submission_deadline c) now),
      (Z.leb_spec (c_voting_deadline c) now); simpl; split; try done; lia.
  - rewrite bool_decide_eq_true, Hv.
    destruct (Z.leb_spec (c_voting_deadline c) now); simpl; split; try done; lia.
  - split; [done|]. intros H. by destruct H.
Qed.

Lemma timer_reloads_iff_phase_moves_witness :
  c_submission_deadline pumpkins < c_voting_deadline pumpkins
  /\ timer_reloads 100 (contest_view pumpkins (Some 3%nat)) = true
  /\ newPhase 100 pumpkins <> c_current_phase pumpkins.
Proof.
  split; [simpl; lia|]. split; [reflexivity|].
  apply (timer_reloads_iff_phase_moves 100 pumpkins (Some 3%nat)); [simpl; lia | reflexivity].
Defined.

(** ** The entry count of the contest page *)

Lemma length_imap_keyed {X Y} (f : nat -> X -> Y) : forall l, length (imap f l) = length l.
Proof. intros l. revert f. induction l as [|x l IH]; intros f; simpl; [done|]. by rewrite IH. Qed.

(** X26.  In every phase the number of entries the contest page shows is
    the number of entries of the contest: the count of the payload in
    submission phase, the length of the entry list in the other two. *)
Theorem shown_entry_count_is_count rand now slug c db :
  select_contest_by_slug slug db = Some c ->
  exists payload,
    (listEntries rand now slug db).1 = REntries payload
    /\ p_phase payload = newPhase now c
    /\ shown_entry_count payload = count_entries (c_id c) db.
Proof.
  intros Hsel. rewrite (listEntries_found rand now slug c db Hsel).
  eexists. split; [reflexivity|].
  pose proof (select_entries_length (c_id c) db) as Hlen.
  unfold contest_entries in Hlen. fold (count_entries (c_id c) db) in Hlen.
  destruct (newPhase now c); simpl; unfold shown_entry_count; simpl.
  - by rewrite Hlen.
  - unfold shuffled. by rewrite length_map, js_sort_length, length_imap_keyed, Hlen.
  - unfold tally. by rewrite !length_map, js_sort_length, length_map, Hlen.
Qed.

Lemma shown_entry_count_is_count_witness :
  select_contest_by_slug "pumpkins" db_results = Some (set_current_phase results pumpkins)
  /\ exists payload,
       (listEntries (fun _ => 0) 250 "pumpkins" db_results).1 = REntries payload
       /\ p_phase payload = results
       /\ shown_entry_count payload = 3%nat.
Proof.
  split; [reflexivity|].
  apply (shown_entry_count_is_count (fun _ => 0) 250 "pumpkins"
           (set_current_phase results pumpkins) db_results).
  reflexivity.
Defined.
